(** * Verification of the dyntapy dynamic traffic assignment core

    Shallow embedding of the parts of the Python sources that the
    specification talks about:
    - [datastructures/csr.py]: [__csr_sort], [__csr_format], [csr_prep] and the
      [__init__], [get_row], [get_nnz] and [get_nnz_rows] of the jitted
      [CSRMatrix] class;
    - [dtapy/core/network_loading/link_models/i_ltm.py]: [calc_sending_flows],
      [calc_turning_flows], [calc_receiving_flows];
    - [dtapy/core/assignment_methods/i_ltm_aon.py]: [i_ltm_aon], [is_converged];
    - [dtapy/demand.py]: the validation and time tagging of [_build_demand];
    - [dtapy/core/route_choice/dynamic_dijkstra.py]: [dijkstra];
    - [dtapy/core/network_loading/link_models/utilities.py]: [cvn_to_flows];
    - [dtapy/core/debugging.py]: [monotonicity] and [storage].

    Floating point numbers are modelled by exact rationals ([Qc], canonical so
    that equality is Leibniz); infinities and NaN are kept where the source
    relies on them. Exceptions are the [Err] branch of a small result monad. *)

From Stdlib Require Import Arith Lia List ZArith QArith Qround Qcanon Qcabs Bool.
From Stdlib Require Import Sorting Permutation.
From Stdlib Require Strings.String Strings.Ascii.
Import ListNotations.

Close Scope Qc_scope.
Close Scope Q_scope.
Open Scope nat_scope.

(* ------------------------------------------------------------------ *)
(** ** Python exceptions and the result monad *)

Inductive py_error :=
| IndexError
| ValueError
| TypeError
| NotImplementedError.

Inductive result (A : Type) :=
| Ok : A -> result A
| Err : py_error -> result A.
Arguments Ok {A} _.
Arguments Err {A} _.

Definition rbind {A B} (m : result A) (f : A -> result B) : result B :=
  match m with Ok a => f a | Err e => Err e end.

Notation "x <- m ;; k" := (rbind m (fun x => k))
  (at level 61, m at next level, right associativity).
Notation "' p <- m ;; k" := (rbind m (fun x => match x with p => k end))
  (at level 61, p pattern, m at next level, right associativity).

(** Python indexing [l[i]] for a non-negative index, [IndexError] when out of
    range. *)
Definition py_get {A} (l : list A) (i : nat) : result A :=
  match nth_error l i with Some a => Ok a | None => Err IndexError end.

(** Python indexing with a possibly negative index ([l[-1]] is the last
    element). *)
Definition py_getz {A} (l : list A) (i : Z) : result A :=
  if (i <? 0)%Z then
    (if (Z.of_nat (length l) + i <? 0)%Z then Err IndexError
     else py_get l (Z.to_nat (Z.of_nat (length l) + i)))
  else py_get l (Z.to_nat i).

(** Python slicing [l[s:e]] with non-negative bounds: never fails. *)
Definition py_slice {A} (l : list A) (s e : nat) : list A :=
  firstn (e - s) (skipn s l).

(** Item assignment [l[i] = v]: [IndexError] out of range. *)
Fixpoint py_set {A} (l : list A) (i : nat) (v : A) : result (list A) :=
  match l, i with
  | [], _ => Err IndexError
  | _ :: l', 0 => Ok (v :: l')
  | x :: l', S i' => r <- py_set l' i' v ;; Ok (x :: r)
  end.

(** [[f(x) for x in l]] where [f] may raise. *)
Fixpoint result_map {A B} (f : A -> result B) (l : list A) : result (list B) :=
  match l with
  | [] => Ok []
  | x :: l' => y <- f x ;; ys <- result_map f l' ;; Ok (y :: ys)
  end.

(* ------------------------------------------------------------------ *)
(** ** [datastructures/csr.py]

    [CSR] reads the code with unbounded integers and Python's checked
    indexing; [CSRMachine] below follows the fixed-width integers and the
    unchecked indexing of the numba-compiled code. *)

Module CSR.

(** An entry of [index_array]: [(row, column)]. *)
Definition entry := (nat * nat)%type.

(** The tuples pushed on the heap by [__csr_sort]:
    [(i * (number_of_columns + 1) + j, i, j, index)]. *)
Definition item := (nat * nat * nat * nat)%type.

(** Python's lexicographic tuple comparison [a < b]. *)
Definition item_ltb (a b : item) : bool :=
  let '(k1, i1, j1, x1) := a in
  let '(k2, i2, j2, x2) := b in
  (k1 <? k2) || ((k1 =? k2) && ((i1 <? i2) || ((i1 =? i2) &&
    ((j1 <? j2) || ((j1 =? j2) && (x1 <? x2)))))).

(** [heapq] keeps a binary heap whose successive [heappop]s return the items
    in non-decreasing tuple order; the heap is represented here by that pop
    order. [heappush] inserts after every item that is not larger. *)
Fixpoint heappush (h : list item) (x : item) : list item :=
  match h with
  | [] => [x]
  | y :: h' => if item_ltb x y then x :: h else y :: heappush h' x
  end.

Definition heappop (h : list item) : option (item * list item) :=
  match h with [] => None | x :: h' => Some (x, h') end.

(** The [while len(my_heap) > 0] loop of [__csr_sort]: every popped item
    [(key, i, j, index)] gives the next sorted entry [(i, j)] and the value
    [values[index]]. *)
Fixpoint drain {A} (values : list A) (h : list item)
  : result (list entry * list A) :=
  match h with                                     (* heappop(my_heap) *)
  | [] => Ok ([], [])
  | (_, i, j, index) :: h' =>
      v <- py_get values index ;;
      '(es, vs) <- drain values h' ;;
      Ok ((i, j) :: es, v :: vs)
  end.

Fixpoint push_all (h : list item) (ia : list entry) (index : nat)
    (number_of_columns : nat) : list item :=
  match ia with
  | [] => h
  | (i, j) :: ia' =>
      push_all (heappush h (i * (number_of_columns + 1) + j, i, j, index))
        ia' (S index) number_of_columns
  end.

Definition csr_sort {A} (index_array : list entry) (values : list A)
    (number_of_columns : nat) : result (list entry * list A) :=
  let my_heap := push_all [(0, 0, 0, 0)] index_array 0 number_of_columns in
  match heappop my_heap with          (* removing init val *)
  | None => Ok ([], [])
  | Some (_, h) => drain values h
  end.

(** The inner [for edge in index_array[processed_edges:]] loop of
    [__csr_format]. The state is
    [(processed_edges, row_value_counter, col, row)]; [eir] is
    [edges_in_row]. *)
Fixpoint format_inner (ia : list entry) (i pe : nat) (rest : list entry)
    (eir cnt : nat) (col row : list nat) : nat * nat * list nat * list nat :=
  match rest with
  | [] => (pe, cnt, col, row)
  | edge :: rest' =>
      if i =? fst edge then
        format_inner ia i pe rest' (S eir) (S cnt)
          (col ++ [snd (nth (pe + eir) ia (0, 0))]) row
      else (pe + eir, cnt, col, row ++ [cnt])          (* next row; break *)
  end.

(** The outer [for i in np.arange(number_of_rows + 1)] loop. *)
Fixpoint format_outer (ia : list entry) (iters i : nat) (empty_csr : bool)
    (st : nat * nat * list nat * list nat) : nat * nat * list nat * list nat :=
  match iters with
  | 0 => st
  | S iters' =>
      let '(pe, cnt, col, row) := st in
      let st' :=
        if empty_csr then (pe, cnt, col, row ++ [cnt])
        else format_inner ia i pe (skipn pe ia) 0 cnt col row in
      format_outer ia iters' (S i) empty_csr st'
  end.

Definition csr_format (index_array : list entry) (number_of_rows : nat)
  : list nat * list nat :=
  let empty_csr := length index_array =? 1 in
  let '(_, _, col, row) :=
    format_outer index_array (S number_of_rows) 0 empty_csr (0, 0, [], [0]) in
  (col, row).

Definition max_list (l : list nat) : nat := fold_right Nat.max 0 l.

(** [csr_prep(index_array, values, shape, unsorted)]; [np.max] of an empty
    column raises [ValueError]. Returns [(values, col, row)]. *)
Definition csr_prep {A} (index_array : list entry) (values : list A)
    (shape : nat * nat) (unsorted : bool)
  : result (list A * list nat * list nat) :=
  match index_array with
  | [] => Err ValueError
  | _ =>
      if ((Z.of_nat (max_list (map snd index_array)) >? Z.of_nat (snd shape) - 1)
          || (Z.of_nat (max_list (map fst index_array)) >? Z.of_nat (fst shape) - 1))%Z
      then Err ValueError
      else
        '(ia, vs) <- (if unsorted then csr_sort index_array values (snd shape)
                      else Ok (index_array, values)) ;;
        let '(col, row) := csr_format ia (fst shape) in
        Ok (vs, col, row)
  end.

(** The fields of a [CSRMatrix] used by the accessors. *)
Record csr_matrix (A : Type) := mk_csr {
  csr_values : list A;
  csr_col_index : list nat;
  csr_row_index : list nat }.
Arguments mk_csr {A} _ _ _.
Arguments csr_values {A} _.
Arguments csr_col_index {A} _.
Arguments csr_row_index {A} _.

Definition get_nnz {A} (m : csr_matrix A) (r : nat) : result (list nat) :=
  row_start <- py_get (csr_row_index m) r ;;
  row_end <- py_get (csr_row_index m) (S r) ;;
  Ok (py_slice (csr_col_index m) row_start row_end).

Definition get_row {A} (m : csr_matrix A) (r : nat) : result (list A) :=
  row_start <- py_get (csr_row_index m) r ;;
  row_end <- py_get (csr_row_index m) (S r) ;;
  Ok (py_slice (csr_values m) row_start row_end).

(** [CSRMatrix( *csr_prep(...))]. *)
Definition construct {A} (index_array : list entry) (values : list A)
    (shape : nat * nat) : result (csr_matrix A) :=
  '(vs, col, row) <- csr_prep index_array values shape true ;;
  Ok (mk_csr vs col row).

(** The loop of [CSRMatrix.__set_nnz_rows] over the given rows: a row is kept
    when [get_nnz(row)] is non-empty. *)
Fixpoint nnz_rows_loop {A} (m : csr_matrix A) (rows : list nat) : result (list nat) :=
  match rows with
  | [] => Ok []
  | r :: rows' =>
      cols <- get_nnz m r ;;
      rest <- nnz_rows_loop m rows' ;;
      Ok (if 0 <? length cols then r :: rest else rest)
  end.

(** [for row in np.arange(len(self._row_index[:-1]))]. *)
Definition __set_nnz_rows {A} (m : csr_matrix A) : result (list nat) :=
  nnz_rows_loop m (seq 0 (length (csr_row_index m) - 1)).

(** A [CSRMatrix] object with the two fields its [__init__] computes;
    [_number_of_rows] is [len(row_index) - 2], stored in a [uint32] field. *)
Record csr_object (A : Type) := mk_csr_object {
  obj_matrix : csr_matrix A;
  _nnz_rows : list nat;
  _number_of_rows : Z }.
Arguments mk_csr_object {A} _ _ _.
Arguments obj_matrix {A} _.
Arguments _nnz_rows {A} _.
Arguments _number_of_rows {A} _.

(** [CSRMatrix.__init__(values, col_index, row_index)]. *)
Definition CSRMatrix_init {A} (values : list A) (col_index row_index : list nat)
  : result (csr_object A) :=
  let m := mk_csr values col_index row_index in
  nnz <- __set_nnz_rows m ;;
  Ok (mk_csr_object m nnz ((Z.of_nat (length row_index) - 2) mod 2 ^ 32)%Z).

Definition get_nnz_rows {A} (o : csr_object A) : list nat := _nnz_rows o.

(** [F32CSRMatrix( *csr_prep(index_array, values, shape))], as [_build_demand]
    builds its matrices. *)
Definition csr_new {A} (index_array : list entry) (values : list A)
    (shape : nat * nat) : result (csr_object A) :=
  '(vs, col, row) <- csr_prep index_array values shape true ;;
  CSRMatrix_init vs col row.

End CSR.

(** ** [datastructures/csr.py] at machine level

    [__csr_sort] and [__csr_format] are [njit] functions and [CSRMatrix] is
    a numba [jitclass]; their integers have fixed width. The heap items of
    [__csr_sort] are [uint64] ([(uint64(i * (number_of_columns + 1) + j),
    uint64(i), uint64(j), uint64(index))], the key computed in 64-bit integer
    arithmetic), the sorted entries are written back as [uint32(i), uint32(j)],
    the counters of [__csr_format] are [np.uint32], its results are cast by
    [np.asarray(..., dtype=np.uint32)], and the [CSRMatrix] fields are
    [uint32] arrays. Array indexing in numba code has no bounds check
    (see the note at the end of [csr.py]): an access out of range has no
    defined result, and neither has an entry of [np.empty_like] that is
    never written. [CSRMachine] follows the code at that level; an
    undefined result is [Unspecified]. *)

Module CSRMachine.
Import CSR.

(** [np.uint32(n)] and [np.uint64(n)] of a non-negative integer. *)
Definition u32 (n : nat) : nat := Z.to_nat (Z.of_nat n mod 2 ^ 32).
Definition u64 (n : nat) : nat := Z.to_nat (Z.of_nat n mod 2 ^ 64).

Inductive outcome (A : Type) :=
| Done : A -> outcome A
| Raised : py_error -> outcome A
| Unspecified : outcome A.
Arguments Done {A} _.
Arguments Raised {A} _.
Arguments Unspecified {A}.

Definition obind {A B} (m : outcome A) (f : A -> outcome B) : outcome B :=
  match m with Done a => f a | Raised e => Raised e | Unspecified => Unspecified end.

Notation "x <~ m ;; k" := (obind m (fun x => k))
  (at level 61, m at next level, right associativity).
Notation "' p <~ m ;; k" := (obind m (fun x => match x with p => k end))
  (at level 61, p pattern, m at next level, right associativity).

(** Array indexing [a[i]] in numba code: no bounds check. *)
Definition jget {A} (l : list A) (i : nat) : outcome A :=
  match nth_error l i with Some a => Done a | None => Unspecified end.

(** The [for index, edge in enumerate(index_array)] loop of [__csr_sort]. *)
Fixpoint push_all (h : list item) (ia : list entry) (index : nat)
    (number_of_columns : nat) : list item :=
  match ia with
  | [] => h
  | (i, j) :: ia' =>
      push_all (heappush h (u64 (i * (number_of_columns + 1) + j), u64 i, u64 j,
                            u64 index))
        ia' (S index) number_of_columns
  end.

(** The [while len(my_heap) > 0] loop of [__csr_sort]:
    [sorted_index_array[c] = uint32(i), uint32(j)] and
    [sorted_values[c] = values[uint32(index)]]. *)
Fixpoint drain {A} (values : list A) (h : list item)
  : outcome (list entry * list A) :=
  match h with                                     (* heappop(my_heap) *)
  | [] => Done ([], [])
  | (_, i, j, index) :: h' =>
      v <~ jget values (u32 index) ;;
      '(es, vs) <~ drain values h' ;;
      Done ((u32 i, u32 j) :: es, v :: vs)
  end.

(** [__csr_sort]. [sorted_values = np.empty_like(values)] is written at
    positions [0 .. len(index_array) - 1]: when [values] is longer than
    [index_array] its tail is never written, when it is shorter the writes
    run past its end. *)
Definition csr_sort {A} (index_array : list entry) (values : list A)
    (number_of_columns : nat) : outcome (list entry * list A) :=
  let my_heap := push_all [(0, 0, 0, 0)] index_array 0 number_of_columns in
  match heappop my_heap with          (* removing init val *)
  | None => Done ([], [])
  | Some (_, h) =>
      '(es, vs) <~ drain values h ;;
      if length values =? length index_array then Done (es, vs) else Unspecified
  end.

(** The inner loop of [__csr_format] with its [np.uint32] counters; the
    state is [(processed_edges, row_value_counter, col, row)] and [eir] is
    [edges_in_row]. The index [np.uint32(processed_edges + edges_in_row)]
    points into [index_array] for arrays of fewer than [2^32] entries. *)
Fixpoint format_inner (ia : list entry) (i pe : nat) (rest : list entry)
    (eir cnt : nat) (col row : list nat) : nat * nat * list nat * list nat :=
  match rest with
  | [] => (pe, cnt, col, row)
  | edge :: rest' =>
      if i =? fst edge then
        format_inner ia i pe rest' (u32 (S eir)) (u32 (S cnt))
          (col ++ [snd (nth (u32 (pe + eir)) ia (0, 0))]) row
      else (u32 (pe + eir), cnt, col, row ++ [cnt])    (* next row; break *)
  end.

(** The outer [for i in np.arange(number_of_rows + 1, dtype=np.uint32)]
    loop. *)
Fixpoint format_outer (ia : list entry) (iters i : nat) (empty_csr : bool)
    (st : nat * nat * list nat * list nat) : nat * nat * list nat * list nat :=
  match iters with
  | 0 => st
  | S iters' =>
      let '(pe, cnt, col, row) := st in
      let st' :=
        if empty_csr then (pe, cnt, col, row ++ [cnt])
        else format_inner ia (u32 i) pe (skipn pe ia) 0 cnt col row in
      format_outer ia iters' (S i) empty_csr st'
  end.

(** [__csr_format]: [np.asarray(col, dtype=np.uint32)],
    [np.asarray(row, dtype=np.uint32)]. *)
Definition csr_format (index_array : list entry) (number_of_rows : nat)
  : list nat * list nat :=
  let empty_csr := length index_array =? 1 in
  let '(_, _, col, row) :=
    format_outer index_array (S number_of_rows) 0 empty_csr (0, 0, [], [0]) in
  (map u32 col, map u32 row).

(** [csr_prep] (plain Python; it calls the two jitted functions). *)
Definition csr_prep {A} (index_array : list entry) (values : list A)
    (shape : nat * nat) (unsorted : bool)
  : outcome (list A * list nat * list nat) :=
  match index_array with
  | [] => Raised ValueError
  | _ =>
      if ((Z.of_nat (max_list (map snd index_array)) >? Z.of_nat (snd shape) - 1)
          || (Z.of_nat (max_list (map fst index_array)) >? Z.of_nat (fst shape) - 1))%Z
      then Raised ValueError
      else
        '(ia, vs) <~ (if unsorted then csr_sort index_array values (snd shape)
                      else Done (index_array, values)) ;;
        let '(col, row) := csr_format ia (fst shape) in
        Done (vs, col, row)
  end.

Definition get_nnz {A} (m : csr_matrix A) (r : nat) : outcome (list nat) :=
  row_start <~ jget (csr_row_index m) r ;;
  row_end <~ jget (csr_row_index m) (S r) ;;
  Done (py_slice (csr_col_index m) row_start row_end).

Definition get_row {A} (m : csr_matrix A) (r : nat) : outcome (list A) :=
  row_start <~ jget (csr_row_index m) r ;;
  row_end <~ jget (csr_row_index m) (S r) ;;
  Done (py_slice (csr_values m) row_start row_end).

(** [CSRMatrix( *csr_prep(...))]. *)
Definition construct {A} (index_array : list entry) (values : list A)
    (shape : nat * nat) : outcome (csr_matrix A) :=
  '(vs, col, row) <~ csr_prep index_array values shape true ;;
  Done (mk_csr vs col row).

Fixpoint nnz_rows_loop {A} (m : csr_matrix A) (rows : list nat) : outcome (list nat) :=
  match rows with
  | [] => Done []
  | r :: rows' =>
      cols <~ get_nnz m r ;;
      rest <~ nnz_rows_loop m rows' ;;
      Done (if 0 <? length cols then r :: rest else rest)
  end.

(** [for row in np.arange(len(self._row_index[:-1]), dtype=np.uint32)]. *)
Definition __set_nnz_rows {A} (m : csr_matrix A) : outcome (list nat) :=
  nnz_rows_loop m (map u32 (seq 0 (length (csr_row_index m) - 1))).

Definition CSRMatrix_init {A} (values : list A) (col_index row_index : list nat)
  : outcome (csr_object A) :=
  let m := mk_csr values col_index row_index in
  nnz <~ __set_nnz_rows m ;;
  Done (mk_csr_object m nnz ((Z.of_nat (length row_index) - 2) mod 2 ^ 32)%Z).

Definition csr_new {A} (index_array : list entry) (values : list A)
    (shape : nat * nat) : outcome (csr_object A) :=
  '(vs, col, row) <~ csr_prep index_array values shape true ;;
  CSRMatrix_init vs col row.

End CSRMachine.

(* ------------------------------------------------------------------ *)
(** ** Numbers: float64 values over exact rationals *)

Module Num.

(** A float64 value: a finite number, the two infinities or NaN. Rounding
    is not modelled. *)
Inductive f64 := Fin (q : Qc) | PInf | NInf | NaN.

Definition Qcltb (a b : Qc) : bool := if Qclt_le_dec a b then true else false.
Definition Qceqb (a b : Qc) : bool := if Qc_eq_dec a b then true else false.

(** [np.divide] on float64: IEEE division by zero gives an infinity, or NaN
    for [0 / 0]. *)
Definition f64_div (x y : Qc) : f64 :=
  if Qceqb y (Q2Qc 0) then
    (if Qceqb x (Q2Qc 0) then NaN
     else if Qcltb (Q2Qc 0) x then PInf else NInf)
  else Fin (Qcdiv x y).

(** [a < b] with [b] finite: false on NaN and [+inf], true on [-inf]. *)
Definition f64_ltb (a : f64) (b : Qc) : bool :=
  match a with
  | Fin q => Qcltb q b
  | NInf => true
  | PInf | NaN => false
  end.

Definition qsum (l : list Qc) : Qc := fold_right Qcplus (Q2Qc 0) l.

(** A dense 2-d array, row-major. *)
Definition mat := list (list Qc).

(** Element-wise [a - b] of two arrays of the same shape; other shapes raise
    (the broadcasting of numpy is not modelled: the callers pass arrays of
    one shape). *)
Fixpoint row_sub (a b : list Qc) : result (list Qc) :=
  match a, b with
  | [], [] => Ok []
  | x :: a', y :: b' => r <- row_sub a' b' ;; Ok (Qcminus x y :: r)
  | _, _ => Err ValueError
  end.

Fixpoint np_sub (a b : mat) : result mat :=
  match a, b with
  | [], [] => Ok []
  | r :: a', s :: b' => d <- row_sub r s ;; m <- np_sub a' b' ;; Ok (d :: m)
  | _, _ => Err ValueError
  end.

Definition np_abs (a : mat) : mat := map (map Qcabs) a.

(** [np.sum] over every cell. *)
Definition np_sum (a : mat) : Qc := qsum (concat a).

Definition np_zeros (rows cols : nat) : mat := repeat (repeat (Q2Qc 0) cols) rows.

Definition mat_scale (c : Qc) (a : mat) : mat := map (map (Qcmult c)) a.

End Num.

(* ------------------------------------------------------------------ *)
(** ** [dtapy/core/assignment_methods/i_ltm_aon.py] *)

Module Driver.
Import Num.

Inductive gap_method := method_all | method_other.

(** [is_converged(old_flows, new_flows, target_gap, method)]: returns
    [(result_gap < target_gap, result_gap)]. *)
Definition is_converged (old_flows new_flows : mat) (target_gap : Qc)
    (method : gap_method) : result (bool * f64) :=
  match method with
  | method_all =>
      d <- np_sub new_flows old_flows ;;
      let result_gap := f64_div (np_sum (np_abs d)) (np_sum old_flows) in
      Ok (f64_ltb result_gap target_gap, result_gap)
  | method_other => Err NotImplementedError
  end.

(** The gap as the spec writes it, over cell indices of a [rows x cols]
    array: [sum |new - old| / sum old], the division being that of float64. *)
Definition cell (m : mat) (i j : nat) : Qc := nth j (nth i m []) (Q2Qc 0).
Definition sum_to (n : nat) (f : nat -> Qc) : Qc := qsum (map f (seq 0 n)).
Definition has_shape (m : mat) (rows cols : nat) : Prop :=
  length m = rows /\ Forall (fun r => length r = cols) m.
Definition gap_num (old_flows new_flows : mat) (rows cols : nat) : Qc :=
  sum_to rows (fun i => sum_to cols (fun j =>
    Qcabs (Qcminus (cell new_flows i j) (cell old_flows i j)))).
Definition gap_den (old_flows : mat) (rows cols : nat) : Qc :=
  sum_to rows (fun i => sum_to cols (fun j => cell old_flows i j)).
Definition gap_spec (old_flows new_flows : mat) (rows cols : nat) : f64 :=
  f64_div (gap_num old_flows new_flows rows cols) (gap_den old_flows rows cols).

(** A Python call by keyword of a function whose parameters, none with a
    default, are [params]: [TypeError] unless the keywords [given] name
    exactly those parameters. *)
Definition py_call_kw {A} (params given : list String.string)
    (body : unit -> result A) : result A :=
  if forallb (fun p => existsb (String.eqb p) given) params &&
     forallb (fun g => existsb (String.eqb g) params) given
  then body tt else Err TypeError.

Module Keywords.
Import String.
Local Open Scope string_scope.
(** The parameters of [cvn_to_travel_times] in [utilities.py]. *)
Definition cvn_to_travel_times_params : list string :=
  ["cvn_up"; "cvn_down"; "con_down"; "time"; "network"].
(** The keywords of the driver's call [cvn_to_travel_times(cvn_up=...,
    cvn_down=..., time=..., network=...)]. *)
Definition cvn_to_travel_times_call : list string :=
  ["cvn_up"; "cvn_down"; "time"; "network"].
End Keywords.

Section I_ltm_aon.
(** The network, demand, time, network-loading state and route-choice state
    are classes of other modules; the driver only passes them along. *)
Variables (Network DynamicDemand SimulationTime ILTMState AONState : Type).
Variable tot_time_steps : SimulationTime -> nat.
Variable tot_links : Network -> nat.
Variable setup_aon : Network -> SimulationTime -> DynamicDemand -> result AONState.
Variable i_ltm_setup :
  Network -> SimulationTime -> DynamicDemand -> result (ILTMState * Network).
(** The call [i_ltm(network, dynamic_demand, iltm_state, network_loading_time,
    aon_state.turning_fractions, aon_state.connector_choice, k)]; the
    source's [i_ltm] makes it [i_ltm_call] below, which raises. *)
Variable i_ltm :
  Network -> DynamicDemand -> ILTMState -> SimulationTime -> AONState -> nat ->
  result ILTMState.
(** What [cvn_to_travel_times] would return for the arguments the driver
    passes. The call itself leaves out the required [con_down] parameter, so
    [loop_body] raises [TypeError] there and never uses this value. *)
Variable cvn_to_travel_times : ILTMState -> SimulationTime -> Network -> mat.
Variable cvn_to_flows : ILTMState -> mat.
Variable update_arrival_maps :
  Network -> SimulationTime -> DynamicDemand -> AONState -> mat -> result AONState.
Variable update_route_choice :
  AONState -> mat -> Network -> DynamicDemand -> SimulationTime -> nat ->
  result AONState.
Variable rc_debug_plot :
  ILTMState -> Network -> SimulationTime -> AONState -> mat -> result unit.
(** [parameters.assignment.gap], the default [target_gap] of [is_converged]. *)
Variable target_gap : Qc.

(** The local variables of the [while] loop. *)
Record loop_state := {
  ls_k : nat;
  ls_converged : bool;
  ls_old_flows : mat;
  ls_convergence : list f64;
  ls_costs : mat;
  ls_iltm : ILTMState;
  ls_aon : AONState;
  ls_network : Network }.

(** One pass of the loop body. *)
Definition loop_body (dynamic_demand : DynamicDemand)
    (route_choice_time network_loading_time : SimulationTime) (s : loop_state)
  : result loop_state :=
  let network := ls_network s in
  iltm_state <- i_ltm network dynamic_demand (ls_iltm s) network_loading_time
                  (ls_aon s) (ls_k s) ;;
  costs <- py_call_kw Keywords.cvn_to_travel_times_params
             Keywords.cvn_to_travel_times_call
             (fun _ => Ok (cvn_to_travel_times iltm_state network_loading_time
                             network)) ;;
  let new_flows := cvn_to_flows iltm_state in
  '(converged, convergence) <-
    (if 1 <? ls_k s then
       '(converged, current_gap) <-
          is_converged (ls_old_flows s) new_flows target_gap method_all ;;
       Ok (converged, ls_convergence s ++ [current_gap])
     else Ok (ls_converged s, ls_convergence s)) ;;
  let k := S (ls_k s) in
  aon1 <- update_arrival_maps network network_loading_time dynamic_demand
            (ls_aon s) costs ;;
  aon2 <- update_route_choice aon1 costs network dynamic_demand
            route_choice_time k ;;
  _ <- (if k =? 10 then
          rc_debug_plot iltm_state network network_loading_time aon2
            (mat_scale (Q2Qc 3600) costs)
        else Ok tt) ;;
  Ok {| ls_k := k; ls_converged := converged; ls_old_flows := new_flows;
        ls_convergence := convergence; ls_costs := costs;
        ls_iltm := iltm_state; ls_aon := aon2; ls_network := network |}.

(** [while k < 1001 and not converged]; [k] grows by one per pass from 1,
    so 1000 passes exhaust the loop ([loop_bound] below). *)
Fixpoint assignment_loop (fuel : nat) (dynamic_demand : DynamicDemand)
    (route_choice_time network_loading_time : SimulationTime) (s : loop_state)
  : result loop_state :=
  match fuel with
  | 0 => Ok s
  | S fuel' =>
      if (ls_k s <? 1001) && negb (ls_converged s) then
        s' <- loop_body dynamic_demand route_choice_time network_loading_time s ;;
        assignment_loop fuel' dynamic_demand route_choice_time
          network_loading_time s'
      else Ok s
  end.

(** Everything up to the end of the loop. [costs] is first assigned in the
    loop body, which always runs at least once. *)
Definition run_assignment (network : Network) (dynamic_demand : DynamicDemand)
    (route_choice_time network_loading_time : SimulationTime)
  : result loop_state :=
  let convergence := [PInf] in
  aon_state <- setup_aon network route_choice_time dynamic_demand ;;
  '(iltm_state, network) <- i_ltm_setup network network_loading_time
                              dynamic_demand ;;
  let old_flows := np_zeros (tot_time_steps network_loading_time)
                            (tot_links network) in
  assignment_loop 1000 dynamic_demand route_choice_time network_loading_time
    {| ls_k := 1; ls_converged := false; ls_old_flows := old_flows;
       ls_convergence := convergence; ls_costs := [];
       ls_iltm := iltm_state; ls_aon := aon_state; ls_network := network |}.

(** [i_ltm_aon(network, dynamic_demand, route_choice_time,
    network_loading_time)]: after the loop it plots, computes [flows] and
    copies the gap list into [convergence_arr], and returns
    [flows, costs]. *)
Definition i_ltm_aon (network : Network) (dynamic_demand : DynamicDemand)
    (route_choice_time network_loading_time : SimulationTime)
  : result (mat * mat) :=
  s <- run_assignment network dynamic_demand route_choice_time
         network_loading_time ;;
  _ <- rc_debug_plot (ls_iltm s) (ls_network s) network_loading_time (ls_aon s)
         (ls_costs s) ;;
  let flows := cvn_to_flows (ls_iltm s) in
  let convergence_arr := ls_convergence s in
  Ok (flows, ls_costs s).

End I_ltm_aon.

(** A Python call of a function declaring [params] positional parameters
    with [args] positional arguments: [TypeError] unless they agree. *)
Definition py_call {A} (params args : nat) (body : unit -> result A) : result A :=
  if Nat.eqb params args then body tt else Err TypeError.

(** The [i_ltm] of [i_ltm.py] declares six parameters ([network],
    [dynamic_demand], [results], [time], [turning_fractions],
    [connector_choice]); the driver calls it with seven, [k] last. Given
    the body of [i_ltm], this is the [i_ltm] argument of the driver as the
    source has it. *)
Definition i_ltm_call {Network DynamicDemand SimulationTime ILTMState AONState}
    (i_ltm_body : Network -> DynamicDemand -> ILTMState -> SimulationTime ->
                  AONState -> result ILTMState)
    (network : Network) (dynamic_demand : DynamicDemand) (results : ILTMState)
    (time : SimulationTime) (aon_state : AONState) (k : nat) : result ILTMState :=
  py_call 6 7 (fun _ => i_ltm_body network dynamic_demand results time aon_state).

End Driver.

(* ------------------------------------------------------------------ *)
(** ** [dtapy/demand.py]: [_build_demand] *)

Module Demand.
Import Num.

(** The fields of the [SimulationTime] object that [_build_demand] reads. *)
Record SimulationTime := {
  st_start : Qc;
  st_end : Qc;
  st_step_size : Qc;
  st_tot_time_steps : nat }.

(** [np.arange(start, stop, step)] for a non-zero [step]:
    [ceil((stop - start) / step)] values [start + i * step]. A zero step,
    where numpy raises, is outside this definition (it gives [[]]); the
    theorems below use it with positive steps only. *)
Definition np_arange (start stop step : Qc) : list Qc :=
  let n := Z.to_nat (Qceiling (Qcdiv (Qcminus stop start) step)) in
  map (fun i => Qcplus start (Qcmult (Q2Qc (inject_Z (Z.of_nat i))) step))
      (seq 0 n).

(** [np.argmin]: the first index of a least element; an empty array
    raises. *)
Fixpoint argmin_from (l : list Qc) (i best_i : nat) (best : Qc) : nat :=
  match l with
  | [] => best_i
  | x :: l' =>
      if Qcltb x best then argmin_from l' (S i) i x
      else argmin_from l' (S i) best_i best
  end.

Definition np_argmin (l : list Qc) : result nat :=
  match l with
  | [] => Err ValueError
  | x :: l' => Ok (argmin_from l' 1 0 x)
  end.

(** [np.all(insertion_time[1:] - insertion_time[:-1] > step_size)]. *)
Definition insertion_times_ok (insertion_time : list Qc) (step_size : Qc) : bool :=
  forallb (fun d => Qcltb step_size d)
    (map (fun '(a, b) => Qcminus a b)
       (combine (tl insertion_time) (removelast insertion_time))).

(** [loading_time_steps = [(np.abs(insertion_time - time)).argmin() for
    insertion_time in time]]: the comprehension variable [insertion_time]
    shadows the argument and runs over [time] itself. *)
Definition loading_time_steps (time : list Qc) : result (list nat) :=
  result_map (fun insertion_time =>
                np_argmin (map (fun x => Qcabs (Qcminus insertion_time x)) time))
             time.

Section Build_demand.
(** A [scipy.sparse.lil_matrix] of demand, and what the loop body builds
    from it besides the time tag: the two CSR matrices and node id arrays. *)
Variables (LilMatrix Payload : Type).
(** Lines computing [rows], [cols], [all_origins], [all_destinations] and,
    per matrix, the CSR data of the loop body; one payload per matrix, in
    order. *)
Variable snapshot_payloads : list LilMatrix -> result (list Payload).

Record StaticDemand := {
  sd_payload : Payload;
  sd_loading_time_step : nat }.

Record DynamicDemand := {
  dd_static_demands : list StaticDemand;
  dd_tot_time_steps : nat }.

Definition _build_demand (demand_data : list LilMatrix)
    (insertion_time : list Qc) (simulation_time : SimulationTime)
  : result DynamicDemand :=
  if negb (insertion_times_ok insertion_time (st_step_size simulation_time))
  then Err ValueError
  else
    let time := np_arange (st_start simulation_time) (st_end simulation_time)
                          (st_step_size simulation_time) in
    steps <- loading_time_steps time ;;
    payloads <- snapshot_payloads demand_data ;;
    Ok {| dd_static_demands :=
            map (fun '(internal_time, p) =>
                   {| sd_payload := p; sd_loading_time_step := internal_time |})
                (combine steps payloads);
          dd_tot_time_steps := st_tot_time_steps simulation_time |}.

End Build_demand.

(** The setting of [testing_dtapy/i_ltm_init.py]: two demand matrices
    inserted at hours 6 and 7, simulated from 6 to 12 with a step of a
    quarter hour. *)
Definition ex_time (step : Qc) : SimulationTime :=
  {| st_start := Q2Qc (inject_Z 6); st_end := Q2Qc (inject_Z 12);
     st_step_size := step; st_tot_time_steps := 24 |}.

Definition ex_insertion_times : list Qc := [Q2Qc (inject_Z 6); Q2Qc (inject_Z 7)].

Definition ex_build (step : Qc) : result (DynamicDemand nat) :=
  _build_demand nat nat (fun m => Ok m) [20; 30] ex_insertion_times (ex_time step).

End Demand.

(* ------------------------------------------------------------------ *)
(** ** [dtapy/core/network_loading/link_models/i_ltm.py] *)

Module ILTM.
Import Num.

Definition vec := list Qc.
(** A [time x link x destination] array such as [cvn_up]. *)
Definition arr3 := list (list (list Qc)).

Definition Q0 : Qc := Q2Qc 0.
Definition Q1 : Qc := Q2Qc 1.

(** [a[i, j, :]], the first index possibly negative. *)
Definition get3 (a : arr3) (i : Z) (j : nat) : result vec :=
  m <- py_getz a i ;; py_get m j.

(** [a + b] on two vectors of one length (no broadcasting). *)
Fixpoint row_add (a b : vec) : result vec :=
  match a, b with
  | [], [] => Ok []
  | x :: a', y :: b' => r <- row_add a' b' ;; Ok (Qcplus x y :: r)
  | _, _ => Err ValueError
  end.

(** [m[i, :] = r]: the row must have the length of the slice it replaces. *)
Definition assign_row (m : mat) (i : nat) (r : vec) : result mat :=
  old <- py_get m i ;;
  if Nat.eqb (length old) (length r) then py_set m i r else Err ValueError.

(** Python's [min(a, b)]: [b] only when [b < a]. *)
Definition py_min (a b : Qc) : Qc := if Qcltb b a then b else a.

(** One pass of the loop of [calc_sending_flows], for the link [link] at
    position [_id] of [local_in_links]. *)
Definition sending_flow_step (cvn_up : arr3) (t : nat) (cvn_down : arr3)
    (vind : list Z) (vrt cap : vec)
    (st : mat * vec * list bool) (_id link : nat)
  : result (mat * vec * list bool) :=
  let '(sending_flow, tot_sending_flow, sending_flow_init) := st in
  init <- py_get sending_flow_init link ;;
  '(sending_flow, sending_flow_init) <-
    (if init then
       sending_flow_init <- py_set sending_flow_init link false ;;
       vi <- py_get vind link ;;
       vr <- py_get vrt link ;;
       up <- get3 cvn_up (Z.max 0 (Z.of_nat t + vi)) link ;;
       down <- get3 cvn_down (Z.of_nat t - 1) link ;;
       row <- row_sub (map (fun x => Qcminus (Qcmult x Q1) vr) up) down ;;
       sending_flow <- assign_row sending_flow _id row ;;
       sending_flow <-
         (if (vi <? -1)%Z then
            up1 <- get3 cvn_up (Z.max 0 (Z.of_nat t + vi + 1)) link ;;
            row <- py_get sending_flow _id ;;
            row <- row_add row (map (Qcmult vr) up1) ;;
            assign_row sending_flow _id row
          else Ok sending_flow) ;;
       Ok (sending_flow, sending_flow_init)
     else Ok (sending_flow, sending_flow_init)) ;;
  vi <- py_get vind link ;;
  sending_flow <-
    (if (vi =? -1)%Z then
       vr <- py_get vrt link ;;
       up <- get3 cvn_up (Z.of_nat t) link ;;
       row <- py_get sending_flow _id ;;
       row <- row_add row (map (Qcmult vr) up) ;;
       assign_row sending_flow _id row
     else Ok sending_flow) ;;
  row <- py_get sending_flow _id ;;
  sending_flow <- assign_row sending_flow _id
                    (map (fun x => if Qcltb x Q0 then Q0 else x) row) ;;
  c <- py_get cap link ;;
  row <- py_get sending_flow _id ;;
  tot_sending_flow <- py_set tot_sending_flow _id (py_min c (qsum row)) ;;
  Ok (sending_flow, tot_sending_flow, sending_flow_init).

(** [for _id, link in enumerate(local_in_links)]. *)
Fixpoint sending_flow_loop (cvn_up : arr3) (t : nat) (cvn_down : arr3)
    (vind : list Z) (vrt cap : vec) (links : list nat) (_id : nat)
    (st : mat * vec * list bool) : result (mat * vec * list bool) :=
  match links with
  | [] => Ok st
  | link :: links' =>
      st <- sending_flow_step cvn_up t cvn_down vind vrt cap st _id link ;;
      sending_flow_loop cvn_up t cvn_down vind vrt cap links' (S _id) st
  end.

(** [calc_sending_flows(local_in_links, cvn_up, t, cvn_down, vind, vrt, cap,
    sending_flow, tot_sending_flow, sending_flow_init)]: the three arrays it
    writes in place are returned. *)
Definition calc_sending_flows (local_in_links : list nat) (cvn_up : arr3)
    (t : nat) (cvn_down : arr3) (vind : list Z) (vrt cap : vec)
    (sending_flow : mat) (tot_sending_flow : vec) (sending_flow_init : list bool)
  : result (mat * vec * list bool) :=
  sending_flow_loop cvn_up t cvn_down vind vrt cap local_in_links 0
    (sending_flow, tot_sending_flow, sending_flow_init).

(** [local_turning_fractions[:, j] = v]. *)
Fixpoint set_column (m : mat) (j : nat) (v : Qc) : result mat :=
  match m with
  | [] => Ok []
  | r :: m' => r' <- py_set r j v ;; m'' <- set_column m' j v ;; Ok (r' :: m'')
  end.

(** [calc_turning_flows(tot_out_links, local_turning_fractions, turn_in_links,
    turn_out_links, turns, local_sending_flow, local_turning_flows,
    turning_fractions, t)]: returns the two arrays it writes in place,
    [local_turning_fractions] and [local_turning_flows]. *)
Fixpoint turning_flow_loop (turn_in_links turn_out_links turns : list nat)
    (local_sending_flow : mat) (local_turning_flows : mat)
    (turning_fractions : arr3) (t : nat) : result mat :=
  match turn_in_links, turn_out_links, turns with
  | in_link :: ins, out_link :: outs, turn :: turns' =>
      row <- py_get local_turning_flows in_link ;;
      f <- py_get row out_link ;;
      sf <- py_get local_sending_flow in_link ;;
      tf <- get3 turning_fractions (Z.of_nat t - 1) turn ;;
      (* [local_sending_flow[in_link, :] * turning_fractions[t - 1, turn, :]] *)
      prod <- (if Nat.eqb (length sf) (length tf)
               then Ok (map (fun '(a, b) => Qcmult a b) (combine sf tf))
               else Err ValueError) ;;
      row' <- py_set row out_link (Qcplus f (qsum prod)) ;;
      local_turning_flows <- py_set local_turning_flows in_link row' ;;
      turning_flow_loop ins outs turns' local_sending_flow local_turning_flows
        turning_fractions t
  | _, _, _ => Ok local_turning_flows
  end.

Definition calc_turning_flows (tot_out_links : nat) (local_turning_fractions : mat)
    (turn_in_links turn_out_links turns : list nat) (local_sending_flow : mat)
    (local_turning_flows : mat) (turning_fractions : arr3) (t : nat)
  : result (mat * mat) :=
  if Nat.eqb tot_out_links 1 then
    local_turning_fractions <- set_column local_turning_fractions 1 Q1 ;;
    Ok (local_turning_fractions, local_turning_flows)
  else
    local_turning_flows <- turning_flow_loop turn_in_links turn_out_links turns
                             local_sending_flow local_turning_flows
                             turning_fractions t ;;
    Ok (local_turning_fractions, local_turning_flows).

(** One pass of the loop of [calc_receiving_flows], for the link [link] at
    position [_id] of [local_out_links]. *)
Definition receiving_flow_step (wrt : vec) (wind : list Z) (kjm length cap : vec)
    (t : nat) (cvn_down cvn_up : arr3) (step_size : Qc)
    (st : vec * list bool) (_id link : nat) : result (vec * list bool) :=
  let '(tot_receiving_flow, receiving_flow_init) := st in
  init <- py_get receiving_flow_init link ;;
  '(tot_receiving_flow, receiving_flow_init) <-
    (if init then
       receiving_flow_init <- py_set receiving_flow_init link false ;;
       wi <- py_get wind link ;;
       down <- get3 cvn_down (Z.max 1 (Z.of_nat t + wi)) link ;;
       wr <- py_get wrt link ;;
       up <- get3 cvn_up (Z.of_nat t - 1) link ;;
       kj <- py_get kjm link ;;
       len <- py_get length link ;;
       tot_receiving_flow <- py_set tot_receiving_flow _id
         (Qcmult (qsum down)
            (Qcplus (Qcminus (Qcminus Q1 wr) (qsum up)) (Qcmult kj len))) ;;
       tot_receiving_flow <-
         (if (wi <? -1)%Z then
            down1 <- get3 cvn_down (Z.max 0 (Z.of_nat t + wi + 1)) link ;;
            x <- py_get tot_receiving_flow _id ;;
            py_set tot_receiving_flow _id (Qcplus x (Qcmult wr (qsum down1)))
          else Ok tot_receiving_flow) ;;
       Ok (tot_receiving_flow, receiving_flow_init)
     else Ok (tot_receiving_flow, receiving_flow_init)) ;;
  x <- py_get tot_receiving_flow _id ;;
  tot_receiving_flow <-
    (if Qcltb x Q0 then py_set tot_receiving_flow _id Q0
     else Ok tot_receiving_flow) ;;
  wi <- py_get wind link ;;
  tot_receiving_flow <-
    (if (wi =? -1)%Z then
       wr <- py_get wrt link ;;
       down <- get3 cvn_down (Z.of_nat t) link ;;
       x <- py_get tot_receiving_flow _id ;;
       py_set tot_receiving_flow _id (Qcplus x (Qcmult wr (qsum down)))
     else Ok tot_receiving_flow) ;;
  c <- py_get cap link ;;
  x <- py_get tot_receiving_flow _id ;;
  tot_receiving_flow <- py_set tot_receiving_flow _id (py_min (Qcmult c step_size) x) ;;
  Ok (tot_receiving_flow, receiving_flow_init).

(** [for _id, link in enumerate(local_out_links)]. *)
Fixpoint receiving_flow_loop (wrt : vec) (wind : list Z) (kjm length cap : vec)
    (t : nat) (cvn_down cvn_up : arr3) (step_size : Qc) (links : list nat)
    (_id : nat) (st : vec * list bool) : result (vec * list bool) :=
  match links with
  | [] => Ok st
  | link :: links' =>
      st <- receiving_flow_step wrt wind kjm length cap t cvn_down cvn_up
              step_size st _id link ;;
      receiving_flow_loop wrt wind kjm length cap t cvn_down cvn_up step_size
        links' (S _id) st
  end.

(** [calc_receiving_flows(local_out_links, wrt, wind, kjm, length, cap, t,
    tot_receiving_flow, cvn_down, cvn_up, receiving_flow_init, step_size)]:
    the two arrays it writes in place are returned. *)
Definition calc_receiving_flows (local_out_links : list nat) (wrt : vec)
    (wind : list Z) (kjm length cap : vec) (t : nat) (tot_receiving_flow : vec)
    (cvn_down cvn_up : arr3) (receiving_flow_init : list bool) (step_size : Qc)
  : result (vec * list bool) :=
  receiving_flow_loop wrt wind kjm length cap t cvn_down cvn_up step_size
    local_out_links 0 (tot_receiving_flow, receiving_flow_init).

End ILTM.

(* ------------------------------------------------------------------ *)
(** ** [dtapy/core/route_choice/dynamic_dijkstra.py]: [dijkstra] *)

Module Dijkstra.
Import Num CSR.

(** A float that is finite or [+inf] (costs are non-negative in use). *)
Inductive ext := EFin (q : Qc) | EInf.

Definition ext_add (a b : ext) : ext :=
  match a, b with EFin x, EFin y => EFin (Qcplus x y) | _, _ => EInf end.
Definition ext_ltb (a b : ext) : bool :=
  match a, b with
  | EFin x, EFin y => Qcltb x y
  | EFin _, EInf => true
  | EInf, _ => false
  end.
Definition ext_eqb (a b : ext) : bool :=
  match a, b with
  | EFin x, EFin y => Qceqb x y
  | EInf, EInf => true
  | _, _ => false
  end.

(** The numpy arrays alive during the call; an array is named by its
    position, so that two names may denote one array. *)
Definition store := list (list ext).
Definition ref := nat.

Definition load (st : store) (r : ref) : result (list ext) := py_get st r.

Definition read (st : store) (r : ref) (i : nat) : result ext :=
  a <- load st r ;; py_get a i.

(** [a[i] = v] on the array [r]. *)
Definition write (st : store) (r : ref) (i : nat) (v : ext) : result store :=
  a <- load st r ;; a' <- py_set a i v ;; py_set st r a'.

(** A fresh array. *)
Definition alloc (st : store) (a : list ext) : store * ref :=
  (st ++ [a], length st).

(** [heapq] on tuples [(dist, node)], kept as the list of its pops in
    order. *)
Definition hitem := (ext * nat)%type.
Definition hitem_ltb (a b : hitem) : bool :=
  ext_ltb (fst a) (fst b) || (ext_eqb (fst a) (fst b) && Nat.ltb (snd a) (snd b)).
Fixpoint hpush (h : list hitem) (x : hitem) : list hitem :=
  match h with
  | [] => [x]
  | y :: h' => if hitem_ltb x y then x :: h else y :: hpush h' x
  end.

(** [for out_link, j in zip(out_links.get_nnz(i), out_links.get_row(i))]. *)
Fixpoint relax (costs distances seen : ref) (i : nat) (edges : list (nat * nat))
    (st : store) (h : list hitem) : result (store * list hitem) :=
  match edges with
  | [] => Ok (st, h)
  | (out_link, j) :: edges' =>
      di <- read st distances i ;;
      c <- read st costs out_link ;;
      let ij_dist := ext_add di c in
      sj <- read st seen j ;;
      if ext_eqb sj EInf || ext_ltb ij_dist sj then
        st <- write st seen j ij_dist ;;
        relax costs distances seen i edges' st (hpush h (ij_dist, j))
      else relax costs distances seen i edges' st h
  end.

(** [while my_heap:]; [None] when [fuel] passes do not empty the heap. *)
Fixpoint dijkstra_loop (fuel : nat) (costs : ref) (out_links : csr_matrix nat)
    (distances seen : ref) (st : store) (h : list hitem)
  : option (result store) :=
  match h with
  | [] => Some (Ok st)
  | (d, i) :: h' =>
      match fuel with
      | 0 => None
      | S fuel' =>
          match read st distances i with
          | Err e => Some (Err e)
          | Ok di =>
              if negb (ext_eqb di EInf) then
                dijkstra_loop fuel' costs out_links distances seen st h'
              else
                match write st distances i d with
                | Err e => Some (Err e)
                | Ok st =>
                    match get_nnz out_links i, get_row out_links i with
                    | Ok ls, Ok js =>
                        match relax costs distances seen i (combine ls js) st h' with
                        | Ok (st, h) =>
                            dijkstra_loop fuel' costs out_links distances seen st h
                        | Err e => Some (Err e)
                        end
                    | Err e, _ | _, Err e => Some (Err e)
                    end
                end
          end
      end
  end.

(** [dijkstra(costs, out_links, source, distances)]: the first line rebinds
    [distances] to a new array of [inf]; [seen] is a copy of it. Returns the
    final store and the array returned. *)
Definition dijkstra (fuel : nat) (st : store) (costs : ref)
    (out_links : csr_matrix nat) (source : nat) (distances : ref)
  : option (result (store * ref)) :=
  match load st distances with
  | Err e => Some (Err e)
  | Ok darr =>
      let '(st, distances') := alloc st (repeat EInf (length darr)) in
      match load st distances' with
      | Err e => Some (Err e)
      | Ok a =>
          let '(st, seen) := alloc st a in
          match write st seen source (EFin (Q2Qc 0)) with
          | Err e => Some (Err e)
          | Ok st =>
              match dijkstra_loop fuel costs out_links distances' seen st
                      [(EFin (Q2Qc 0), source)] with
              | Some (Ok st) => Some (Ok (st, distances'))
              | Some (Err e) => Some (Err e)
              | None => None
              end
          end
      end
  end.

(** A three-node line [0 -> 1 -> 2] with link costs 1 and 2; the caller's
    [distances] array (array 1 of the store) holds zeros. *)
Definition ex_out_links : csr_matrix nat := mk_csr [1; 2] [0; 1] [0; 1; 2; 2].
Definition ex_store : store :=
  [[EFin (Q2Qc 1); EFin (Q2Qc 2)];
   [EFin (Q2Qc 0); EFin (Q2Qc 0); EFin (Q2Qc 0)]].

End Dijkstra.

(* ------------------------------------------------------------------ *)
(** ** Properties of the CSR construction *)

Example csr_ex1 :
  CSR.csr_prep [(2, 1); (0, 3); (2, 0); (0, 1)] [10; 20; 30; 40] (4, 4) true
  = Ok ([40; 20; 30; 10], [1; 3; 0; 1], [0; 2; 2; 4; 4]).
Proof. reflexivity. Qed.

Example csr_ex2 :
  CSR.csr_prep [(0, 0)] [5] (1, 1) true = Ok ([5], [], [0; 0; 0]).
Proof. reflexivity. Qed.

Module CSRFacts.
Import CSR.

(** [a] comes no later than [b] in heap order. *)
Definition item_le (a b : item) : Prop := item_ltb b a = false.

Lemma item_ltb_asym a b : item_ltb a b = true -> item_ltb b a = false.
Proof.
  destruct a as [[[k1 i1] j1] x1], b as [[[k2 i2] j2] x2]; simpl.
  repeat rewrite Bool.orb_true_iff, Bool.andb_true_iff.
  rewrite !Nat.ltb_lt, !Nat.eqb_eq.
  intros H; apply Bool.not_true_iff_false; intros H'.
  repeat rewrite Bool.orb_true_iff, Bool.andb_true_iff in H'.
  rewrite !Nat.ltb_lt, !Nat.eqb_eq in H'. lia.
Qed.

Lemma item_ltb_init x : item_ltb x (0, 0, 0, 0) = false.
Proof.
  destruct x as [[[k i] j] y]; simpl.
  destruct k, i, j, y; reflexivity.
Qed.

Lemma heappush_perm h x : Permutation (x :: h) (heappush h x).
Proof.
  induction h as [|y h IH]; simpl; [reflexivity|].
  destruct (item_ltb x y); [reflexivity|].
  rewrite perm_swap. now constructor.
Qed.

Lemma heappush_hd z h x :
  HdRel item_le z h -> item_le z x -> HdRel item_le z (heappush h x).
Proof.
  intros Hh Hx. destruct h as [|y h]; simpl.
  - now constructor.
  - destruct (item_ltb x y); constructor; [assumption|].
    now inversion Hh.
Qed.

Lemma heappush_sorted h x : Sorted item_le h -> Sorted item_le (heappush h x).
Proof.
  induction h as [|y h IH]; simpl; intros Hs.
  - now repeat constructor.
  - inversion Hs as [|? ? Hs' Hhd]; subst.
    destruct (item_ltb x y) eqn:E.
    + constructor; [assumption|]. constructor.
      unfold item_le. now apply item_ltb_asym.
    + constructor; [now apply IH|].
      apply heappush_hd; assumption.
Qed.

(** The items [__csr_sort] pushes for the entries of [ia], numbered from
    [index]. *)
Fixpoint items (ia : list entry) (index nc : nat) : list item :=
  match ia with
  | [] => []
  | (i, j) :: ia' => (i * (nc + 1) + j, i, j, index) :: items ia' (S index) nc
  end.

Lemma push_all_perm ia : forall h index nc,
  Permutation (h ++ items ia index nc) (push_all h ia index nc).
Proof.
  induction ia as [|[i j] ia IH]; intros h index nc; simpl.
  - now rewrite app_nil_r.
  - rewrite <- IH. rewrite <- Permutation_middle, app_comm_cons.
    apply Permutation_app_tail. apply heappush_perm.
Qed.

Lemma push_all_sorted ia : forall h index nc,
  Sorted item_le h -> Sorted item_le (push_all h ia index nc).
Proof.
  induction ia as [|[i j] ia IH]; intros h index nc Hs; simpl; [assumption|].
  apply IH. now apply heappush_sorted.
Qed.

Lemma heappush_init h x :
  heappush ((0, 0, 0, 0) :: h) x = (0, 0, 0, 0) :: heappush h x.
Proof.
  change (heappush ((0, 0, 0, 0) :: h) x) with
    (if item_ltb x (0, 0, 0, 0) then x :: (0, 0, 0, 0) :: h
     else (0, 0, 0, 0) :: heappush h x).
  now rewrite item_ltb_init.
Qed.

Lemma push_all_init ia : forall h index nc,
  push_all ((0, 0, 0, 0) :: h) ia index nc
  = (0, 0, 0, 0) :: push_all h ia index nc.
Proof.
  induction ia as [|[i j] ia IH]; intros h index nc; cbn [push_all];
    [reflexivity|].
  rewrite heappush_init. apply IH.
Qed.

Lemma csr_sort_drain {A} (ia : list entry) (values : list A) nc :
  csr_sort ia values nc = drain values (push_all [] ia 0 nc).
Proof. unfold csr_sort. now rewrite push_all_init. Qed.

Definition proj (x : item) : entry := let '(_, i, j, _) := x in (i, j).

Lemma drain_entries {A} (values : list A) h es vs :
  drain values h = Ok (es, vs) -> es = map proj h /\ length vs = length h.
Proof.
  revert es vs; induction h as [|[[[k i] j] x] h IH]; simpl; intros es vs H.
  - now inversion H.
  - destruct (py_get values x) as [v|e]; simpl in H; [|discriminate].
    destruct (drain values h) as [[es' vs']|e]; simpl in H; [|discriminate].
    inversion H; subst. destruct (IH es' vs' eq_refl) as [-> Hl].
    simpl. now rewrite Hl.
Qed.

Definition fst_le (a b : entry) : Prop := fst a <= fst b.

(** A well-formed item carries the key [i * (nc + 1) + j] of its entry. *)
Definition good_item (nc : nat) (x : item) : Prop :=
  let '(k, i, j, _) := x in k = i * (nc + 1) + j /\ j <= nc.

Lemma item_le_fst nc a b :
  good_item nc a -> good_item nc b -> item_le a b -> fst_le (proj a) (proj b).
Proof.
  destruct a as [[[k1 i1] j1] x1], b as [[[k2 i2] j2] x2].
  unfold good_item, item_le, fst_le; simpl.
  intros [-> Hj1] [-> Hj2] H.
  apply Bool.orb_false_iff in H as [H _]. apply Nat.ltb_ge in H.
  destruct (Nat.le_gt_cases i1 i2) as [|Hlt]; [assumption|].
  exfalso. assert (i2 * (nc + 1) + nc < i1 * (nc + 1)) by nia. lia.
Qed.

Lemma sorted_map_proj nc h :
  Sorted item_le h -> Forall (good_item nc) h -> Sorted fst_le (map proj h).
Proof.
  induction 1 as [|x h Hs IH Hhd]; intros Hg; simpl; [constructor|].
  inversion Hg as [|? ? Hx Hh]; subst.
  constructor; [now apply IH|].
  destruct Hhd as [|y h' Hxy]; simpl; constructor.
  inversion Hh; subst. now apply (item_le_fst nc).
Qed.

Lemma items_good ia : forall index nc,
  (forall e, In e ia -> snd e <= nc) -> Forall (good_item nc) (items ia index nc).
Proof.
  induction ia as [|[i j] ia IH]; intros index nc H; simpl; constructor.
  - split; [reflexivity|]. apply (H (i, j)). now left.
  - apply IH. intros e He. apply H. now right.
Qed.

Lemma items_proj ia : forall index nc, map proj (items ia index nc) = ia.
Proof.
  induction ia as [|[i j] ia IH]; intros index nc; simpl; [reflexivity|].
  now rewrite IH.
Qed.

(** [__csr_sort] returns the entries sorted by row, as a permutation of its
    input. *)
Lemma csr_sort_sorted {A} (ia : list entry) (values : list A) nc es vs :
  (forall e, In e ia -> snd e <= nc) ->
  csr_sort ia values nc = Ok (es, vs) ->
  StronglySorted fst_le es /\ Permutation ia es /\ length vs = length ia.
Proof.
  intros Hj H. rewrite csr_sort_drain in H.
  apply drain_entries in H as [-> Hlen].
  pose proof (push_all_perm ia [] 0 nc) as Hp. simpl in Hp.
  pose proof (push_all_sorted ia [] 0 nc (Sorted_nil _)) as Hs.
  split; [|split].
  - apply Sorted_StronglySorted; [unfold fst_le; intros ???; lia|].
    apply (sorted_map_proj nc); [assumption|].
    eapply Permutation_Forall; [exact Hp|]. now apply items_good.
  - rewrite <- (items_proj ia 0 nc) at 1. now apply Permutation_map.
  - rewrite Hlen, <- (Permutation_length Hp).
    rewrite <- (length_map proj), items_proj. reflexivity.
Qed.

(** [cnt_lt i ia]: the number of entries of [ia] in rows before [i]. *)
Definition cnt_lt (i : nat) (ia : list entry) : nat :=
  length (filter (fun e => fst e <? i) ia).

Lemma filter_all {A} (P : A -> bool) l :
  (forall x, In x l -> P x = true) -> filter P l = l.
Proof.
  induction l as [|x l IH]; intros H; simpl; [reflexivity|].
  rewrite H by (now left). f_equal. apply IH. intros y Hy. apply H. now right.
Qed.

Lemma filter_none {A} (P : A -> bool) l :
  (forall x, In x l -> P x = false) -> filter P l = [].
Proof.
  induction l as [|x l IH]; intros H; simpl; [reflexivity|].
  rewrite H by (now left). apply IH. intros y Hy. apply H. now right.
Qed.

Lemma cnt_lt_S i ia :
  cnt_lt (S i) ia = cnt_lt i ia + length (filter (fun e => fst e =? i) ia).
Proof.
  unfold cnt_lt; induction ia as [|e ia IH]; simpl; [reflexivity|].
  destruct (Nat.ltb_spec (fst e) (S i)), (Nat.ltb_spec (fst e) i),
    (Nat.eqb_spec (fst e) i); simpl; try lia.
Qed.

Section Sorted_rows.
Variable ia : list entry.
Hypothesis Hsorted : StronglySorted fst_le ia.

Lemma skipn_cnt_lt i :
  skipn (cnt_lt i ia) ia = filter (fun e => i <=? fst e) ia.
Proof.
  induction Hsorted as [|e l Hs IH Hall]; [reflexivity|].
  unfold cnt_lt; simpl.
  destruct (Nat.ltb_spec (fst e) i); destruct (Nat.leb_spec i (fst e)); try lia;
    simpl.
  - now apply IH.
  - rewrite Forall_forall in Hall; unfold fst_le in Hall.
    rewrite (filter_none (fun e => fst e <? i)), (filter_all (fun e => i <=? fst e)).
    + reflexivity.
    + intros x Hx. apply Nat.leb_le. specialize (Hall x Hx). lia.
    + intros x Hx. apply Nat.ltb_ge. specialize (Hall x Hx). lia.
Qed.

Lemma filter_ge_split i :
  filter (fun e => i <=? fst e) ia
  = filter (fun e => fst e =? i) ia ++ filter (fun e => S i <=? fst e) ia.
Proof.
  induction Hsorted as [|e l Hs IH Hall]; [reflexivity|]. cbn [filter].
  rewrite Forall_forall in Hall; unfold fst_le in Hall.
  destruct (Nat.leb_spec i (fst e)), (Nat.eqb_spec (fst e) i),
    (Nat.leb_spec (S i) (fst e)); try lia; cbn [app].
  - subst. now rewrite IH by assumption.
  - rewrite IH by assumption; rewrite (filter_none (fun e => fst e =? i)); [reflexivity|].
    intros x Hx. apply Nat.eqb_neq. specialize (Hall x Hx). lia.
  - now apply IH.
Qed.

Lemma firstn_plus (n m : nat) : forall l : list entry,
  firstn (n + m) l = firstn n l ++ firstn m (skipn n l).
Proof.
  induction n as [|n IH]; intros [|x l]; simpl; try reflexivity.
  - now rewrite firstn_nil.
  - now rewrite IH.
Qed.

Lemma skipn_nth_cons n x r : forall (l : list entry) d,
  skipn n l = x :: r -> nth n l d = x /\ skipn (S n) l = r.
Proof.
  induction n as [|n IH]; intros [|y l] d H; simpl in *; try discriminate.
  - inversion H; subst. split; reflexivity.
  - now apply IH.
Qed.

Lemma format_inner_run i pe E : forall rest eir cnt col row,
  Forall (fun e => fst e = i) E -> skipn (pe + eir) ia = E ++ rest ->
  format_inner ia i pe (E ++ rest) eir cnt col row =
  format_inner ia i pe rest (eir + length E) (cnt + length E)
    (col ++ map snd E) row.
Proof.
  induction E as [|e E IH]; intros rest eir cnt col row HE Hsk; simpl.
  - now rewrite !Nat.add_0_r, app_nil_r.
  - inversion HE as [|? ? He HE']; subst.
    rewrite Nat.eqb_refl.
    destruct (skipn_nth_cons (pe + eir) e (E ++ rest) ia (0, 0) Hsk) as [Hn Hs'].
    rewrite Hn, IH; [| assumption | now rewrite Nat.add_succ_r].
    rewrite <- app_assoc, !Nat.add_succ_r. reflexivity.
Qed.

(** The row offsets computed so far. *)
Definition offsets (k : nat) : list nat := map (fun r => cnt_lt r ia) (seq 0 k).

Definition state_A (i : nat) : nat * nat * list nat * list nat :=
  (cnt_lt i ia, cnt_lt i ia, map snd (firstn (cnt_lt i ia) ia), offsets (S i)).

(** Invariant of the outer loop of [__csr_format] before iteration [i]:
    while some entry lies in row [i] or later, the counters sit at the start
    of row [i]; once every entry is consumed the inner loop runs without a
    [break] and [processed_edges] stays behind, pointing at an entry of an
    earlier row. *)
Definition outer_inv (i : nat) (st : nat * nat * list nat * list nat) : Prop :=
  ((exists e, In e ia /\ i <= fst e) /\ st = state_A i) \/
  ((forall e, In e ia -> fst e < i) /\
   exists pe x r, skipn pe ia = x :: r /\ fst x < i /\
     st = (pe, length ia, map snd ia, offsets i)).

Lemma offsets_S k : offsets (S k) = offsets k ++ [cnt_lt k ia].
Proof. unfold offsets. now rewrite seq_S, map_app. Qed.

Lemma cnt_lt_all i : (forall e, In e ia -> fst e < i) -> cnt_lt i ia = length ia.
Proof.
  intros H. unfold cnt_lt. rewrite filter_all; [reflexivity|].
  intros x Hx. apply Nat.ltb_lt. now apply H.
Qed.

Lemma outer_step i pe cnt col row :
  outer_inv i (pe, cnt, col, row) ->
  outer_inv (S i) (format_inner ia i pe (skipn pe ia) 0 cnt col row).
Proof.
  intros [[[e0 [He0 Hle0]] Hst] | [Hall [pe' [x [r [Hsk [Hx Hst]]]]]]].
  - unfold state_A in Hst. inversion Hst; subst pe cnt col row.
    set (G := filter (fun e => fst e =? i) ia).
    set (F := filter (fun e => S i <=? fst e) ia).
    assert (Hsk : skipn (cnt_lt i ia + 0) ia = G ++ F).
    { rewrite Nat.add_0_r, skipn_cnt_lt. apply filter_ge_split. }
    assert (HG : Forall (fun e => fst e = i) G).
    { apply Forall_forall. intros y Hy. apply filter_In in Hy as [_ Hy].
      now apply Nat.eqb_eq. }
    rewrite <- Nat.add_0_r with (n := cnt_lt i ia) at 2.
    rewrite Hsk, format_inner_run by assumption.
    assert (Hc : cnt_lt (S i) ia = cnt_lt i ia + length G) by apply cnt_lt_S.
    assert (Hfirst : firstn (cnt_lt (S i) ia) ia = firstn (cnt_lt i ia) ia ++ G).
    { rewrite Hc, firstn_plus. rewrite Nat.add_0_r in Hsk. rewrite Hsk.
      rewrite firstn_app, Nat.sub_diag, firstn_0, app_nil_r, firstn_all.
      reflexivity. }
    destruct F as [|y F'] eqn:EF.
    + (* every entry is in row [i] or earlier: no [break] *)
      simpl. right.
      assert (Hlt : forall e, In e ia -> fst e < S i).
      { intros e He. destruct (Nat.le_gt_cases (S i) (fst e)) as [Hge|]; [|lia].
        assert (Hin : In e F) by (apply filter_In; split; [|apply Nat.leb_le]; assumption).
        rewrite EF in Hin. destruct Hin. }
      split; [assumption|].
      assert (HGne : exists g G', G = g :: G').
      { destruct G as [|g G'] eqn:EG; [|now exists g, G'].
        exfalso. assert (fst e0 = i) by (specialize (Hlt e0 He0); lia).
        assert (Hin : In e0 G) by (apply filter_In; split; [|apply Nat.eqb_eq]; assumption).
        rewrite EG in Hin. destruct Hin. }
      destruct HGne as [g [G' EG]].
      exists (cnt_lt i ia), g, G'. split; [|split].
      * rewrite <- Nat.add_0_r with (n := cnt_lt i ia). rewrite Hsk, EG, app_nil_r.
        reflexivity.
      * assert (In g G) by (rewrite EG; now left).
        rewrite Forall_forall in HG. specialize (HG g H). lia.
      * rewrite <- Hc, <- map_app, (cnt_lt_all (S i) Hlt).
        assert (Hia : firstn (cnt_lt i ia) ia ++ G = ia).
        { rewrite <- Hfirst, (cnt_lt_all (S i) Hlt). apply firstn_all. }
        exact (f_equal (fun l => (cnt_lt i ia, length ia, map snd l, offsets (S i))) Hia).
    + (* the next row starts with [y]: [break] *)
      assert (Hy : S i <= fst y).
      { assert (Hin : In y F) by (rewrite EF; now left).
        apply filter_In in Hin as [_ Hin]. now apply Nat.leb_le. }
      simpl. replace (i =? fst y) with false by (symmetry; apply Nat.eqb_neq; lia).
      left. split.
      * exists y. split; [|assumption].
        assert (Hin : In y F) by (rewrite EF; now left).
        now apply filter_In in Hin as [Hin _].
      * unfold state_A. rewrite Hfirst, map_app, <- Hc, offsets_S. reflexivity.
  - inversion Hst; subst pe cnt col row.
    rewrite Hsk. simpl.
    replace (i =? fst x) with false by (symmetry; apply Nat.eqb_neq; lia).
    right. split; [intros e He; specialize (Hall e He); lia|].
    exists pe', x, r. split; [assumption|]. split; [lia|].
    rewrite Nat.add_0_r, offsets_S, (cnt_lt_all i Hall). reflexivity.
Qed.

Lemma outer_run k : forall i st,
  outer_inv i st -> outer_inv (k + i) (format_outer ia k i false st).
Proof.
  induction k as [|k IH]; intros i [[[pe cnt] col] row] H; simpl; [assumption|].
  rewrite <- Nat.add_succ_r. apply IH. now apply outer_step.
Qed.

(** [__csr_format] on sorted input with at least two entries, all in rows
    below [n]: the columns in order, and [row_index[r]] is the number of
    entries in rows before [r]. *)
Lemma csr_format_sorted n :
  length ia <> 1 -> ia <> [] -> (forall e, In e ia -> fst e < n) ->
  csr_format ia n = (map snd ia, offsets (S n)).
Proof.
  intros H1 Hne Hn. unfold csr_format.
  replace (length ia =? 1) with false by (symmetry; now apply Nat.eqb_neq).
  assert (Hinit : outer_inv 0 (0, 0, [], [0])).
  { left. split.
    - destruct ia as [|e l]; [contradiction|]. exists e. split; [now left | lia].
    - assert (H0 : cnt_lt 0 ia = 0).
      { unfold cnt_lt. rewrite filter_none; [reflexivity|].
        intros x _. apply Nat.ltb_ge. lia. }
      unfold state_A, offsets. cbn [seq map]. rewrite H0. reflexivity. }
  pose proof (outer_run (S n) 0 _ Hinit) as Hfin. rewrite Nat.add_0_r in Hfin.
  destruct Hfin as [[[e [He Hle]] _] | [_ [pe [x [r [_ [_ ->]]]]]]].
  - specialize (Hn e He). lia.
  - reflexivity.
Qed.

End Sorted_rows.

Lemma format_outer_empty ia k : forall i pe cnt col row,
  format_outer ia k i true (pe, cnt, col, row) = (pe, cnt, col, row ++ repeat cnt k).
Proof.
  induction k as [|k IH]; intros i pe cnt col row; simpl.
  - now rewrite app_nil_r.
  - rewrite IH, <- app_assoc. reflexivity.
Qed.

(** [__csr_format] on a single entry takes the branch meant for the empty
    sentinel [np.array([[]])]. *)
Lemma csr_format_single ia n :
  length ia = 1 -> csr_format ia n = ([], 0 :: repeat 0 (S n)).
Proof.
  intros H. unfold csr_format. rewrite H, format_outer_empty. reflexivity.
Qed.

End CSRFacts.

(* ------------------------------------------------------------------ *)
(** ** Claims on the CSR structure *)

Module CSRClaims.
Import CSR CSRFacts.

Lemma max_list_ge x l : In x l -> x <= max_list l.
Proof.
  induction l as [|y l IH]; simpl; [contradiction|].
  intros [->|H]; [lia|]. specialize (IH H). lia.
Qed.

Lemma csr_prep_inv {A} (ia : list entry) (values : list A) shape vs col row :
  csr_prep ia values shape true = Ok (vs, col, row) ->
  ia <> [] /\ (forall e, In e ia -> fst e < fst shape /\ snd e < snd shape) /\
  exists es, csr_sort ia values (snd shape) = Ok (es, vs) /\
             csr_format es (fst shape) = (col, row).
Proof.
  unfold csr_prep. destruct ia as [|e0 ia0] eqn:Eia; [discriminate|].
  rewrite <- Eia.
  destruct ((Z.of_nat (max_list (map snd ia)) >? Z.of_nat (snd shape) - 1)
            || (Z.of_nat (max_list (map fst ia)) >? Z.of_nat (fst shape) - 1))%Z
    eqn:Echeck; [discriminate|].
  apply Bool.orb_false_iff in Echeck as [Ec Er].
  rewrite Z.gtb_ltb, Z.ltb_ge in Ec, Er.
  destruct (csr_sort ia values (snd shape)) as [[es vs']|err] eqn:Es;
    simpl; [|discriminate].
  destruct (csr_format es (fst shape)) as [col' row'] eqn:Ef.
  intros H; inversion H; subst vs' col' row'.
  split; [now rewrite Eia|]. split.
  - intros e He. split.
    + pose proof (max_list_ge (fst e) (map fst ia) (in_map fst ia e He)). lia.
    + pose proof (max_list_ge (snd e) (map snd ia) (in_map snd ia e He)). lia.
  - exists es. split; [reflexivity | assumption].
Qed.

Lemma nth_error_offsets es n r :
  r < S n -> nth_error (offsets es (S n)) r = Some (cnt_lt r es).
Proof.
  intros H. unfold offsets. rewrite nth_error_map, nth_error_seq.
  replace (r <? S n) with true by (symmetry; now apply Nat.ltb_lt).
  reflexivity.
Qed.



(** C2 *)
(** Claim C2 (round trip): building a CSR matrix with [csr_prep] from a
    single triple [(0, 0, 5)] of shape [(1, 1)] and reading row [0] back does
    not give the pair [(0, 5)]: a one-entry [index_array] is taken for the
    empty sentinel ([len(index_array) == 1]), so [row_index] is all zeros and
    the column array is empty. *)
Theorem csr_roundtrip_single_entry :
  construct [(0, 0)] [5] (1, 1) = Ok (mk_csr [5] [] [0; 0; 0]) /\
  get_row (mk_csr [5] [] [0; 0; 0]) 0 = Ok [] /\
  get_nnz (mk_csr [5] [] [0; 0; 0]) 0 = Ok [].
Proof. repeat split; reflexivity. Qed.

End CSRClaims.

(* ------------------------------------------------------------------ *)
(** ** Round trip of the CSR construction *)

Module CSRRoundTrip.
Import CSR CSRFacts CSRClaims.

(** The pair [(entry, value)] that a popped heap item stands for. *)
Definition item_pair {A} (values : list A) (x : item) : result (entry * A) :=
  let '(_, i, j, index) := x in
  v <- py_get values index ;; Ok ((i, j), v).

Lemma result_map_cons {A B} (f : A -> result B) x l r :
  result_map f (x :: l) = Ok r ->
  exists y rs, f x = Ok y /\ result_map f l = Ok rs /\ r = y :: rs.
Proof.
  simpl. destruct (f x) as [y|e]; simpl; [|discriminate].
  destruct (result_map f l) as [rs|e]; simpl; [|discriminate].
  intros H; inversion H; subst. now exists y, rs.
Qed.

Lemma result_map_perm {A B} (f : A -> result B) l l' :
  Permutation l l' -> forall r, result_map f l = Ok r ->
  exists r', result_map f l' = Ok r' /\ Permutation r r'.
Proof.
  induction 1 as [|x l l' Hp IH|x y l|l l' l'' H1 IH1 H2 IH2]; intros r Hr.
  - exists r. split; [assumption | reflexivity].
  - apply result_map_cons in Hr as [z [rs [Hz [Hrs ->]]]].
    destruct (IH rs Hrs) as [rs' [Hrs' Hp']].
    exists (z :: rs'). split; [|now constructor].
    simpl. rewrite Hz, Hrs'. reflexivity.
  - apply result_map_cons in Hr as [zy [rs [Hzy [Hrs ->]]]].
    apply result_map_cons in Hrs as [zx [rs' [Hzx [Hrs' ->]]]].
    exists (zx :: zy :: rs'). split; [|apply perm_swap].
    simpl. rewrite Hzx, Hzy, Hrs'. reflexivity.
  - destruct (IH1 r Hr) as [r1 [Hr1 Hp1]].
    destruct (IH2 r1 Hr1) as [r2 [Hr2 Hp2]].
    exists r2. split; [assumption|]. now transitivity r1.
Qed.

Lemma drain_pairs {A} (values : list A) h : forall es vs,
  drain values h = Ok (es, vs) -> result_map (item_pair values) h = Ok (combine es vs).
Proof.
  induction h as [|[[[k i] j] x] h IH]; simpl; intros es vs H.
  - inversion H; subst. reflexivity.
  - destruct (py_get values x) as [v|e]; simpl in H |- *; [|discriminate].
    destruct (drain values h) as [[es' vs']|e]; simpl in H; [|discriminate].
    inversion H; subst. rewrite (IH es' vs' eq_refl). reflexivity.
Qed.

Lemma skipn_nth_error {A} (l : list A) : forall k v,
  nth_error l k = Some v -> skipn k l = v :: skipn (S k) l.
Proof.
  induction l as [|y l IH]; intros [|k] v H; simpl in *; try discriminate.
  - now inversion H.
  - apply IH in H. rewrite H. destruct l; reflexivity.
Qed.

Lemma items_pairs {A} (values : list A) ia : forall k nc,
  k + length ia <= length values ->
  result_map (item_pair values) (items ia k nc) = Ok (combine ia (skipn k values)).
Proof.
  induction ia as [|[i j] ia IH]; intros k nc Hl; simpl.
  - reflexivity.
  - simpl in Hl. destruct (nth_error values k) as [v|] eqn:Ev.
    2: { apply nth_error_None in Ev. lia. }
    unfold py_get. rewrite Ev. simpl.
    rewrite IH by lia. rewrite (skipn_nth_error values k v Ev). reflexivity.
Qed.

(** [__csr_sort] pairs every entry with its own value. *)
Lemma csr_sort_pairs {A} (ia : list entry) (values : list A) nc es vs :
  length values = length ia ->
  csr_sort ia values nc = Ok (es, vs) ->
  Permutation (combine ia values) (combine es vs).
Proof.
  intros Hl H. rewrite csr_sort_drain in H. apply drain_pairs in H.
  pose proof (push_all_perm ia [] 0 nc) as Hp. simpl in Hp.
  pose proof (items_pairs values ia 0 nc ltac:(lia)) as Hi. simpl in Hi.
  destruct (result_map_perm _ _ _ Hp _ Hi) as [r' [Hr' Hperm]].
  rewrite H in Hr'. inversion Hr'; subst. assumption.
Qed.

Section Sorted_key.
Context {X : Type} (key : X -> nat).

Definition cntk (i : nat) (L : list X) : nat := length (filter (fun x => key x <? i) L).

Lemma firstn_cntk i L :
  StronglySorted (fun a b => key a <= key b) L ->
  firstn (cntk i L) L = filter (fun x => key x <? i) L.
Proof.
  induction 1 as [|x L Hs IH Hall]; [reflexivity|].
  rewrite Forall_forall in Hall. unfold cntk in *; simpl.
  destruct (Nat.ltb_spec (key x) i); simpl.
  - now rewrite IH.
  - rewrite filter_none; [reflexivity|].
    intros y Hy. apply Nat.ltb_ge. specialize (Hall y Hy). lia.
Qed.

Lemma slice_cntk r L :
  StronglySorted (fun a b => key a <= key b) L ->
  py_slice L (cntk r L) (cntk (S r) L) = filter (fun x => key x =? r) L.
Proof.
  induction 1 as [|x L Hs IH Hall]; [reflexivity|].
  rewrite Forall_forall in Hall.
  destruct (Nat.ltb_spec (key x) r) as [Hlt|Hge].
  - unfold cntk in *; simpl.
    replace (key x <? r) with true by (symmetry; now apply Nat.ltb_lt).
    replace (key x <? S r) with true by (symmetry; apply Nat.ltb_lt; lia).
    replace (key x =? r) with false by (symmetry; apply Nat.eqb_neq; lia).
    simpl. rewrite <- IH. unfold py_slice. reflexivity.
  - assert (H0 : cntk r (x :: L) = 0).
    { unfold cntk. rewrite filter_none; [reflexivity|].
      intros y [<-|Hy]; apply Nat.ltb_ge; [lia|]. specialize (Hall y Hy). lia. }
    rewrite H0. unfold py_slice. rewrite Nat.sub_0_r. cbn [skipn].
    rewrite firstn_cntk by (now constructor; [|apply Forall_forall]).
    simpl. destruct (Nat.eqb_spec (key x) r) as [Heq|Hne].
    + replace (key x <? S r) with true by (symmetry; apply Nat.ltb_lt; lia).
      f_equal. apply filter_ext_in. intros y Hy. specialize (Hall y Hy).
      destruct (Nat.ltb_spec (key y) (S r)), (Nat.eqb_spec (key y) r); try lia;
        reflexivity.
    + replace (key x <? S r) with false by (symmetry; apply Nat.ltb_ge; lia).
      rewrite !filter_none; [reflexivity| |].
      * intros y Hy. specialize (Hall y Hy). apply Nat.eqb_neq. lia.
      * intros y Hy. specialize (Hall y Hy). apply Nat.ltb_ge. lia.
Qed.

End Sorted_key.

Definition row_key {A} (p : entry * A) : nat := fst (fst p).

Lemma cnt_lt_combine {A} (es : list entry) (vs : list A) i :
  length es = length vs -> cnt_lt i es = cntk row_key i (combine es vs).
Proof.
  revert vs; induction es as [|e es IH]; intros [|v vs] Hl; simpl in *;
    try discriminate; [reflexivity|].
  unfold cnt_lt, cntk, row_key in *; simpl.
  destruct (fst e <? i); simpl; rewrite (IH vs) by lia; reflexivity.
Qed.

Lemma sorted_combine {A} (es : list entry) (vs : list A) :
  StronglySorted fst_le es ->
  StronglySorted (fun a b => row_key a <= row_key b) (combine es vs).
Proof.
  intros Hs; revert vs; induction Hs as [|e es Hs IH Hall]; intros [|v vs];
    simpl; constructor; [apply IH|].
  rewrite Forall_forall in *. intros [e' v'] Hin.
  apply in_combine_l in Hin. apply (Hall e' Hin).
Qed.

Lemma combine_skipn {A B} (l : list A) (l' : list B) n :
  skipn n (combine l l') = combine (skipn n l) (skipn n l').
Proof.
  revert l l'; induction n as [|n IH]; intros [|x l] [|y l']; simpl;
    try reflexivity.
  - now rewrite combine_nil.
  - apply IH.
Qed.

Lemma combine_map_snd {A} (es : list entry) (vs : list A) :
  combine (map snd es) vs = map (fun p => (snd (fst p), snd p)) (combine es vs).
Proof.
  revert vs; induction es as [|e es IH]; intros [|v vs]; simpl;
    try reflexivity. now rewrite IH.
Qed.

Lemma combine_slice {A} (es : list entry) (vs : list A) a b :
  combine (py_slice (map snd es) a b) (py_slice vs a b)
  = map (fun p => (snd (fst p), snd p)) (py_slice (combine es vs) a b).
Proof.
  unfold py_slice. rewrite <- combine_firstn, <- firstn_map. f_equal.
  rewrite <- skipn_map, <- combine_map_snd, combine_skipn. reflexivity.
Qed.

Lemma filter_perm {A} (P : A -> bool) l l' :
  Permutation l l' -> Permutation (filter P l) (filter P l').
Proof.
  induction 1 as [|x l l' _ IH|x y l|l l' l'' _ IH1 _ IH2]; simpl.
  - reflexivity.
  - destruct (P x); [now constructor | assumption].
  - destruct (P x), (P y); try reflexivity. apply perm_swap.
  - now transitivity (filter P l').
Qed.

(** Round trip of [csr_prep] in the unbounded model, for an [index_array]
    of any length but one:
    with one value per entry and [r] below the number of rows, [get_nnz(r)]
    and [get_row(r)] are slices of the same length, and zipped together they
    are, up to order, the [(column, value)] pairs of the triples of row [r]. *)
Lemma csr_roundtrip_rows_unbounded {A} (ia : list entry) (values : list A)
    (shape : nat * nat) (m : csr_matrix A) (r : nat) :
  construct ia values shape = Ok m ->
  length ia <> 1 ->
  length values = length ia ->
  r < fst shape ->
  exists cols vals,
    get_nnz m r = Ok cols /\ get_row m r = Ok vals /\
    length cols = length vals /\
    Permutation (combine cols vals)
      (map (fun p => (snd (fst p), snd p))
         (filter (fun p => fst (fst p) =? r) (combine ia values))).
Proof.
  unfold construct. intros Hc H1 Hl Hr.
  destruct (csr_prep ia values shape true) as [[[vs col] row]|err] eqn:Ep;
    simpl in Hc; [|discriminate].
  inversion Hc; subst m; clear Hc.
  apply csr_prep_inv in Ep as [Hne [Hb [es [Hs Hf]]]].
  destruct (csr_sort_sorted ia values (snd shape) es vs) as [Hsrt [Hperm Hlv]];
    [intros e He; specialize (Hb e He); lia | assumption |].
  pose proof (csr_sort_pairs ia values (snd shape) es vs Hl Hs) as Hpairs.
  pose proof (Permutation_length Hperm) as Hle.
  assert (Hes : es <> []).
  { intros ->. apply Permutation_sym, Permutation_nil in Hperm. contradiction. }
  assert (Hin : forall e, In e es -> fst e < fst shape).
  { intros e He. apply (Permutation_in _ (Permutation_sym Hperm)) in He.
    apply (Hb e He). }
  rewrite (csr_format_sorted es Hsrt (fst shape) ltac:(lia) Hes Hin) in Hf.
  inversion Hf; subst col row.
  unfold get_row, get_nnz, py_get; cbn [csr_row_index csr_values csr_col_index].
  rewrite !nth_error_offsets by lia. cbn [rbind].
  eexists; eexists; split; [reflexivity|]; split; [reflexivity|]. split.
  - unfold py_slice. rewrite !length_firstn, !length_skipn, length_map.
    replace (length vs) with (length es) by lia. reflexivity.
  - assert (Hev : length es = length vs) by lia.
    rewrite combine_slice, !(cnt_lt_combine es vs _ Hev).
    rewrite (slice_cntk row_key r (combine es vs) (sorted_combine es vs Hsrt)).
    apply Permutation_map, filter_perm. now apply Permutation_sym.
Qed.

End CSRRoundTrip.

(* ------------------------------------------------------------------ *)
(** ** Properties of the convergence test *)

Module DriverFacts.
Import Num Driver.
Local Open Scope Qc_scope.

Lemma qsum_app (a b : list Qc) : qsum (a ++ b) = qsum a + qsum b.
Proof.
  induction a as [|x a IH]; cbn [app qsum fold_right].
  - unfold qsum; simpl. ring.
  - unfold qsum in *; simpl. rewrite IH. ring.
Qed.

Lemma sum_to_S (n : nat) (f : nat -> Qc) :
  sum_to (S n) f = f 0%nat + sum_to n (fun j => f (S j)).
Proof.
  unfold sum_to. cbn [seq map]. rewrite <- seq_shift, map_map. reflexivity.
Qed.

Lemma sum_to_0 (f : nat -> Qc) : sum_to 0 f = Q2Qc 0.
Proof. reflexivity. Qed.

Lemma row_sub_sum (a b : list Qc) :
  length a = length b ->
  exists d, row_sub a b = Ok d /\
    qsum (map Qcabs d)
    = sum_to (length a) (fun j => Qcabs (Qcminus (nth j a (Q2Qc 0)) (nth j b (Q2Qc 0)))).
Proof.
  revert b; induction a as [|x a IH]; intros [|y b] Hl; try discriminate.
  - exists []; split; reflexivity.
  - injection Hl as Hl. destruct (IH b Hl) as (d & Hd & Hs).
    exists (Qcminus x y :: d). cbn [row_sub]. rewrite Hd. split; [reflexivity|].
    cbn [length]. rewrite sum_to_S. cbn [nth].
    unfold qsum in *. cbn [map fold_right]. rewrite Hs. reflexivity.
Qed.

Lemma row_sum (a : list Qc) :
  qsum a = sum_to (length a) (fun j => nth j a (Q2Qc 0)).
Proof.
  induction a as [|x a IH]; [reflexivity|].
  cbn [length]. rewrite sum_to_S. cbn [nth]. rewrite <- IH. reflexivity.
Qed.

Lemma np_sub_sum (old new : mat) (rows cols : nat) :
  has_shape old rows cols -> has_shape new rows cols ->
  exists d, np_sub new old = Ok d /\
    np_sum (np_abs d) = gap_num old new rows cols.
Proof.
  unfold has_shape, gap_num, np_sum, np_abs, cell.
  revert old rows; induction new as [|r new IH];
    intros [|s old] rows [Ho Fo] [Hn Fn]; rewrite <- Hn in Ho;
    try discriminate.
  - subst rows. exists []; split; reflexivity.
  - subst rows. injection Ho as Ho.
    inversion Fo as [|? ? Hs Fo']; inversion Fn as [|? ? Hr Fn']; subst.
    destruct (row_sub_sum r s) as (d1 & Hd1 & Hs1); [congruence|].
    destruct (IH old (length new) (conj Ho Fo') (conj eq_refl Fn'))
      as (d & Hd & Hsum).
    exists (d1 :: d). cbn [np_sub]. rewrite Hd1, Hd. split; [reflexivity|].
    cbn [length]. rewrite sum_to_S. cbn [map concat nth].
    rewrite qsum_app, Hsum, <- Hr, Hs1. reflexivity.
Qed.

Lemma np_sum_den (old : mat) (rows cols : nat) :
  has_shape old rows cols -> np_sum old = gap_den old rows cols.
Proof.
  unfold has_shape, gap_den, np_sum, cell.
  revert rows; induction old as [|s old IH]; intros rows [Ho Fo]; subst rows.
  - reflexivity.
  - inversion Fo as [|? ? Hs Fo']; subst.
    cbn [length concat]. rewrite sum_to_S, qsum_app, (IH (length old)) by auto.
    cbn [nth]. rewrite row_sum. reflexivity.
Qed.

Lemma qsum_nonneg (l : list Qc) :
  Forall (fun x => Q2Qc 0 <= x) l -> Q2Qc 0 <= qsum l.
Proof.
  induction 1 as [|x l Hx _ IH]; [apply Qcle_refl|].
  unfold qsum in *; cbn [fold_right].
  change (Q2Qc 0) with (Q2Qc 0 + Q2Qc 0) at 1. now apply Qcplus_le_compat.
Qed.

Lemma sum_to_nonneg (n : nat) (f : nat -> Qc) :
  (forall j, Q2Qc 0 <= f j) -> Q2Qc 0 <= sum_to n f.
Proof.
  intros H. apply qsum_nonneg, Forall_forall. intros x Hx.
  apply in_map_iff in Hx as (j & <- & _). apply H.
Qed.

Lemma gap_num_nonneg (old new : mat) (rows cols : nat) :
  Q2Qc 0 <= gap_num old new rows cols.
Proof.
  apply sum_to_nonneg; intros i. apply sum_to_nonneg; intros j. apply Qcabs_nonneg.
Qed.

Section Loop_bound.
Context {Network DynamicDemand SimulationTime ILTMState AONState : Type}.
Context (tot_time_steps : SimulationTime -> nat) (tot_links : Network -> nat).
Context (setup_aon : Network -> SimulationTime -> DynamicDemand -> result AONState).
Context (i_ltm_setup :
  Network -> SimulationTime -> DynamicDemand -> result (ILTMState * Network)).
Context (i_ltm :
  Network -> DynamicDemand -> ILTMState -> SimulationTime -> AONState -> nat ->
  result ILTMState).
Context (cvn_to_travel_times : ILTMState -> SimulationTime -> Network -> mat).
Context (cvn_to_flows : ILTMState -> mat).
Context (update_arrival_maps :
  Network -> SimulationTime -> DynamicDemand -> AONState -> mat -> result AONState).
Context (update_route_choice :
  AONState -> mat -> Network -> DynamicDemand -> SimulationTime -> nat ->
  result AONState).
Context (rc_debug_plot :
  ILTMState -> Network -> SimulationTime -> AONState -> mat -> result unit).
Context (target_gap : Qc).
Context (dynamic_demand : DynamicDemand)
        (route_choice_time network_loading_time : SimulationTime).

Let body := loop_body Network DynamicDemand SimulationTime ILTMState AONState
  i_ltm cvn_to_travel_times cvn_to_flows update_arrival_maps update_route_choice
  rc_debug_plot target_gap dynamic_demand route_choice_time network_loading_time.
Let loop fuel := assignment_loop Network DynamicDemand SimulationTime ILTMState
  AONState i_ltm cvn_to_travel_times cvn_to_flows update_arrival_maps
  update_route_choice rc_debug_plot target_gap fuel dynamic_demand
  route_choice_time network_loading_time.

Lemma loop_body_k (s s' : loop_state Network ILTMState AONState) :
  body s = Ok s' -> ls_k _ _ _ s' = S (ls_k _ _ _ s).
Proof.
  unfold body, loop_body, rbind. intros H.
  repeat (match type of H with context [match ?x with _ => _ end] =>
            destruct x end; try discriminate H).
  all: injection H as <-; reflexivity.
Qed.

(** The loop leaves with [k <= 1001], and with [k = 1001] unless it
    converged: 1000 passes are as many as the [while] loop can make. *)
Lemma loop_bound (fuel : nat) (s s' : loop_state Network ILTMState AONState) :
  (ls_k _ _ _ s <= 1001)%nat -> (1001 <= ls_k _ _ _ s + fuel)%nat ->
  loop fuel s = Ok s' ->
  (ls_k _ _ _ s' <= 1001)%nat /\
  (ls_converged _ _ _ s' = true \/ ls_k _ _ _ s' = 1001%nat).
Proof.
  unfold loop. revert s; induction fuel as [|fuel IH]; intros s Hle Hf H.
  - cbn in H. injection H as <-. split; [lia | right; lia].
  - cbn [assignment_loop] in H.
    destruct (Nat.ltb (ls_k _ _ _ s) 1001) eqn:Ek; cbn [andb] in H.
    + apply Nat.ltb_lt in Ek.
      destruct (ls_converged _ _ _ s) eqn:Ec; cbn [negb] in H.
      * injection H as <-. split; [lia | now left].
      * destruct (body s) as [s1|e] eqn:Eb; unfold body in Eb;
          rewrite Eb in H; cbn [rbind] in H; [|discriminate].
        apply loop_body_k in Eb.
        apply (IH s1); [lia | lia | exact H].
    + apply Nat.ltb_ge in Ek. injection H as <-. split; [lia | right; lia].
Qed.

(** Hence the driver runs at most 1000 passes of the loop body, stopping
    early only on convergence. *)
Lemma run_assignment_bound (network : Network)
    (s : loop_state Network ILTMState AONState) :
  run_assignment Network DynamicDemand SimulationTime ILTMState AONState
    tot_time_steps tot_links setup_aon i_ltm_setup i_ltm cvn_to_travel_times
    cvn_to_flows update_arrival_maps update_route_choice rc_debug_plot
    target_gap network dynamic_demand route_choice_time network_loading_time
    = Ok s ->
  (ls_k _ _ _ s <= 1001)%nat /\
  (ls_converged _ _ _ s = true \/ ls_k _ _ _ s = 1001%nat).
Proof.
  unfold run_assignment, rbind. intros H.
  destruct (setup_aon _ _ _) as [aon|e]; [|discriminate].
  destruct (i_ltm_setup _ _ _) as [[st net]|e]; [|discriminate].
  eapply (loop_bound 1000); [| | exact H]; cbn; lia.
Qed.

(** When every call of the loading step raises, so does the driver, on
    every input its setup functions accept. *)
Lemma i_ltm_aon_call_raises (network network' : Network) (aon : AONState)
    (st : ILTMState) (e : py_error) :
  (forall n d r t a k, i_ltm n d r t a k = Err e) ->
  setup_aon network route_choice_time dynamic_demand = Ok aon ->
  i_ltm_setup network network_loading_time dynamic_demand = Ok (st, network') ->
  i_ltm_aon Network DynamicDemand SimulationTime ILTMState AONState
    tot_time_steps tot_links setup_aon i_ltm_setup i_ltm cvn_to_travel_times
    cvn_to_flows update_arrival_maps update_route_choice rc_debug_plot
    target_gap network dynamic_demand route_choice_time network_loading_time
    = Err e.
Proof.
  intros Hcall Ha Hs.
  unfold i_ltm_aon, run_assignment. rewrite Ha; cbn [rbind]. rewrite Hs; cbn [rbind].
  cbn [assignment_loop ls_k ls_converged Nat.ltb andb negb].
  unfold loop_body; cbn [ls_network ls_iltm ls_aon ls_k]. rewrite Hcall. reflexivity.
Qed.

End Loop_bound.

End DriverFacts.

Module DriverClaims.
Import Num Driver DriverFacts.
Local Open Scope Qc_scope.

Lemma Qcltb_spec (a b : Qc) : Qcltb a b = true <-> a < b.
Proof.
  unfold Qcltb. destruct (Qclt_le_dec a b) as [H|H]; split; try easy.
  intros Hlt. exfalso. exact (Qcle_not_lt _ _ H Hlt).
Qed.

Lemma Qceqb_spec (a b : Qc) : Qceqb a b = true <-> a = b.
Proof. unfold Qceqb. destruct (Qc_eq_dec a b); split; easy. Qed.

(** C3 *)
(** Claim C3: for [old_flows] and [new_flows] of one shape
    [rows x cols], [is_converged] returns the pair
    [(gap < target_gap, gap)] where [gap] is the float64 value of
    [sum |new - old| / sum old] summed over all cells; the test holds exactly
    when the denominator is nonzero and the quotient is strictly below
    [target_gap] (a zero denominator gives NaN or [+inf], which never
    converges). *)
Theorem is_converged_gap (old_flows new_flows : mat) (rows cols : nat)
    (target_gap : Qc) :
  has_shape old_flows rows cols -> has_shape new_flows rows cols ->
  is_converged old_flows new_flows target_gap method_all
    = Ok (f64_ltb (gap_spec old_flows new_flows rows cols) target_gap,
          gap_spec old_flows new_flows rows cols) /\
  (f64_ltb (gap_spec old_flows new_flows rows cols) target_gap = true <->
   gap_den old_flows rows cols <> Q2Qc 0 /\
   Qcdiv (gap_num old_flows new_flows rows cols) (gap_den old_flows rows cols)
     < target_gap).
Proof.
  intros Ho Hn. split.
  - destruct (np_sub_sum old_flows new_flows rows cols Ho Hn) as (d & Hd & Hs).
    unfold is_converged. rewrite Hd. cbn [rbind].
    rewrite Hs, (np_sum_den old_flows rows cols Ho). reflexivity.
  - pose proof (gap_num_nonneg old_flows new_flows rows cols) as Hnn.
    unfold gap_spec, f64_div.
    destruct (Qceqb (gap_den old_flows rows cols) (Q2Qc 0)) eqn:Ed.
    + apply Qceqb_spec in Ed.
      destruct (Qceqb (gap_num old_flows new_flows rows cols) (Q2Qc 0)) eqn:En;
        [split; [discriminate | intros [H _]; contradiction]|].
      destruct (Qcltb (Q2Qc 0) (gap_num old_flows new_flows rows cols)) eqn:Ep;
        [split; [discriminate | intros [H _]; contradiction]|].
      exfalso. unfold Qcltb in Ep.
      destruct (Qclt_le_dec (Q2Qc 0) (gap_num old_flows new_flows rows cols))
        as [_|Hle]; [discriminate|].
      assert (E : Qceqb (gap_num old_flows new_flows rows cols) (Q2Qc 0) = true)
        by (apply Qceqb_spec; now apply Qcle_antisym).
      congruence.
    + cbn [f64_ltb]. rewrite Qcltb_spec. split; [|tauto].
      intros H; split; [|exact H]. intros E. apply Qceqb_spec in E. congruence.
Qed.

(** C3 *)
Lemma is_converged_gap_witness :
  let old_flows := (Q2Qc (inject_Z 1) :: Q2Qc (inject_Z 2) :: nil) :: nil in
  let new_flows := (Q2Qc (inject_Z 2) :: Q2Qc (inject_Z 2) :: nil) :: nil in
  has_shape old_flows 1 2 /\ has_shape new_flows 1 2 /\
  (is_converged old_flows new_flows (Q2Qc (inject_Z 1)) method_all
    = Ok (f64_ltb (gap_spec old_flows new_flows 1 2) (Q2Qc (inject_Z 1)),
          gap_spec old_flows new_flows 1 2) /\
  (f64_ltb (gap_spec old_flows new_flows 1 2) (Q2Qc (inject_Z 1)) = true <->
   gap_den old_flows 1 2 <> Q2Qc 0 /\
   Qcdiv (gap_num old_flows new_flows 1 2) (gap_den old_flows 1 2)
     < Q2Qc (inject_Z 1))).
Proof.
  intros old_flows new_flows.
  assert (Ho : has_shape old_flows 1 2) by (split; [reflexivity | repeat constructor]).
  assert (Hn : has_shape new_flows 1 2) by (split; [reflexivity | repeat constructor]).
  split; [exact Ho|]. split; [exact Hn|].
  apply (is_converged_gap old_flows new_flows 1 2 (Q2Qc (inject_Z 1)) Ho Hn).
Defined.

Lemma travel_times_call_raises {A} (f : unit -> result A) :
  py_call_kw Keywords.cvn_to_travel_times_params Keywords.cvn_to_travel_times_call f
  = Err TypeError.
Proof. reflexivity. Qed.

(** C4 *)
(** Claim C4 (driver output): [i_ltm_aon] never returns a value, whatever
    its inputs and whatever loading step it is given. Its first pass either
    fails in the loading step or reaches the call
    [cvn_to_travel_times(cvn_up=..., cvn_down=..., time=..., network=...)],
    which leaves out the required [con_down] and raises [TypeError]. With the
    [i_ltm] of [i_ltm.py], called with seven arguments for six parameters,
    every input whose setup succeeds makes it raise [TypeError] on that
    first pass. So reaching the iteration cap without an error never
    happens, and no flows, costs or gap history reach the caller. *)
Theorem i_ltm_aon_never_returns
    {Network DynamicDemand SimulationTime ILTMState AONState : Type}
    (tot_time_steps : SimulationTime -> nat) (tot_links : Network -> nat)
    (setup_aon : Network -> SimulationTime -> DynamicDemand -> result AONState)
    (i_ltm_setup :
       Network -> SimulationTime -> DynamicDemand -> result (ILTMState * Network))
    (i_ltm :
       Network -> DynamicDemand -> ILTMState -> SimulationTime -> AONState -> nat ->
       result ILTMState)
    (i_ltm_body :
       Network -> DynamicDemand -> ILTMState -> SimulationTime -> AONState ->
       result ILTMState)
    (cvn_to_travel_times : ILTMState -> SimulationTime -> Network -> mat)
    (cvn_to_flows : ILTMState -> mat)
    (update_arrival_maps :
       Network -> SimulationTime -> DynamicDemand -> AONState -> mat -> result AONState)
    (update_route_choice :
       AONState -> mat -> Network -> DynamicDemand -> SimulationTime -> nat ->
       result AONState)
    (rc_debug_plot :
       ILTMState -> Network -> SimulationTime -> AONState -> mat -> result unit)
    (target_gap : Qc) (network : Network) (dynamic_demand : DynamicDemand)
    (route_choice_time network_loading_time : SimulationTime) :
  (forall v, i_ltm_aon Network DynamicDemand SimulationTime ILTMState AONState
     tot_time_steps tot_links setup_aon i_ltm_setup i_ltm cvn_to_travel_times
     cvn_to_flows update_arrival_maps update_route_choice rc_debug_plot
     target_gap network dynamic_demand route_choice_time network_loading_time
     <> Ok v) /\
  (forall aon st network',
     setup_aon network route_choice_time dynamic_demand = Ok aon ->
     i_ltm_setup network network_loading_time dynamic_demand = Ok (st, network') ->
     i_ltm_aon Network DynamicDemand SimulationTime ILTMState AONState
       tot_time_steps tot_links setup_aon i_ltm_setup (i_ltm_call i_ltm_body)
       cvn_to_travel_times cvn_to_flows update_arrival_maps update_route_choice
       rc_debug_plot target_gap network dynamic_demand route_choice_time
       network_loading_time = Err TypeError).
Proof.
  split.
  - intros v. unfold i_ltm_aon, run_assignment.
    destruct (setup_aon _ _ _) as [aon|e]; cbn [rbind]; [|discriminate].
    destruct (i_ltm_setup _ _ _) as [[st net]|e]; cbn [rbind]; [|discriminate].
    cbn [assignment_loop ls_k ls_converged Nat.ltb andb negb].
    unfold loop_body; cbn [ls_network ls_iltm ls_aon ls_k].
    destruct (i_ltm _ _ _ _ _ _) as [st'|e]; cbn [rbind]; [|discriminate].
    rewrite travel_times_call_raises. discriminate.
  - intros aon st network' Ha Hs.
    apply (i_ltm_aon_call_raises tot_time_steps tot_links setup_aon i_ltm_setup
             (i_ltm_call i_ltm_body) cvn_to_travel_times cvn_to_flows
             update_arrival_maps update_route_choice rc_debug_plot target_gap
             dynamic_demand route_choice_time network_loading_time network network'
             aon st TypeError); [|exact Ha|exact Hs].
    intros n d r t a k. reflexivity.
Qed.

End DriverClaims.

(* ------------------------------------------------------------------ *)
(** ** Properties of [_build_demand] *)

Module DemandClaims.
Import Num Demand.

(** C7 *)
(** Claim C7 (time tags): in the setting of [i_ltm_init.py] (insertions at
    hours 6 and 7, time from 6 to 12 by quarter hours), hour 7 is time step 4,
    yet the two static demands come out tagged 0 and 1: the comprehension
    computing [loading_time_steps] runs over [time] instead of the
    [insertion_time] argument. *)
Theorem build_demand_tags_ignore_insertion_time :
  nth_error (np_arange (Q2Qc (inject_Z 6)) (Q2Qc (inject_Z 12))
               (Q2Qc (Qmake 1 4))) 4 = Some (Q2Qc (inject_Z 7)) /\
  match ex_build (Q2Qc (Qmake 1 4)) with
  | Ok d => map (sd_loading_time_step nat) (dd_static_demands nat d) = [0; 1]
  | Err _ => False
  end.
Proof. split; vm_compute; reflexivity. Qed.

(** C8 *)
(** Claim C8 (insertion time spacing): insertion times 6 and 7 with a step
    size of 1 are exactly one step apart, yet [_build_demand] raises
    [ValueError]: the check requires a difference strictly greater than the
    step size. *)
Theorem build_demand_rejects_one_step_spacing :
  insertion_times_ok ex_insertion_times (Q2Qc (inject_Z 1)) = false /\
  ex_build (Q2Qc (inject_Z 1)) = Err ValueError.
Proof. split; vm_compute; reflexivity. Qed.

End DemandClaims.

(* ------------------------------------------------------------------ *)
(** ** Properties of the sending and turning flow computations *)

Module ILTMClaims.
Import Num ILTM.

(** C5 *)
(** Claim C5 (sending flow cap): one in-link with capacity 10, [vind = -1],
    [vrt = 0], 6 vehicles upstream at time 0 and none downstream; at [t = 1]
    the sending flow is 6 (non-negative), and the total sending flow is
    [min(cap, 6) = 6], more than capacity times a quarter-hour step
    ([10 * 1/4]): the cap is the capacity itself, not capacity times step
    size. *)
Theorem sending_flow_cap_without_step_size :
  calc_sending_flows [0] [[[Q2Qc (inject_Z 6)]]; [[Q2Qc (inject_Z 6)]]] 1
    [[[Q0]]; [[Q0]]] [(-1)%Z] [Q0] [Q2Qc (inject_Z 10)] [[Q0]] [Q0] [true]
  = Ok ([[Q2Qc (inject_Z 6)]], [Q2Qc (inject_Z 6)], [false]) /\
  Qclt (Qcmult (Q2Qc (inject_Z 10)) (Q2Qc (Qmake 1 4))) (Q2Qc (inject_Z 6)).
Proof. split; [vm_compute; reflexivity | reflexivity]. Qed.

(** C6 *)
(** Claim C6 (single outgoing link): for a node with one outgoing link, whose
    local label is 0, [calc_turning_flows] writes 1 into column 1 of
    [local_turning_fractions] and leaves column 0 as it was (here 0); when the
    array has a single column the write raises [IndexError]. *)
Theorem single_out_link_sets_column_one :
  calc_turning_flows 1 [[Q0; Q0]; [Q0; Q0]] [] [] [] [] [[Q0; Q0]; [Q0; Q0]] [] 1
    = Ok ([[Q0; Q1]; [Q0; Q1]], [[Q0; Q0]; [Q0; Q0]]) /\
  calc_turning_flows 1 [[Q0]; [Q0]] [] [] [] [] [[Q0]; [Q0]] [] 1
    = Err IndexError.
Proof. split; vm_compute; reflexivity. Qed.

End ILTMClaims.

(* ------------------------------------------------------------------ *)
(** ** Frame property of [dijkstra] *)

Module DijkstraFacts.
Import Num CSR Dijkstra.

Lemma py_set_frame {A} (l l' : list A) (i : nat) (v : A) :
  py_set l i v = Ok l' ->
  length l' = length l /\ forall x, x <> i -> nth_error l' x = nth_error l x.
Proof.
  revert l' i; induction l as [|y l IH]; intros l' [|i] H; cbn in H;
    try discriminate.
  - injection H as <-. split; [reflexivity|]. intros [|x] Hx; [lia|reflexivity].
  - destruct (py_set l i v) as [r|e] eqn:E; cbn in H; [|discriminate].
    injection H as <-. destruct (IH r i E) as [Hl Hx].
    split; [cbn; now rewrite Hl|]. intros [|x] Hne; [reflexivity|].
    cbn. apply Hx. lia.
Qed.

Lemma write_frame (st st' : store) (r i : nat) (v : ext) :
  write st r i v = Ok st' ->
  length st' = length st /\ forall x, x <> r -> nth_error st' x = nth_error st x.
Proof.
  unfold write, rbind. destruct (load st r); [|discriminate].
  destruct (py_set l i v); [|discriminate]. apply py_set_frame.
Qed.

Lemma relax_frame (costs distances seen i : nat) (edges : list (nat * nat))
    (st st' : store) (h h' : list hitem) :
  relax costs distances seen i edges st h = Ok (st', h') ->
  length st' = length st /\ forall x, x <> seen -> nth_error st' x = nth_error st x.
Proof.
  revert st h; induction edges as [|[out_link j] edges IH]; intros st h H;
    cbn [relax] in H.
  - injection H as <- _. split; reflexivity.
  - unfold rbind in H.
    destruct (read st distances i) as [di|e1]; [|discriminate].
    destruct (read st costs out_link) as [c|e2]; [|discriminate].
    destruct (read st seen j) as [sj|e3]; [|discriminate].
    destruct (_ || _).
    + destruct (write st seen j _) as [st1|e4] eqn:Ew; [|discriminate].
      destruct (write_frame _ _ _ _ _ Ew) as [Hl1 Hx1].
      destruct (IH _ _ H) as [Hl2 Hx2].
      split; [congruence|]. intros x Hx. rewrite Hx2, Hx1 by exact Hx. reflexivity.
    + exact (IH _ _ H).
Qed.

Lemma dijkstra_loop_frame (fuel : nat) (costs : ref) (out_links : csr_matrix nat)
    (distances seen : ref) (st st' : store) (h : list hitem) :
  dijkstra_loop fuel costs out_links distances seen st h = Some (Ok st') ->
  length st' = length st /\
  forall x, x <> distances -> x <> seen -> nth_error st' x = nth_error st x.
Proof.
  revert st h; induction fuel as [|fuel IH]; intros st [|[d i] h] H;
    cbn [dijkstra_loop] in H; try discriminate.
  - injection H as <-. split; reflexivity.
  - injection H as <-. split; reflexivity.
  - destruct (read st distances i) as [di|e]; [|discriminate].
    destruct (negb (ext_eqb di EInf)); [exact (IH _ _ H)|].
    destruct (write st distances i d) as [st1|e] eqn:Ew; [|discriminate].
    destruct (write_frame _ _ _ _ _ Ew) as [Hl1 Hx1].
    destruct (get_nnz out_links i) as [ls|e1]; [|discriminate].
    destruct (get_row out_links i) as [js|e2]; [|destruct ls; discriminate].
    destruct (relax costs distances seen i (combine ls js) st1 h)
      as [[st2 h2]|e] eqn:Er; [|discriminate].
    destruct (relax_frame _ _ _ _ _ _ _ _ _ Er) as [Hl2 Hx2].
    destruct (IH _ _ H) as [Hl3 Hx3].
    split; [congruence|]. intros x Hd Hs.
    rewrite Hx3, Hx2, Hx1 by assumption. reflexivity.
Qed.

Lemma nth_error_app_lt {A} (l l' : list A) (x : nat) :
  x < length l -> nth_error (l ++ l') x = nth_error l x.
Proof. apply nth_error_app1. Qed.

End DijkstraFacts.

Module DijkstraClaims.
Import Num CSR Dijkstra DijkstraFacts.

(** C10 *)
(** Claim C10 (frame): when [dijkstra] returns, every array that existed
    before the call, the caller's [distances] among them, holds what it held
    before; the array returned is a new one, allocated by the call. *)
Theorem dijkstra_keeps_caller_distances (fuel : nat) (st st' : store)
    (costs : ref) (out_links : csr_matrix nat) (source : nat)
    (distances r : ref) :
  dijkstra fuel st costs out_links source distances = Some (Ok (st', r)) ->
  nth_error st' distances = nth_error st distances /\
  r = length st /\
  (forall x, x < length st -> nth_error st' x = nth_error st x).
Proof.
  unfold dijkstra. intros H.
  destruct (load st distances) as [darr|e] eqn:Ed; [|discriminate].
  unfold load, py_get in Ed.
  destruct (nth_error st distances) eqn:En; [|discriminate].
  assert (Hd : distances < length st)
    by (apply nth_error_Some; congruence).
  cbn [alloc] in H.
  destruct (load (st ++ [repeat EInf (length darr)]) (length st)) as [a|e] eqn:Ea;
    [|discriminate].
  destruct (write ((st ++ [repeat EInf (length darr)]) ++ [a])
              (length (st ++ [repeat EInf (length darr)])) source
              (EFin (Q2Qc 0))) as [st3|e] eqn:Ew; [|discriminate].
  destruct (dijkstra_loop fuel costs out_links (length st)
              (length (st ++ [repeat EInf (length darr)])) st3
              [(EFin (Q2Qc 0), source)]) as [[st4|e]|] eqn:El;
    [|discriminate|discriminate].
  injection H as <- <-.
  destruct (write_frame _ _ _ _ _ Ew) as [_ Hx1].
  destruct (dijkstra_loop_frame _ _ _ _ _ _ _ _ El) as [_ Hx2].
  assert (Hall : forall x, x < length st -> nth_error st4 x = nth_error st x).
  { intros x Hx. rewrite length_app in *. cbn [length] in *.
    rewrite Hx2, Hx1 by (rewrite ?length_app; cbn [length]; lia).
    rewrite !nth_error_app1 by (rewrite ?length_app; cbn [length]; lia).
    reflexivity. }
  split; [rewrite <- En; now apply Hall|]. split; [reflexivity|exact Hall].
Qed.

(** C10 *)
Lemma dijkstra_keeps_caller_distances_witness :
  dijkstra 10 ex_store 0 ex_out_links 0 1
    = Some (Ok (ex_store ++
                [[EFin (Q2Qc 0); EFin (Q2Qc 1); EFin (Q2Qc 3)];
                 [EFin (Q2Qc 0); EFin (Q2Qc 1); EFin (Q2Qc 3)]], 2)) /\
  nth_error (ex_store ++
             [[EFin (Q2Qc 0); EFin (Q2Qc 1); EFin (Q2Qc 3)];
              [EFin (Q2Qc 0); EFin (Q2Qc 1); EFin (Q2Qc 3)]]) 1
    = nth_error ex_store 1.
Proof.
  assert (H : dijkstra 10 ex_store 0 ex_out_links 0 1
    = Some (Ok (ex_store ++
                [[EFin (Q2Qc 0); EFin (Q2Qc 1); EFin (Q2Qc 3)];
                 [EFin (Q2Qc 0); EFin (Q2Qc 1); EFin (Q2Qc 3)]], 2)))
    by (vm_compute; reflexivity).
  split; [exact H|].
  exact (proj1 (dijkstra_keeps_caller_distances 10 ex_store _ 0 ex_out_links 0 1 2 H)).
Defined.

End DijkstraClaims.

(* ------------------------------------------------------------------ *)
(** ** [csr.py]: the [CSRMatrix] object built by [csr_new] *)

Module CSRObjectFacts.
Import CSR CSRFacts CSRClaims CSRRoundTrip.

Lemma nnz_rows_loop_filter {A} (m : csr_matrix A) (P : nat -> bool) rows :
  (forall r, In r rows -> exists cols, get_nnz m r = Ok cols /\ (0 <? length cols) = P r) ->
  nnz_rows_loop m rows = Ok (filter P rows).
Proof.
  induction rows as [|r rows IH]; intros H; simpl; [reflexivity|].
  destruct (H r (or_introl eq_refl)) as [cols [Hc HP]].
  rewrite Hc; simpl. rewrite IH by (intros r' Hr'; apply H; now right).
  simpl. rewrite HP. destruct (P r); reflexivity.
Qed.

Lemma length_filter_pos {X} (P : X -> bool) l :
  (0 <? length (filter P l)) = existsb P l.
Proof.
  induction l as [|x l IH]; simpl; [reflexivity|].
  destruct (P x); simpl; [reflexivity|assumption].
Qed.

Lemma existsb_perm {X} (P : X -> bool) l l' :
  Permutation l l' -> existsb P l = existsb P l'.
Proof.
  intros Hp. destruct (existsb P l) eqn:E1, (existsb P l') eqn:E2; try reflexivity.
  - apply existsb_exists in E1 as [x [Hx HPx]].
    assert (existsb P l' = true) by
      (apply existsb_exists; exists x; split; [now apply (Permutation_in _ Hp)|assumption]).
    congruence.
  - apply existsb_exists in E2 as [x [Hx HPx]].
    assert (existsb P l = true) by
      (apply existsb_exists; exists x; split;
       [now apply (Permutation_in _ (Permutation_sym Hp))|assumption]).
    congruence.
Qed.

Lemma length_offsets es k : length (offsets es k) = k.
Proof. unfold offsets. now rewrite length_map, length_seq. Qed.

Lemma cnt_lt_le r es : cnt_lt r es <= length es.
Proof. unfold cnt_lt. apply filter_length_le. Qed.

(** The state after [csr_prep] on input that is not a single entry. *)
Lemma csr_prep_sorted_form {A} (ia : list entry) (values : list A) shape vs col row :
  csr_prep ia values shape true = Ok (vs, col, row) ->
  length ia <> 1 ->
  exists es, csr_sort ia values (snd shape) = Ok (es, vs) /\
    StronglySorted fst_le es /\ Permutation ia es /\ length vs = length ia /\
    (forall e, In e ia -> fst e < fst shape /\ snd e < snd shape) /\
    col = map snd es /\ row = offsets es (S (fst shape)).
Proof.
  intros Ep H1.
  apply csr_prep_inv in Ep as [Hne [Hb [es [Hs Hf]]]].
  destruct (csr_sort_sorted ia values (snd shape) es vs) as [Hsrt [Hperm Hlv]];
    [intros e He; specialize (Hb e He); lia | assumption |].
  pose proof (Permutation_length Hperm) as Hle.
  assert (Hes : es <> []).
  { intros ->. apply Permutation_sym, Permutation_nil in Hperm. contradiction. }
  assert (Hin : forall e, In e es -> fst e < fst shape).
  { intros e He. apply (Permutation_in _ (Permutation_sym Hperm)) in He.
    apply (Hb e He). }
  rewrite (csr_format_sorted es Hsrt (fst shape) ltac:(lia) Hes Hin) in Hf.
  inversion Hf; subst col row.
  exists es. repeat (split; [assumption|]). split; reflexivity.
Qed.

Lemma get_nnz_offsets {A} (vs : list A) es n r :
  r < n ->
  get_nnz (mk_csr vs (map snd es) (offsets es (S n))) r
  = Ok (py_slice (map snd es) (cnt_lt r es) (cnt_lt (S r) es)).
Proof.
  intros Hr. unfold get_nnz, py_get; cbn [csr_row_index csr_col_index].
  rewrite !nth_error_offsets by lia. reflexivity.
Qed.

Lemma get_nnz_offsets_out {A} (vs : list A) es n r :
  n <= r -> get_nnz (mk_csr vs (map snd es) (offsets es (S n))) r = Err IndexError.
Proof.
  intros Hr. unfold get_nnz, py_get; cbn [csr_row_index csr_col_index].
  assert (HS : nth_error (offsets es (S n)) (S r) = None)
    by (apply nth_error_None; rewrite length_offsets; lia).
  destruct (nth_error (offsets es (S n)) r); cbn [rbind]; [rewrite HS|]; reflexivity.
Qed.

Lemma get_row_offsets_out {A} (vs : list A) es n r :
  n <= r -> get_row (mk_csr vs (map snd es) (offsets es (S n))) r = Err IndexError.
Proof.
  intros Hr. unfold get_row, py_get; cbn [csr_row_index csr_values].
  assert (HS : nth_error (offsets es (S n)) (S r) = None)
    by (apply nth_error_None; rewrite length_offsets; lia).
  destruct (nth_error (offsets es (S n)) r); cbn [rbind]; [rewrite HS|]; reflexivity.
Qed.

Lemma length_slice_row es r :
  length (py_slice (map snd es) (cnt_lt r es) (cnt_lt (S r) es))
  = length (filter (fun e => fst e =? r) es).
Proof.
  unfold py_slice. rewrite length_firstn, length_skipn, length_map.
  pose proof (cnt_lt_S r es). pose proof (cnt_lt_le (S r) es). rewrite H in H0 |- *. rewrite Nat.add_comm, Nat.add_sub. apply Nat.min_l. apply Nat.le_add_le_sub_l. exact H0.
Qed.

(** Lexicographic order on entries: by row, then by column. *)
Definition lex_le (a b : entry) : Prop :=
  fst a < fst b \/ (fst a = fst b /\ snd a <= snd b).

Lemma item_le_lex nc a b :
  good_item nc a -> good_item nc b -> item_le a b -> lex_le (proj a) (proj b).
Proof.
  destruct a as [[[k1 i1] j1] x1], b as [[[k2 i2] j2] x2].
  unfold good_item, item_le, lex_le; simpl.
  intros [-> Hj1] [-> Hj2] H.
  apply Bool.orb_false_iff in H as [H _]. apply Nat.ltb_ge in H.
  destruct (Nat.lt_trichotomy i1 i2) as [Hlt|[Heq|Hgt]].
  - now left.
  - right. subst. split; [reflexivity|lia].
  - exfalso. assert (i2 * (nc + 1) + nc < i1 * (nc + 1)) by nia. lia.
Qed.

Lemma sorted_map_proj_lex nc h :
  Sorted item_le h -> Forall (good_item nc) h -> Sorted lex_le (map proj h).
Proof.
  induction 1 as [|x h Hs IH Hhd]; intros Hg; simpl; [constructor|].
  inversion Hg as [|? ? Hx Hh]; subst.
  constructor; [now apply IH|].
  destruct Hhd as [|y h' Hxy]; simpl; constructor.
  inversion Hh; subst. now apply (item_le_lex nc).
Qed.

(** [__csr_sort] orders the entries by row and, within a row, by column. *)
Lemma csr_sort_lex {A} (ia : list entry) (values : list A) nc es vs :
  (forall e, In e ia -> snd e <= nc) ->
  csr_sort ia values nc = Ok (es, vs) -> StronglySorted lex_le es.
Proof.
  intros Hj H. rewrite csr_sort_drain in H.
  apply drain_entries in H as [-> _].
  pose proof (push_all_perm ia [] 0 nc) as Hp. simpl in Hp.
  pose proof (push_all_sorted ia [] 0 nc (Sorted_nil _)) as Hs.
  apply Sorted_StronglySorted; [unfold lex_le; intros ???; lia|].
  apply (sorted_map_proj_lex nc); [assumption|].
  eapply Permutation_Forall; [exact Hp|]. now apply items_good.
Qed.

Lemma sorted_cols_of_row (es : list entry) r :
  StronglySorted lex_le es ->
  StronglySorted le (map snd (filter (fun e => fst e =? r) es)).
Proof.
  induction 1 as [|e es Hs IH Hall]; simpl; [constructor|].
  destruct (Nat.eqb_spec (fst e) r) as [He|He]; simpl; [|assumption].
  constructor; [assumption|].
  apply Forall_forall. intros c Hc. apply in_map_iff in Hc as [e' [<- Hin]].
  apply filter_In in Hin as [Hin He'']. apply Nat.eqb_eq in He''.
  rewrite Forall_forall in Hall. specialize (Hall e' Hin). unfold lex_le in Hall. lia.
Qed.

Lemma slice_map_snd {X Y} (es : list (X * Y)) a b :
  py_slice (map snd es) a b = map snd (py_slice es a b).
Proof. unfold py_slice. now rewrite skipn_map, firstn_map. Qed.

End CSRObjectFacts.

Module CSRObjectClaims.
Import CSR CSRFacts CSRClaims CSRRoundTrip CSRObjectFacts.

(** In the unbounded model, a [CSRMatrix] built from [csr_prep] on an
    [index_array] that is not a single entry lists in [get_nnz_rows()] exactly the rows that hold an
    entry, in increasing order, and its [_number_of_rows] is one less than the
    number of rows of [shape], taken modulo [2^32] by its [uint32] field. *)
Lemma csr_new_nnz_rows_unbounded {A} (ia : list entry) (values : list A)
    (shape : nat * nat) (o : csr_object A) :
  csr_new ia values shape = Ok o ->
  length ia <> 1 ->
  get_nnz_rows o = filter (fun r => existsb (fun e => fst e =? r) ia) (seq 0 (fst shape)) /\
  _number_of_rows o = ((Z.of_nat (fst shape) - 1) mod 2 ^ 32)%Z.
Proof.
  unfold csr_new. intros Hc H1.
  destruct (csr_prep ia values shape true) as [[[vs col] row]|err] eqn:Ep;
    cbn [rbind] in Hc; [|discriminate].
  destruct (csr_prep_sorted_form ia values shape vs col row Ep H1)
    as [es [_ [_ [Hperm [_ [_ [-> ->]]]]]]].
  unfold CSRMatrix_init, __set_nnz_rows in Hc; cbn [csr_row_index] in Hc.
  rewrite length_offsets, Nat.sub_1_r, Nat.pred_succ in Hc.
  replace (Z.of_nat (S (fst shape)) - 2)%Z with (Z.of_nat (fst shape) - 1)%Z in Hc by lia.
  rewrite (nnz_rows_loop_filter _ (fun r => existsb (fun e => fst e =? r) ia)) in Hc.
  - cbn [rbind] in Hc. injection Hc as <-. unfold get_nnz_rows; cbn [_nnz_rows _number_of_rows].
    split; reflexivity.
  - intros r Hr. apply in_seq in Hr.
    eexists. split; [apply get_nnz_offsets; lia|].
    rewrite length_slice_row, length_filter_pos.
    apply existsb_perm, Permutation_sym, Hperm.
Qed.

(** X4 *)
(** A [CSRMatrix] built from [csr_prep] on a single entry reports no row
    with entries in [get_nnz_rows()], and [_number_of_rows] equals the number
    of rows of [shape] modulo [2^32]. *)
Theorem csr_new_single_entry {A} (ia : list entry) (values : list A)
    (shape : nat * nat) (o : csr_object A) :
  csr_new ia values shape = Ok o ->
  length ia = 1 ->
  get_nnz_rows o = [] /\ _number_of_rows o = (Z.of_nat (fst shape) mod 2 ^ 32)%Z.
Proof.
  unfold csr_new. intros Hc H1.
  destruct (csr_prep ia values shape true) as [[[vs col] row]|err] eqn:Ep;
    cbn [rbind] in Hc; [|discriminate].
  apply csr_prep_inv in Ep as [_ [Hb [es [Hs Hf]]]].
  destruct (csr_sort_sorted ia values (snd shape) es vs) as [_ [Hperm _]];
    [intros e He; specialize (Hb e He); lia | assumption |].
  pose proof (Permutation_length Hperm) as Hle.
  rewrite (csr_format_single es (fst shape)) in Hf by lia.
  injection Hf as <- <-.
  unfold CSRMatrix_init, __set_nnz_rows in Hc; cbn [csr_row_index] in Hc.
  change (length (0 :: 0 :: repeat 0 (fst shape)))
    with (S (S (length (repeat 0 (fst shape))))) in Hc.
  rewrite repeat_length in Hc.
  replace (Z.of_nat (S (S (fst shape))) - 2)%Z with (Z.of_nat (fst shape)) in Hc by lia.
  rewrite (nnz_rows_loop_filter _ (fun _ => false)) in Hc.
  - cbn [rbind] in Hc. injection Hc as <-. unfold get_nnz_rows; cbn [_nnz_rows _number_of_rows].
    split; [now apply filter_none|reflexivity].
  - intros r Hr. apply in_seq in Hr.
    exists []. split; [|reflexivity].
    unfold get_nnz, py_get; cbn [csr_row_index csr_col_index].
    change (0 :: 0 :: repeat 0 (fst shape)) with (repeat 0 (S (S (fst shape)))).
    rewrite (@nth_error_repeat _ 0 (S (S (fst shape))) r) by lia. cbn [rbind].
    rewrite (@nth_error_repeat _ 0 (S (S (fst shape))) (S r)) by lia. reflexivity.
Qed.

(** X4 *)
Lemma csr_new_single_entry_witness :
  csr_new [(1, 2)] [7] (3, 3) = Ok (mk_csr_object (mk_csr [7] [] [0; 0; 0; 0; 0]) [] 3%Z) /\
  get_nnz_rows (mk_csr_object (mk_csr [7] [] [0; 0; 0; 0; 0]) [] 3%Z) = [] /\
  _number_of_rows (mk_csr_object (mk_csr [7] [] [0; 0; 0; 0; 0]) [] 3%Z)
    = (Z.of_nat 3 mod 2 ^ 32)%Z.
Proof.
  split; [reflexivity|].
  apply (csr_new_single_entry [(1, 2)] [7] (3, 3)); reflexivity.
Defined.

(** In the unbounded model, on a CSR matrix built by construction, every [get_nnz(r)] that returns
    lists the columns of row [r] in non-decreasing order: [__csr_sort] breaks
    ties between entries of one row by their column. *)
Lemma csr_get_nnz_sorted_unbounded {A} (ia : list entry) (values : list A)
    (shape : nat * nat) (m : csr_matrix A) (r : nat) (cols : list nat) :
  construct ia values shape = Ok m ->
  get_nnz m r = Ok cols ->
  StronglySorted le cols.
Proof.
  unfold construct. intros Hc Hg.
  destruct (csr_prep ia values shape true) as [[[vs col] row]|err] eqn:Ep;
    cbn [rbind] in Hc; [|discriminate].
  inversion Hc; subst m; clear Hc.
  destruct (Nat.eq_dec (length ia) 1) as [H1|H1].
  - apply csr_prep_inv in Ep as [_ [Hb [es [Hs Hf]]]].
    destruct (csr_sort_sorted ia values (snd shape) es vs) as [_ [Hperm _]];
      [intros e He; specialize (Hb e He); lia | assumption |].
    pose proof (Permutation_length Hperm) as Hle.
    rewrite (csr_format_single es (fst shape)) in Hf by lia.
    inversion Hf; subst col row.
    unfold get_nnz in Hg; cbn [csr_col_index] in Hg.
    destruct (py_get _ r); cbn [rbind] in Hg; [|discriminate].
    destruct (py_get _ (S r)); cbn [rbind] in Hg; [|discriminate].
    inversion Hg; subst cols. unfold py_slice. rewrite skipn_nil, firstn_nil.
    constructor.
  - destruct (csr_prep_sorted_form ia values shape vs col row Ep H1)
      as [es [Hs [Hsrt [_ [_ [Hb [-> ->]]]]]]].
    destruct (Nat.lt_ge_cases r (fst shape)) as [Hr|Hr].
    2: { rewrite get_nnz_offsets_out in Hg by assumption. discriminate. }
    rewrite get_nnz_offsets in Hg by assumption. inversion Hg; subst cols.
    assert (Hlex : StronglySorted lex_le es).
    { apply (csr_sort_lex ia values (snd shape) es vs); [|assumption].
      intros e He. specialize (Hb e He). lia. }
    change (cnt_lt r es) with (cntk (@fst nat nat) r es).
    change (cnt_lt (S r) es) with (cntk (@fst nat nat) (S r) es).
    rewrite slice_map_snd, (slice_cntk fst r es Hsrt).
    now apply sorted_cols_of_row.
Qed.

End CSRObjectClaims.

Module CSRMachineFacts.
Import CSR CSRFacts CSRClaims CSRObjectFacts CSRMachine.

(** A [Done] machine result where the unbounded model returns; the
    unbounded model's [IndexError] is unchecked indexing in numba. *)
Definition unchecked {A} (r : result A) : outcome A :=
  match r with Ok a => Done a | Err _ => Unspecified end.

Lemma u32_id n : (Z.of_nat n < 2 ^ 32)%Z -> u32 n = n.
Proof.
  intros H. unfold u32. rewrite Z.mod_small by lia. apply Nat2Z.id.
Qed.

Lemma u64_id n : (Z.of_nat n < 2 ^ 64)%Z -> u64 n = n.
Proof.
  intros H. unfold u64. rewrite Z.mod_small by lia. apply Nat2Z.id.
Qed.

Lemma u32_0 : u32 0 = 0.
Proof. reflexivity. Qed.

Definition small (n : nat) : Prop := (Z.of_nat n < 2 ^ 32)%Z.

Lemma push_all_bridge (ia : list entry) : forall h index nc,
  (forall e, In e ia -> small (fst e) /\ small (snd e)) -> small nc ->
  (Z.of_nat (index + length ia) <= 2 ^ 32)%Z ->
  CSRMachine.push_all h ia index nc = CSR.push_all h ia index nc.
Proof.
  unfold small.
  induction ia as [|[i j] ia IH]; intros h index nc Hb Hnc Hl; cbn [CSRMachine.push_all CSR.push_all];
    [reflexivity|].
  destruct (Hb (i, j) (or_introl eq_refl)) as [Hi Hj]; cbn [fst snd] in Hi, Hj.
  cbn [length] in Hl.
  rewrite !u64_id by nia.
  apply IH; [intros e He; apply Hb; now right | assumption | lia].
Qed.

Definition item_small (x : item) : Prop :=
  let '(_, i, j, index) := x in small i /\ small j /\ small index.

Lemma items_small (ia : list entry) : forall index nc,
  (forall e, In e ia -> small (fst e) /\ small (snd e)) ->
  (Z.of_nat (index + length ia) <= 2 ^ 32)%Z ->
  Forall item_small (items ia index nc).
Proof.
  unfold small.
  induction ia as [|[i j] ia IH]; intros index nc Hb Hl; cbn [items]; constructor.
  - destruct (Hb (i, j) (or_introl eq_refl)) as [Hi Hj]. cbn [length] in Hl.
    unfold item_small, small. repeat split; try assumption. lia.
  - apply IH; [intros e He; apply Hb; now right | cbn [length] in Hl; lia].
Qed.

Lemma drain_bridge {A} (values : list A) h :
  Forall item_small h ->
  CSRMachine.drain values h = unchecked (CSR.drain values h).
Proof.
  induction h as [|[[[k i] j] x] h IH]; intros Hs; [reflexivity|].
  inversion Hs as [|? ? Hx0 Hs']; subst.
  destruct Hx0 as [Hi [Hj Hx]].
  cbn [CSRMachine.drain CSR.drain]. rewrite !u32_id by assumption.
  unfold jget, py_get. destruct (nth_error values x) as [v|]; [|reflexivity].
  cbn [obind rbind]. rewrite (IH Hs').
  destruct (CSR.drain values h) as [[es vs]|e]; reflexivity.
Qed.

Lemma csr_sort_bridge {A} (ia : list entry) (values : list A) nc x :
  (forall e, In e ia -> small (fst e) /\ small (snd e)) -> small nc ->
  small (length ia) ->
  CSRMachine.csr_sort ia values nc = Done x ->
  CSR.csr_sort ia values nc = Ok x /\ length values = length ia.
Proof.
  intros Hb Hnc Hl H. unfold CSRMachine.csr_sort in H.
  unfold small in Hl.
  rewrite push_all_bridge in H; [| assumption | assumption | ].
  2: lia.
  rewrite push_all_init in H.
  cbn [heappop] in H.
  rewrite drain_bridge in H.
  2: { eapply Permutation_Forall; [apply (push_all_perm ia [] 0 nc)|].
       apply items_small; [assumption | lia]. }
  rewrite csr_sort_drain.
  match type of H with context [unchecked ?t] => destruct t as [[es vs]|e] eqn:Ed end;
    cbn [unchecked obind] in H; [|discriminate].
  destruct (Nat.eqb_spec (length values) (length ia)); [|discriminate].
  injection H as <-. split; [exact Ed | assumption].
Qed.

Lemma skipn_length_cons (ia : list entry) n x r :
  skipn n ia = x :: r -> n < length ia /\ skipn (S n) ia = r.
Proof.
  revert n; induction ia as [|y ia IH]; intros [|n] H; cbn in H |- *; try discriminate.
  - injection H as -> ->. split; [lia | reflexivity].
  - destruct (IH n H). split; [lia | assumption].
Qed.

Lemma format_inner_bridge (ia : list entry) i pe (rest : list entry) : forall eir cnt col row,
  small (length ia) ->
  skipn (pe + eir) ia = rest ->
  (Z.of_nat (cnt + length rest) < 2 ^ 32 \/
   exists x r, rest = x :: r /\ i <> fst x)%Z ->
  CSRMachine.format_inner ia i pe rest eir cnt col row
  = CSR.format_inner ia i pe rest eir cnt col row.
Proof.
  unfold small.
  induction rest as [|x r IH]; intros eir cnt col row Hl Hsk Hc; [reflexivity|].
  cbn [CSRMachine.format_inner CSR.format_inner].
  destruct (skipn_length_cons ia (pe + eir) x r Hsk) as [Hlt Hsk'].
  rewrite (u32_id (pe + eir)) by lia.
  destruct (Nat.eqb_spec i (fst x)) as [Heq|Hne]; [|reflexivity].
  destruct Hc as [Hc | [x' [r' [Hx' Hne]]]].
  2: { injection Hx' as -> ->. contradiction. }
  cbn [length] in Hc.
  rewrite (u32_id (S eir)), (u32_id (S cnt)) by lia.
  apply IH; [assumption | now rewrite Nat.add_succ_r | left; lia].
Qed.

Lemma format_outer_bridge (ia : list entry) (Hs : StronglySorted fst_le ia) k : forall i st,
  outer_inv ia i st -> small (length ia) -> (Z.of_nat (k + i) <= 2 ^ 32)%Z ->
  CSRMachine.format_outer ia k i false st = CSR.format_outer ia k i false st.
Proof.
  induction k as [|k IH]; intros i [[[pe cnt] col] row] Hinv Hl Hk; [reflexivity|].
  cbn [CSRMachine.format_outer CSR.format_outer].
  unfold small in Hl.
  rewrite (u32_id i) by lia.
  rewrite format_inner_bridge; [| unfold small; assumption | now rewrite Nat.add_0_r |].
  - apply IH; [now apply outer_step | assumption | lia].
  - destruct Hinv as [[_ Hst] | [_ [pe' [x [r [Hsk [Hx Hst]]]]]]].
    + unfold state_A in Hst. injection Hst as -> -> _ _. left.
      rewrite length_skipn. pose proof (cnt_lt_le i ia). lia.
    + injection Hst as -> -> _ _. right. exists x, r. split; [assumption | lia].
Qed.

Lemma format_outer_empty_bridge (ia : list entry) k : forall i st,
  CSRMachine.format_outer ia k i true st = CSR.format_outer ia k i true st.
Proof.
  induction k as [|k IH]; intros i [[[pe cnt] col] row]; [reflexivity|].
  cbn [CSRMachine.format_outer CSR.format_outer]. apply IH.
Qed.

Lemma map_u32_id l : (forall n, In n l -> small n) -> map u32 l = l.
Proof.
  intros H. rewrite <- map_id. apply map_ext_in. intros n Hn. now apply u32_id, H.
Qed.

Lemma csr_format_bridge (ia : list entry) n :
  StronglySorted fst_le ia -> ia <> [] ->
  (forall e, In e ia -> fst e < n /\ small (snd e)) ->
  small n -> small (length ia) ->
  CSRMachine.csr_format ia n = CSR.csr_format ia n.
Proof.
  intros Hs Hne Hb Hn Hl.
  destruct (Nat.eq_dec (length ia) 1) as [H1|H1].
  - rewrite (csr_format_single ia n H1).
    unfold CSRMachine.csr_format. rewrite H1. cbn [Nat.eqb].
    rewrite format_outer_empty_bridge, format_outer_empty. cbn [map app].
    rewrite u32_0, map_repeat, u32_0. reflexivity.
  - rewrite (csr_format_sorted ia Hs n H1 Hne) by (intros e He; apply (Hb e He)).
    unfold CSRMachine.csr_format.
    replace (length ia =? 1) with false by (symmetry; now apply Nat.eqb_neq).
    rewrite format_outer_bridge.
    + pose proof (csr_format_sorted ia Hs n H1 Hne
        ltac:(intros e He; apply (Hb e He))) as Hf.
      unfold CSR.csr_format in Hf.
      replace (length ia =? 1) with false in Hf by (symmetry; now apply Nat.eqb_neq).
      destruct (CSR.format_outer ia (S n) 0 false (0, 0, [], [0]))
        as [[[pe cnt] col] row].
      injection Hf as -> ->.
      rewrite !map_u32_id; [reflexivity| |].
      * intros r Hr. unfold offsets in Hr. apply in_map_iff in Hr as [k [<- _]].
        unfold small in *. pose proof (cnt_lt_le k ia). lia.
      * intros c Hc. apply in_map_iff in Hc as [e [<- He]]. apply (Hb e He).
    + assumption.
    + left. split.
      * destruct ia as [|e l]; [contradiction|]. exists e. split; [now left | lia].
      * assert (H0 : cnt_lt 0 ia = 0).
        { unfold cnt_lt. rewrite filter_none; [reflexivity|].
          intros x _. apply Nat.ltb_ge. lia. }
        unfold state_A, offsets. cbn [seq map]. rewrite H0. reflexivity.
    + assumption.
    + unfold small in Hn. lia.
Qed.

Lemma csr_prep_bridge {A} (ia : list entry) (values : list A) shape x :
  small (fst shape) -> small (snd shape) -> small (length ia) ->
  CSRMachine.csr_prep ia values shape true = Done x ->
  CSR.csr_prep ia values shape true = Ok x /\ length values = length ia.
Proof.
  intros Hr Hc Hl H.
  unfold CSRMachine.csr_prep in H. unfold CSR.csr_prep.
  destruct ia as [|e0 ia0] eqn:Eia; [discriminate|]. rewrite <- Eia in H, Hl |- *.
  destruct ((Z.of_nat (max_list (map snd ia)) >? Z.of_nat (snd shape) - 1)
            || (Z.of_nat (max_list (map fst ia)) >? Z.of_nat (fst shape) - 1))%Z
    eqn:Echeck; [discriminate|].
  apply Bool.orb_false_iff in Echeck as [Ec Er].
  rewrite Z.gtb_ltb, Z.ltb_ge in Ec, Er.
  assert (Hb : forall e, In e ia -> fst e < fst shape /\ snd e < snd shape).
  { intros e He. split.
    + pose proof (max_list_ge (fst e) (map fst ia) (in_map fst ia e He)). lia.
    + pose proof (max_list_ge (snd e) (map snd ia) (in_map snd ia e He)). lia. }
  unfold small in *.
  destruct (CSRMachine.csr_sort ia values (snd shape)) as [[es vs]| |] eqn:Es;
    cbn [obind] in H; try discriminate.
  apply csr_sort_bridge in Es as [Es Hlen];
    [| intros e He; specialize (Hb e He); unfold small; lia | unfold small; lia | unfold small; lia].
  rewrite Es. cbn [rbind].
  destruct (csr_sort_sorted ia values (snd shape) es vs) as [Hsrt [Hperm _]];
    [intros e He; specialize (Hb e He); lia | assumption |].
  pose proof (Permutation_length Hperm) as Hle.
  rewrite csr_format_bridge in H.
  - destruct (CSR.csr_format es (fst shape)) as [col row].
    injection H as <-. split; [reflexivity | assumption].
  - assumption.
  - intros ->. apply Permutation_sym, Permutation_nil in Hperm. subst ia. discriminate.
  - intros e He. apply (Permutation_in _ (Permutation_sym Hperm)) in He.
    specialize (Hb e He). unfold small. lia.
  - assumption.
  - unfold small. lia.
Qed.

Lemma construct_bridge {A} (ia : list entry) (values : list A) shape m :
  small (fst shape) -> small (snd shape) -> small (length ia) ->
  CSRMachine.construct ia values shape = Done m ->
  CSR.construct ia values shape = Ok m /\ length values = length ia.
Proof.
  intros Hr Hc Hl H. unfold CSRMachine.construct in H. unfold CSR.construct.
  destruct (CSRMachine.csr_prep ia values shape true) as [[[vs col] row]| |] eqn:Ep;
    cbn [obind] in H; try discriminate.
  apply csr_prep_bridge in Ep as [-> Hlen]; [|assumption..].
  injection H as <-. split; [reflexivity | assumption].
Qed.

Lemma get_nnz_bridge {A} (m : csr_matrix A) r :
  CSRMachine.get_nnz m r = unchecked (CSR.get_nnz m r).
Proof.
  unfold CSRMachine.get_nnz, CSR.get_nnz, jget, py_get.
  destruct (nth_error (csr_row_index m) r); [|reflexivity].
  destruct (nth_error (csr_row_index m) (S r)); reflexivity.
Qed.

Lemma get_row_bridge {A} (m : csr_matrix A) r :
  CSRMachine.get_row m r = unchecked (CSR.get_row m r).
Proof.
  unfold CSRMachine.get_row, CSR.get_row, jget, py_get.
  destruct (nth_error (csr_row_index m) r); [|reflexivity].
  destruct (nth_error (csr_row_index m) (S r)); reflexivity.
Qed.

Lemma nnz_rows_loop_bridge {A} (m : csr_matrix A) rows :
  CSRMachine.nnz_rows_loop m rows = unchecked (CSR.nnz_rows_loop m rows).
Proof.
  induction rows as [|r rows IH]; [reflexivity|].
  cbn [CSRMachine.nnz_rows_loop CSR.nnz_rows_loop].
  rewrite get_nnz_bridge. destruct (CSR.get_nnz m r) as [cols|e]; [|reflexivity].
  cbn [unchecked obind rbind]. rewrite IH.
  destruct (CSR.nnz_rows_loop m rows); reflexivity.
Qed.

Lemma CSRMatrix_init_bridge {A} (values : list A) col row :
  (Z.of_nat (length row) <= 2 ^ 32 + 1)%Z ->
  CSRMachine.CSRMatrix_init values col row = unchecked (CSR.CSRMatrix_init values col row).
Proof.
  intros Hl. unfold CSRMachine.CSRMatrix_init, CSR.CSRMatrix_init,
    CSRMachine.__set_nnz_rows, CSR.__set_nnz_rows; cbn [csr_row_index].
  rewrite map_u32_id.
  - rewrite nnz_rows_loop_bridge.
    destruct (CSR.nnz_rows_loop _ _); reflexivity.
  - intros n Hn. apply in_seq in Hn. unfold small. lia.
Qed.

Lemma csr_new_bridge {A} (ia : list entry) (values : list A) shape o :
  small (fst shape) -> small (snd shape) -> small (length ia) ->
  length ia <> 1 ->
  CSRMachine.csr_new ia values shape = Done o ->
  CSR.csr_new ia values shape = Ok o.
Proof.
  intros Hr Hc Hl H1 H. unfold CSRMachine.csr_new in H. unfold CSR.csr_new.
  destruct (CSRMachine.csr_prep ia values shape true) as [[[vs col] row]| |] eqn:Ep;
    cbn [obind] in H; try discriminate.
  apply csr_prep_bridge in Ep as [Ep _]; [|assumption..].
  rewrite Ep. cbn [rbind].
  destruct (csr_prep_sorted_form ia values shape vs col row Ep H1)
    as [es [_ [_ [_ [_ [_ [_ ->]]]]]]].
  rewrite CSRMatrix_init_bridge in H.
  - destruct (CSR.CSRMatrix_init vs col _); cbn [unchecked] in H; congruence.
  - rewrite length_offsets. unfold small in Hr. lia.
Qed.

End CSRMachineFacts.

Module CSRMachineClaims.
Import CSR CSRFacts CSRClaims CSRRoundTrip CSRObjectFacts CSRObjectClaims
  CSRMachine CSRMachineFacts.

(** X2 *)
(** Round trip of [csr_prep] at machine level, for a shape and an
    [index_array] below [2^32] and an [index_array] of any length but one:
    when [CSRMatrix( *csr_prep(index_array, values, shape))] is defined (so
    there is one value per entry) and [r] is below the number of rows,
    [get_nnz(r)] and [get_row(r)] are defined slices of the same length, and
    zipped together they are, up to order, the [(column, value)] pairs of the
    triples of row [r]. *)
Theorem csr_machine_roundtrip_rows {A} (ia : list entry) (values : list A)
    (shape : nat * nat) (m : csr_matrix A) (r : nat) :
  (Z.of_nat (fst shape) < 2 ^ 32)%Z ->
  (Z.of_nat (snd shape) < 2 ^ 32)%Z ->
  (Z.of_nat (length ia) < 2 ^ 32)%Z ->
  CSRMachine.construct ia values shape = Done m ->
  length ia <> 1 ->
  r < fst shape ->
  exists cols vals,
    CSRMachine.get_nnz m r = Done cols /\ CSRMachine.get_row m r = Done vals /\
    length cols = length vals /\
    Permutation (combine cols vals)
      (map (fun p => (snd (fst p), snd p))
         (filter (fun p => fst (fst p) =? r) (combine ia values))).
Proof.
  intros Hr Hc Hl H H1 Hlt.
  apply construct_bridge in H as [H Hlen]; [|assumption..].
  destruct (csr_roundtrip_rows_unbounded ia values shape m r H H1 Hlen Hlt)
    as [cols [vals [Hn [Hv [Hlc Hp]]]]].
  exists cols, vals.
  rewrite get_nnz_bridge, get_row_bridge, Hn, Hv.
  split; [reflexivity|]. split; [reflexivity|]. split; assumption.
Qed.

(** X2 *)
Lemma csr_machine_roundtrip_rows_witness :
  CSRMachine.construct [(2, 1); (0, 3); (2, 0)] [10; 20; 30] (4, 4)
    = Done (mk_csr [20; 30; 10] [3; 0; 1] [0; 1; 1; 3; 3]) /\
  exists cols vals,
    CSRMachine.get_nnz (mk_csr [20; 30; 10] [3; 0; 1] [0; 1; 1; 3; 3]) 2 = Done cols /\
    CSRMachine.get_row (mk_csr [20; 30; 10] [3; 0; 1] [0; 1; 1; 3; 3]) 2 = Done vals /\
    length cols = length vals /\
    Permutation (combine cols vals)
      (map (fun p => (snd (fst p), snd p))
         (filter (fun p => fst (fst p) =? 2)
            (combine [(2, 1); (0, 3); (2, 0)] [10; 20; 30]))).
Proof.
  split; [reflexivity|].
  apply (csr_machine_roundtrip_rows [(2, 1); (0, 3); (2, 0)] [10; 20; 30] (4, 4)).
  - simpl; lia.
  - simpl; lia.
  - simpl; lia.
  - reflexivity.
  - simpl; lia.
  - simpl; lia.
Defined.

(** X3 *)
(** A [CSRMatrix] built at machine level from [csr_prep] on an
    [index_array] that is not a single entry, for a shape and an
    [index_array] below [2^32], lists in [get_nnz_rows()] exactly the rows
    that hold an entry, in increasing order, and its [_number_of_rows] is one
    less than the number of rows of [shape], taken modulo [2^32] by its
    [uint32] field. *)
Theorem csr_machine_nnz_rows {A} (ia : list entry) (values : list A)
    (shape : nat * nat) (o : csr_object A) :
  (Z.of_nat (fst shape) < 2 ^ 32)%Z ->
  (Z.of_nat (snd shape) < 2 ^ 32)%Z ->
  (Z.of_nat (length ia) < 2 ^ 32)%Z ->
  CSRMachine.csr_new ia values shape = Done o ->
  length ia <> 1 ->
  get_nnz_rows o = filter (fun r => existsb (fun e => fst e =? r) ia) (seq 0 (fst shape)) /\
  _number_of_rows o = ((Z.of_nat (fst shape) - 1) mod 2 ^ 32)%Z.
Proof.
  intros Hr Hc Hl H H1.
  apply csr_new_bridge in H; [|assumption..].
  exact (csr_new_nnz_rows_unbounded ia values shape o H H1).
Qed.

(** X3 *)
Lemma csr_machine_nnz_rows_witness :
  CSRMachine.csr_new [(2, 1); (0, 3); (2, 0)] [10; 20; 30] (4, 4)
    = Done (mk_csr_object (mk_csr [20; 30; 10] [3; 0; 1] [0; 1; 1; 3; 3]) [0; 2] 3%Z) /\
  get_nnz_rows (mk_csr_object (mk_csr [20; 30; 10] [3; 0; 1] [0; 1; 1; 3; 3]) [0; 2] 3%Z)
    = filter (fun r => existsb (fun e => fst e =? r) [(2, 1); (0, 3); (2, 0)]) (seq 0 4) /\
  _number_of_rows (mk_csr_object (mk_csr [20; 30; 10] [3; 0; 1] [0; 1; 1; 3; 3]) [0; 2] 3%Z)
    = ((Z.of_nat 4 - 1) mod 2 ^ 32)%Z.
Proof.
  split; [reflexivity|].
  apply (csr_machine_nnz_rows [(2, 1); (0, 3); (2, 0)] [10; 20; 30] (4, 4)).
  - simpl; lia.
  - simpl; lia.
  - simpl; lia.
  - reflexivity.
  - simpl; lia.
Defined.

(** X6 *)
(** On a CSR matrix built at machine level, for a shape and an
    [index_array] below [2^32], every [get_nnz(r)] with a defined result
    lists the columns of row [r] in non-decreasing order: [__csr_sort] breaks
    ties between entries of one row by their column. *)
Theorem csr_machine_get_nnz_sorted {A} (ia : list entry) (values : list A)
    (shape : nat * nat) (m : csr_matrix A) (r : nat) (cols : list nat) :
  (Z.of_nat (fst shape) < 2 ^ 32)%Z ->
  (Z.of_nat (snd shape) < 2 ^ 32)%Z ->
  (Z.of_nat (length ia) < 2 ^ 32)%Z ->
  CSRMachine.construct ia values shape = Done m ->
  CSRMachine.get_nnz m r = Done cols ->
  StronglySorted le cols.
Proof.
  intros Hr Hc Hl H Hg.
  apply construct_bridge in H as [H _]; [|assumption..].
  rewrite get_nnz_bridge in Hg.
  destruct (CSR.get_nnz m r) as [cols'|e] eqn:Eg; cbn [unchecked] in Hg; [|discriminate].
  injection Hg as <-.
  exact (csr_get_nnz_sorted_unbounded ia values shape m r cols' H Eg).
Qed.

(** X6 *)
Lemma csr_machine_get_nnz_sorted_witness :
  CSRMachine.construct [(1, 3); (0, 2); (1, 0); (1, 2)] [1; 2; 3; 4] (2, 4)
    = Done (mk_csr [2; 3; 4; 1] [2; 0; 2; 3] [0; 1; 4]) /\
  CSRMachine.get_nnz (mk_csr [2; 3; 4; 1] [2; 0; 2; 3] [0; 1; 4]) 1 = Done [0; 2; 3] /\
  StronglySorted le [0; 2; 3].
Proof.
  split; [reflexivity|]. split; [reflexivity|].
  apply (csr_machine_get_nnz_sorted [(1, 3); (0, 2); (1, 0); (1, 2)] [1; 2; 3; 4] (2, 4)
           (mk_csr [2; 3; 4; 1] [2; 0; 2; 3] [0; 1; 4]) 1).
  - simpl; lia.
  - simpl; lia.
  - simpl; lia.
  - reflexivity.
  - reflexivity.
Defined.

End CSRMachineClaims.

(* ------------------------------------------------------------------ *)
(** ** [i_ltm.py]: [calc_sending_flows] and [calc_receiving_flows] *)

Module ILTMFlowFacts.
Import Num ILTM DijkstraFacts.
Local Open Scope Qc_scope.

Lemma py_set_same {A} (l l' : list A) (i : nat) (v : A) :
  py_set l i v = Ok l' -> nth_error l' i = Some v.
Proof.
  revert l' i; induction l as [|y l IH]; intros l' [|i] H; cbn in H;
    try discriminate.
  - now injection H as <-.
  - destruct (py_set l i v) as [r|e] eqn:E; cbn in H; [|discriminate].
    injection H as <-. cbn. now apply IH.
Qed.

Lemma py_get_ok {A} (l : list A) i x : py_get l i = Ok x -> nth_error l i = Some x.
Proof. unfold py_get. destruct (nth_error l i); congruence. Qed.

Lemma assign_row_ok (m m' : mat) i r :
  assign_row m i r = Ok m' ->
  nth_error m' i = Some r /\ forall j, j <> i -> nth_error m' j = nth_error m j.
Proof.
  unfold assign_row. destruct (py_get m i) as [old|e]; cbn [rbind]; [|discriminate].
  destruct (Nat.eqb (length old) (length r)); [|discriminate].
  intros H. split; [now apply (py_set_same m)|].
  apply (py_set_frame m m' i r H).
Qed.

Lemma py_set_ok {A} (l l' : list A) i v :
  py_set l i v = Ok l' ->
  nth_error l' i = Some v /\ forall j, j <> i -> nth_error l' j = nth_error l j.
Proof.
  intros H. split; [now apply (py_set_same l)|].
  apply (py_set_frame l l' i v H).
Qed.

Lemma Qcltb_true a b : Qcltb a b = true -> a < b.
Proof. unfold Qcltb. destruct (Qclt_le_dec a b); easy. Qed.

Lemma Qcltb_false a b : Qcltb a b = false -> b <= a.
Proof. unfold Qcltb. destruct (Qclt_le_dec a b); easy. Qed.

Lemma py_min_le_l a b : py_min a b <= a.
Proof.
  unfold py_min. destruct (Qcltb b a) eqn:E.
  - apply Qclt_le_weak. now apply Qcltb_true.
  - apply Qcle_refl.
Qed.

Lemma py_min_le_r a b : py_min a b <= b.
Proof.
  unfold py_min. destruct (Qcltb b a) eqn:E.
  - apply Qcle_refl.
  - now apply Qcltb_false.
Qed.

Lemma py_min_nonneg a b : 0 <= a -> 0 <= b -> 0 <= py_min a b.
Proof. unfold py_min. destruct (Qcltb b a); auto. Qed.

Lemma clamp_nonneg (row : vec) :
  Forall (fun x => Q0 <= x) (map (fun x => if Qcltb x Q0 then Q0 else x) row).
Proof.
  apply Forall_forall. intros y Hy. apply in_map_iff in Hy as [x [<- _]].
  destruct (Qcltb x Q0) eqn:E; [apply Qcle_refl|]. now apply Qcltb_false.
Qed.

Lemma qsum_nonneg_forall (row : vec) : Forall (fun x => Q0 <= x) row -> Q0 <= qsum row.
Proof.
  induction 1 as [|x row Hx _ IH]; [apply Qcle_refl|].
  unfold qsum in *; cbn [fold_right].
  change Q0 with (Q0 + Q0). apply Qcplus_le_compat; assumption.
Qed.

(** Destructs a chain of binds that returned [Ok]. *)
Ltac inv_ok H :=
  cbn [rbind] in H;
  lazymatch type of H with
  | rbind (if ?c then _ else _) _ = Ok _ =>
      let Ec := fresh "Ec" in destruct c eqn:Ec; inv_ok H
  | rbind ?m _ = Ok _ =>
      let E := fresh "E" in
      lazymatch type of m with
      | result (_ * _ * _) => destruct m as [[[? ?] ?]|?] eqn:E
      | result (_ * _) => destruct m as [[? ?]|?] eqn:E
      | _ => destruct m as [?|?] eqn:E
      end;
      cbn [rbind] in H; [|discriminate H];
      try inv_ok E;
      inv_ok H
  | (if ?c then _ else _) = Ok _ =>
      let Ec := fresh "Ec" in destruct c eqn:Ec; inv_ok H
  | Ok _ = Ok _ => injection H; clear H; intros; subst
  | Err _ = Ok _ => discriminate H
  | _ => idtac
  end.

Ltac facts :=
  repeat match goal with
  | E : assign_row _ _ _ = Ok _ |- _ => apply assign_row_ok in E as [? ?]
  | E : py_set _ _ _ = Ok _ |- _ => apply py_set_ok in E as [? ?]
  | E : py_get _ _ = Ok _ |- _ => apply py_get_ok in E
  end.

Ltac frame_chain :=
  repeat match goal with
  | Hj : ?j <> ?i, H : forall k, k <> ?i -> nth_error ?a k = nth_error ?b k
    |- context [nth_error ?a ?j] => rewrite (H j Hj)
  end; reflexivity.

Lemma sending_step_ok cvn_up t cvn_down vind vrt cap sf tot init _id link sf' tot' init' :
  sending_flow_step cvn_up t cvn_down vind vrt cap (sf, tot, init) _id link
    = Ok (sf', tot', init') ->
  (exists row c, nth_error sf' _id = Some row /\ Forall (fun x => Q0 <= x) row /\
     nth_error cap link = Some c /\ nth_error tot' _id = Some (py_min c (qsum row))) /\
  (forall j, j <> _id -> nth_error sf' j = nth_error sf j /\ nth_error tot' j = nth_error tot j).
Proof.
  unfold sending_flow_step. intros H. inv_ok H; facts;
    (split; [|intros j Hj; split; frame_chain]);
    match goal with
    | E : nth_error sf' _id = Some ?r, E' : nth_error sf' _id = Some (map _ ?r0) |- _ =>
        exists r; eexists; split; [exact E|]; split;
        [replace r with (map (fun x => if Qcltb x Q0 then Q0 else x) r0) by congruence;
         apply clamp_nonneg|];
        split; eassumption
    end.
Qed.
Definition sending_ok (cap : vec) (sf : mat) (tot : vec) (j link : nat) : Prop :=
  exists row c, nth_error sf j = Some row /\ Forall (fun x => Q0 <= x) row /\
    nth_error cap link = Some c /\ nth_error tot j = Some (py_min c (qsum row)).

Lemma sending_loop_ok cvn_up t cvn_down vind vrt cap links :
  forall k sf tot init sf' tot' init',
  sending_flow_loop cvn_up t cvn_down vind vrt cap links k (sf, tot, init)
    = Ok (sf', tot', init') ->
  (forall i link, nth_error links i = Some link -> sending_ok cap sf' tot' (k + i) link) /\
  (forall j, (j < k)%nat -> nth_error sf' j = nth_error sf j /\ nth_error tot' j = nth_error tot j).
Proof.
  induction links as [|link links IH]; intros k sf tot init sf' tot' init' H;
    cbn [sending_flow_loop] in H.
  - injection H as <- <- <-. split; [intros [|i] l Hl; discriminate|]. split; reflexivity.
  - destruct (sending_flow_step cvn_up t cvn_down vind vrt cap (sf, tot, init) k link)
      as [[[sf1 tot1] init1]|e] eqn:Es; cbn [rbind] in H; [|discriminate].
    apply sending_step_ok in Es as [[row [c [Hr [Hn [Hc Ht]]]]] Hfr].
    destruct (IH (S k) _ _ _ _ _ _ H) as [Hall Hfr'].
    split.
    + intros [|i] l Hl; cbn in Hl.
      * injection Hl as <-. rewrite Nat.add_0_r.
        destruct (Hfr' k (Nat.lt_succ_diag_r k)) as [E1 E2].
        exists row, c. rewrite E1, E2. repeat split; assumption.
      * rewrite <- Nat.add_succ_comm. now apply Hall.
    + intros j Hj. destruct (Hfr' j ltac:(lia)) as [E1 E2].
      destruct (Hfr j ltac:(lia)) as [E3 E4]. rewrite E1, E2, E3, E4. split; reflexivity.
Qed.

Ltac close_recv_nonneg :=
  let wi := fresh "wi" in let Hwi := fresh "Hwi" in let Hne := fresh "Hne" in
  intros wi Hwi Hne;
  try match goal with
  | Ec : (?w =? -1)%Z = true |- _ => apply Z.eqb_eq in Ec; exfalso; congruence
  end;
  lazymatch goal with
  | |- Qcle _ ?x =>
    first
      [ match goal with
        | Hl : Qcltb x Q0 = false |- _ => exact (Qcltb_false _ _ Hl)
        end
      | match goal with
        | Hx : nth_error ?T ?i = Some x, H0 : nth_error ?T ?i = Some Q0 |- _ =>
            replace x with Q0 by congruence; apply Qcle_refl
        end
      | match goal with
        | Hx : nth_error ?T ?i = Some x, H0 : nth_error ?T ?i = Some ?y,
          Hl : Qcltb ?y Q0 = false |- _ =>
            replace x with y by congruence; exact (Qcltb_false _ _ Hl)
        end ]
  end.

Lemma receiving_step_ok wrt wind kjm len cap t cvn_down cvn_up step_size
    tot init _id link tot' init' :
  receiving_flow_step wrt wind kjm len cap t cvn_down cvn_up step_size
    (tot, init) _id link = Ok (tot', init') ->
  (exists c x, nth_error cap link = Some c /\
     nth_error tot' _id = Some (py_min (c * step_size) x) /\
     (forall wi, nth_error wind link = Some wi -> wi <> (-1)%Z -> 0 <= x)) /\
  (forall j, j <> _id -> nth_error tot' j = nth_error tot j).
Proof.
  unfold receiving_flow_step. intros H. inv_ok H; facts;
    repeat match goal with Eo : Ok _ = Ok _ |- _ => injection Eo as Eo; subst end;
    (split; [|intros j Hj; frame_chain]);
    (eexists; eexists; split; [eassumption|]; split; [eassumption|]);
    close_recv_nonneg.
Qed.

Definition receiving_ok (cap : vec) (wind : list Z) (step_size : Qc) (tot : vec)
    (j link : nat) : Prop :=
  exists c x, nth_error cap link = Some c /\
    nth_error tot j = Some (py_min (c * step_size) x) /\
    (forall wi, nth_error wind link = Some wi -> wi <> (-1)%Z -> 0 <= x).

Lemma receiving_loop_ok wrt wind kjm len cap t cvn_down cvn_up step_size links :
  forall k tot init tot' init',
  receiving_flow_loop wrt wind kjm len cap t cvn_down cvn_up step_size links k
    (tot, init) = Ok (tot', init') ->
  (forall i link, nth_error links i = Some link ->
     receiving_ok cap wind step_size tot' (k + i) link) /\
  (forall j, (j < k)%nat -> nth_error tot' j = nth_error tot j).
Proof.
  induction links as [|link links IH]; intros k tot init tot' init' H;
    cbn [receiving_flow_loop] in H.
  - injection H as <- <-. split; [intros [|i] l Hl; discriminate|]. reflexivity.
  - destruct (receiving_flow_step wrt wind kjm len cap t cvn_down cvn_up step_size
                (tot, init) k link) as [[tot1 init1]|e] eqn:Es; cbn [rbind] in H;
      [|discriminate].
    apply receiving_step_ok in Es as [Hok Hfr].
    destruct (IH (S k) _ _ _ _ H) as [Hall Hfr'].
    split.
    + intros [|i] l Hl; cbn in Hl.
      * injection Hl as <-. rewrite Nat.add_0_r. unfold receiving_ok.
        now rewrite (Hfr' k (Nat.lt_succ_diag_r k)).
      * rewrite <- Nat.add_succ_comm. now apply Hall.
    + intros j Hj. rewrite (Hfr' j ltac:(lia)). apply Hfr. lia.
Qed.

End ILTMFlowFacts.

Module ILTMFlowClaims.
Import Num ILTM ILTMFlowFacts.
Local Open Scope Qc_scope.

(** X7 *)
(** When [calc_sending_flows] returns, for every position [_id] of
    [local_in_links] with link [link], the row [sending_flow[_id, :]] has no
    negative entry and [tot_sending_flow[_id]] is [min(cap[link], sum of that
    row)]: at most [cap[link]], and non-negative when the capacity is. *)
Theorem calc_sending_flows_clamped (local_in_links : list nat) (cvn_up : arr3)
    (t : nat) (cvn_down : arr3) (vind : list Z) (vrt cap : vec)
    (sending_flow : mat) (tot_sending_flow : vec) (sending_flow_init : list bool)
    sf' tot' init' :
  calc_sending_flows local_in_links cvn_up t cvn_down vind vrt cap
    sending_flow tot_sending_flow sending_flow_init = Ok (sf', tot', init') ->
  forall _id link, nth_error local_in_links _id = Some link ->
  exists row c v,
    nth_error sf' _id = Some row /\ Forall (fun x => 0 <= x) row /\
    nth_error cap link = Some c /\ nth_error tot' _id = Some v /\
    v = py_min c (qsum row) /\ v <= c /\ (0 <= c -> 0 <= v).
Proof.
  unfold calc_sending_flows. intros H _id link Hl.
  destruct (sending_loop_ok _ _ _ _ _ _ _ _ _ _ _ _ _ _ H) as [Hall _].
  destruct (Hall _id link Hl) as [row [c [Hr [Hn [Hc Ht]]]]].
  exists row, c, (py_min c (qsum row)).
  split; [exact Hr|]. split; [exact Hn|]. split; [exact Hc|]. split; [exact Ht|].
  split; [reflexivity|]. split; [apply py_min_le_l|].
  intros Hc0. apply py_min_nonneg; [exact Hc0|]. now apply qsum_nonneg_forall.
Qed.

Local Close Scope Qc_scope.

(** Witness of X7: one link whose sending flow is computed from scratch. *)
Lemma calc_sending_flows_clamped_witness :
  calc_sending_flows [0%nat] [[[Q0]]; [[Q1]]] 1%nat [[[Q0]]; [[Q0]]] [(-1)%Z]
    [Q1] [Q1] [[Q0]] [Q0] [true] = Ok ([[Q0]], [Q0], [false]) /\
  exists row c v,
    nth_error [[Q0]] 0 = Some row /\ Forall (fun x => (0 <= x)%Qc) row /\
    nth_error [Q1] 0 = Some c /\ nth_error [Q0] 0 = Some v /\
    v = py_min c (qsum row) /\ (v <= c)%Qc /\ ((0 <= c)%Qc -> (0 <= v)%Qc).
Proof.
  split; [vm_compute; reflexivity|].
  apply (calc_sending_flows_clamped [0%nat] [[[Q0]]; [[Q1]]] 1%nat
           [[[Q0]]; [[Q0]]] [(-1)%Z] [Q1] [Q1] [[Q0]] [Q0] [true]
           [[Q0]] [Q0] [false]); [vm_compute; reflexivity | reflexivity].
Defined.

Local Open Scope Qc_scope.

(** X8 *)
(** When [calc_receiving_flows] returns, for every position [_id] of
    [local_out_links] with link [link], [tot_receiving_flow[_id]] is at most
    [cap[link] * step_size]; it is non-negative when that bound is and the
    link's [wind] is not [-1] (only the [wind == -1] correction is added after
    negative values are set to zero). *)
Theorem calc_receiving_flows_capped (local_out_links : list nat) (wrt : vec)
    (wind : list Z) (kjm length cap : vec) (t : nat) (tot_receiving_flow : vec)
    (cvn_down cvn_up : arr3) (receiving_flow_init : list bool) (step_size : Qc)
    tot' init' :
  calc_receiving_flows local_out_links wrt wind kjm length cap t
    tot_receiving_flow cvn_down cvn_up receiving_flow_init step_size = Ok (tot', init') ->
  forall _id link, nth_error local_out_links _id = Some link ->
  exists c v, nth_error cap link = Some c /\ nth_error tot' _id = Some v /\
    v <= c * step_size /\
    (forall wi, nth_error wind link = Some wi -> wi <> (-1)%Z ->
       0 <= c * step_size -> 0 <= v).
Proof.
  unfold calc_receiving_flows. intros H _id link Hl.
  destruct (receiving_loop_ok _ _ _ _ _ _ _ _ _ _ _ _ _ _ _ H) as [Hall _].
  destruct (Hall _id link Hl) as [c [x [Hc [Ht Hx]]]].
  exists c, (py_min (c * step_size) x).
  split; [exact Hc|]. split; [exact Ht|]. split; [apply py_min_le_l|].
  intros wi Hwi Hne H0. apply py_min_nonneg; [exact H0|]. exact (Hx wi Hwi Hne).
Qed.

Local Close Scope Qc_scope.

(** Witness of X8: a receiving flow of 2 capped to [cap * step_size = 1]. *)
Lemma calc_receiving_flows_capped_witness :
  calc_receiving_flows [0%nat] [Q0] [0%Z] [Q1] [Q1] [Q1] 1%nat [Q0]
    [[[Q1]]; [[Q1]]] [[[Q0]]; [[Q0]]] [true] Q1 = Ok ([Q1], [false]) /\
  exists c v, nth_error [Q1] 0 = Some c /\ nth_error [Q1] 0 = Some v /\
    (v <= c * Q1)%Qc /\
    (forall wi, nth_error [0%Z] 0 = Some wi -> wi <> (-1)%Z ->
       (0 <= c * Q1)%Qc -> (0 <= v)%Qc).
Proof.
  split; [vm_compute; reflexivity|].
  apply (calc_receiving_flows_capped [0%nat] [Q0] [0%Z] [Q1] [Q1] [Q1] 1%nat [Q0]
           [[[Q1]]; [[Q1]]] [[[Q0]]; [[Q0]]] [true] Q1 [Q1] [false]);
    [vm_compute; reflexivity | reflexivity].
Defined.

End ILTMFlowClaims.

(* ------------------------------------------------------------------ *)
(** ** [utilities.py]: [cvn_to_flows] *)

Module Utilities.
Import Num ILTM.

(** [np.sum(cvn_down, axis=2)]: one total per time step and link. *)
Definition sum_axis2 (a : arr3) : mat := map (map qsum) a.

(** [for time in prange(1, tot_time_steps)]:
    [flows[time, :] = np.abs(-cvn_down[time - 1, :] + cvn_down[time, :])],
    with [cvn_down] already summed over destinations. *)
Fixpoint flows_loop (cvn_down : mat) (times : list nat) (flows : mat) : result mat :=
  match times with
  | [] => Ok flows
  | time :: times' =>
      prev <- py_get cvn_down (time - 1) ;;
      cur <- py_get cvn_down time ;;
      d <- row_add (map Qcopp prev) cur ;;
      flows <- assign_row flows time (map Qcabs d) ;;
      flows_loop cvn_down times' flows
  end.

(** [cvn_to_flows(cvn_down)]; [tot_links] is [cvn_down.shape[1]], the length
    of a time slice. The [float32] rounding of [flows] is not modelled. *)
Definition cvn_to_flows (cvn_down : arr3) : result mat :=
  let tot_time_steps := length cvn_down in
  let tot_links := length (hd [] cvn_down) in
  let cvn_down := sum_axis2 cvn_down in
  let flows := np_zeros tot_time_steps tot_links in
  row0 <- py_get cvn_down 0 ;;
  flows <- assign_row flows 0 row0 ;;
  flows_loop cvn_down (seq 1 (tot_time_steps - 1)) flows.

End Utilities.

Module UtilitiesFacts.
Import Num ILTM Driver Utilities ILTMFlowFacts.
Local Open Scope Qc_scope.

Lemma py_set_some {A} (l : list A) i v :
  (i < length l)%nat -> exists l', py_set l i v = Ok l' /\ length l' = length l.
Proof.
  revert i; induction l as [|x l IH]; intros [|i] Hi; cbn in Hi; try lia.
  - now exists (v :: l).
  - destruct (IH i ltac:(lia)) as [l' [E Hl]]. exists (x :: l'). cbn. rewrite E. cbn.
    split; [reflexivity|]. cbn. now rewrite Hl.
Qed.

Lemma assign_row_some (m : mat) i r old :
  nth_error m i = Some old -> length old = length r ->
  exists m', assign_row m i r = Ok m' /\ length m' = length m /\
    nth_error m' i = Some r /\ forall j, j <> i -> nth_error m' j = nth_error m j.
Proof.
  intros Hi Hl. unfold assign_row, py_get. rewrite Hi. cbn [rbind].
  rewrite Hl, Nat.eqb_refl.
  assert (Hlt : (i < length m)%nat) by (apply nth_error_Some; congruence).
  destruct (py_set_some m i r Hlt) as [m' [E Hm']]. exists m'.
  split; [exact E|]. split; [exact Hm'|]. exact (py_set_ok _ _ _ _ E).
Qed.

Lemma row_add_some (a b : vec) :
  length a = length b ->
  exists r, row_add a b = Ok r /\ length r = length a /\
    forall l, nth l r Q0 = if (l <? length a)%nat then nth l a Q0 + nth l b Q0 else Q0.
Proof.
  revert b; induction a as [|x a IH]; intros [|y b] H; cbn in H; try discriminate.
  - exists []. split; [reflexivity|]. split; [reflexivity|]. intros [|l]; reflexivity.
  - injection H as H. destruct (IH b H) as [r [E [Hl Hn]]].
    exists (x + y :: r). cbn [row_add]. rewrite E. cbn [rbind].
    split; [reflexivity|]. split; [cbn; now rewrite Hl|].
    intros [|l]; [reflexivity|]. cbn [nth length]. rewrite Hn. reflexivity.
Qed.

(** Every row of [m] has [L] entries. *)
Definition rows_of (m : mat) (L : nat) : Prop :=
  forall t r, nth_error m t = Some r -> length r = L.

Lemma flows_loop_some (Sm : mat) (L : nat) (n a : nat) (flows : mat) :
  (1 <= a)%nat -> (a + n <= length Sm)%nat -> length flows = length Sm ->
  rows_of Sm L -> rows_of flows L ->
  exists flows', flows_loop Sm (seq a n) flows = Ok flows' /\
    length flows' = length Sm /\ rows_of flows' L /\
    (forall t, (t < a \/ a + n <= t)%nat -> nth_error flows' t = nth_error flows t) /\
    (forall t l, (a <= t < a + n)%nat -> (l < L)%nat ->
       cell flows' t l = Qcabs (- cell Sm (t - 1) l + cell Sm t l)).
Proof.
  revert a flows; induction n as [|n IH]; intros a flows Ha Hn Hf HS Hfl.
  - exists flows. split; [reflexivity|]. split; [exact Hf|]. split; [exact Hfl|].
    split; [reflexivity|]. intros t l Ht; lia.
  - cbn [seq flows_loop].
    destruct (nth_error Sm (a - 1)) as [p|] eqn:Ep;
      [|apply nth_error_None in Ep; lia].
    destruct (nth_error Sm a) as [c|] eqn:Ec; [|apply nth_error_None in Ec; lia].
    unfold py_get at 1 2. rewrite Ep, Ec. cbn [rbind].
    assert (Hp : length p = L) by exact (HS _ _ Ep).
    assert (Hc : length c = L) by exact (HS _ _ Ec).
    destruct (row_add_some (map Qcopp p) c) as [d [Ed [Hdl Hdn]]];
      [rewrite length_map; congruence|].
    rewrite Ed. cbn [rbind].
    destruct (nth_error flows a) as [old|] eqn:Eo;
      [|apply nth_error_None in Eo; lia].
    destruct (assign_row_some flows a (map Qcabs d) old Eo)
      as [f1 [E1 [Hl1 [Hs1 Hfr1]]]];
      [rewrite length_map, Hdl, length_map, Hp; exact (Hfl _ _ Eo)|].
    rewrite E1. cbn [rbind].
    assert (Hr1 : rows_of f1 L).
    { intros t r Ht. destruct (Nat.eq_dec t a) as [->|Hne].
      - rewrite Hs1 in Ht. injection Ht as <-.
        rewrite length_map, Hdl, length_map. exact Hp.
      - rewrite (Hfr1 t Hne) in Ht. exact (Hfl _ _ Ht). }
    destruct (IH (S a) f1 ltac:(lia) ltac:(lia) ltac:(lia) HS Hr1)
      as [f2 [E2 [Hl2 [Hr2 [Hfr2 Hcell2]]]]].
    exists f2. split; [exact E2|]. split; [exact Hl2|]. split; [exact Hr2|]. split.
    + intros t Ht. rewrite (Hfr2 t ltac:(lia)). apply Hfr1. lia.
    + intros t l Ht Hl. destruct (Nat.eq_dec t a) as [->|Hne].
      * assert (Hf2 : nth_error f2 a = Some (map Qcabs d))
          by (rewrite (Hfr2 a ltac:(lia)); exact Hs1).
        unfold cell.
        rewrite (nth_error_nth f2 a [] Hf2), (nth_error_nth Sm a [] Ec),
          (nth_error_nth Sm (a - 1) [] Ep).
        rewrite (nth_indep _ _ (Qcabs Q0)) by (rewrite length_map, Hdl, length_map; lia).
        rewrite map_nth, Hdn, length_map.
        replace (l <? length p)%nat with true by (symmetry; apply Nat.ltb_lt; lia).
        rewrite (nth_indep _ _ (Qcopp Q0)) by (rewrite length_map; lia).
        rewrite map_nth. reflexivity.
      * apply Hcell2; lia.
Qed.

Lemma rows_of_sum_axis2 (a : arr3) L :
  (forall t r, nth_error a t = Some r -> length r = L) -> rows_of (sum_axis2 a) L.
Proof.
  intros H t r Ht. unfold sum_axis2 in Ht. rewrite nth_error_map in Ht.
  destruct (nth_error a t) as [r0|] eqn:E; cbn in Ht; [|discriminate].
  injection Ht as <-. rewrite length_map. exact (H _ _ E).
Qed.

(** The rows [flows[t]] of [cvn_to_flows] on an array with [T >= 1] time
    slices of [L] links each. *)
Lemma cvn_to_flows_cells (cvn_down : arr3) (L : nat) :
  cvn_down <> [] ->
  (forall t r, nth_error cvn_down t = Some r -> length r = L) ->
  exists flows, cvn_to_flows cvn_down = Ok flows /\
    length flows = length cvn_down /\
    (forall l, cell flows 0%nat l = cell (sum_axis2 cvn_down) 0%nat l) /\
    (forall t l, (1 <= t < length cvn_down)%nat -> (l < L)%nat ->
       cell flows t l =
       Qcabs (- cell (sum_axis2 cvn_down) (t - 1) l + cell (sum_axis2 cvn_down) t l)).
Proof.
  intros Hne HL. destruct cvn_down as [|r0 rest] eqn:Ec; [contradiction|].
  rewrite <- Ec in HL |- *.
  assert (HS : rows_of (sum_axis2 cvn_down) L) by now apply rows_of_sum_axis2.
  assert (Hlen : length (sum_axis2 cvn_down) = length cvn_down)
    by (unfold sum_axis2; now rewrite length_map).
  assert (Hr0 : length r0 = L) by (apply (HL 0%nat); now rewrite Ec).
  assert (Hpos : (1 <= length cvn_down)%nat) by (rewrite Ec; cbn; lia).
  unfold cvn_to_flows.
  replace (hd [] cvn_down) with r0 by now rewrite Ec.
  assert (E0 : nth_error (sum_axis2 cvn_down) 0%nat = Some (map qsum r0))
    by now rewrite Ec.
  unfold py_get at 1. rewrite E0. cbn [rbind].
  destruct (assign_row_some (np_zeros (length cvn_down) (length r0)) 0%nat (map qsum r0)
              (repeat (Q2Qc 0) (length r0)))
    as [f1 [E1 [Hl1 [Hs1 Hfr1]]]].
  { unfold np_zeros. rewrite Ec. reflexivity. }
  { now rewrite repeat_length, length_map. }
  rewrite E1. cbn [rbind].
  unfold np_zeros in Hl1. rewrite repeat_length in Hl1.
  assert (Hr1 : rows_of f1 L).
  { intros t r Ht. destruct (Nat.eq_dec t 0%nat) as [->|Hn].
    - rewrite Hs1 in Ht. injection Ht as <-. now rewrite length_map.
    - rewrite (Hfr1 t Hn) in Ht. unfold np_zeros in Ht.
      apply nth_error_In, repeat_spec in Ht. subst r.
      now rewrite repeat_length. }
  destruct (flows_loop_some (sum_axis2 cvn_down) L (length cvn_down - 1)%nat 1%nat f1)
    as [f2 [E2 [Hl2 [_ [Hfr2 Hcell2]]]]];
    [lia | rewrite Hlen; lia | rewrite Hlen; exact Hl1 | exact HS | exact Hr1 |].
  exists f2. split; [exact E2|]. split; [rewrite Hl2; exact Hlen|]. split.
  - intros l. unfold cell. rewrite (nth_error_nth f2 0%nat [] (eq_trans (Hfr2 0%nat ltac:(lia)) Hs1)).
    now rewrite (nth_error_nth _ 0%nat [] E0).
  - intros t l Ht Hl. apply Hcell2; [lia|exact Hl].
Qed.

End UtilitiesFacts.

Module UtilitiesClaims.
Import Num ILTM Driver Utilities UtilitiesFacts DriverFacts.
Local Open Scope Qc_scope.

(** X9 *)
(** On an array [cvn_down] with at least one time slice, each of [L] links,
    [cvn_to_flows] returns one row per time slice, and for every link whose
    destination-summed cumulative count does not decrease up to time [t], the
    flows of times [0 .. t] add up to that cumulative count at [t]. *)
Theorem cvn_to_flows_prefix_sums (cvn_down : arr3) (L : nat) :
  cvn_down <> [] ->
  (forall t r, nth_error cvn_down t = Some r -> length r = L) ->
  exists flows, cvn_to_flows cvn_down = Ok flows /\
    length flows = length cvn_down /\
    forall t l, (t < length cvn_down)%nat -> (l < L)%nat ->
      (forall s, (s < t)%nat ->
         cell (sum_axis2 cvn_down) s l <= cell (sum_axis2 cvn_down) (S s) l) ->
      qsum (map (fun s => cell flows s l) (seq 0%nat (S t))) = cell (sum_axis2 cvn_down) t l.
Proof.
  intros Hne HL.
  destruct (cvn_to_flows_cells cvn_down L Hne HL) as [flows [E [Hl [H0 Hc]]]].
  exists flows. split; [exact E|]. split; [exact Hl|].
  intros t l Ht Hlt Hmono. induction t as [|t IH].
  - cbn. rewrite H0. unfold qsum; cbn [fold_right]. ring.
  - rewrite seq_S, map_app, qsum_app.
    rewrite IH; [| lia | intros s Hs; apply Hmono; lia].
    cbn [map Nat.add]. unfold qsum; cbn [fold_right].
    rewrite Hc by lia. replace (S t - 1)%nat with t by lia.
    rewrite Qcabs_pos.
    + ring.
    + assert (Hm := Hmono t ltac:(lia)). apply Qcle_minus_iff in Hm.
      rewrite Qcplus_comm. exact Hm.
Qed.

Local Close Scope Qc_scope.

(** Witness of X9: two time steps and two links, one destination. *)
Lemma cvn_to_flows_prefix_sums_witness :
  [[[Q1]; [Q0]]; [[Qcplus Q1 Q1]; [Q1]]] <> [] /\
  (forall t r, nth_error [[[Q1]; [Q0]]; [[Qcplus Q1 Q1]; [Q1]]] t = Some r -> length r = 2) /\
  exists flows,
    cvn_to_flows [[[Q1]; [Q0]]; [[Qcplus Q1 Q1]; [Q1]]] = Ok flows /\
    length flows = length [[[Q1]; [Q0]]; [[Qcplus Q1 Q1]; [Q1]]] /\
    forall t l, t < length [[[Q1]; [Q0]]; [[Qcplus Q1 Q1]; [Q1]]] -> l < 2 ->
      (forall s, s < t ->
         Qcle (cell (sum_axis2 [[[Q1]; [Q0]]; [[Qcplus Q1 Q1]; [Q1]]]) s l)
           (cell (sum_axis2 [[[Q1]; [Q0]]; [[Qcplus Q1 Q1]; [Q1]]]) (S s) l)) ->
      qsum (map (fun s => cell flows s l) (seq 0 (S t)))
        = cell (sum_axis2 [[[Q1]; [Q0]]; [[Qcplus Q1 Q1]; [Q1]]]) t l.
Proof.
  assert (Hne : [[[Q1]; [Q0]]; [[Qcplus Q1 Q1]; [Q1]]] <> []) by discriminate.
  assert (HL : forall t r, nth_error [[[Q1]; [Q0]]; [[Qcplus Q1 Q1]; [Q1]]] t = Some r ->
                 length r = 2)
    by (intros [|[|t]] r H; simpl in H;
        [injection H as <- | injection H as <- | destruct t; discriminate];
        reflexivity).
  split; [exact Hne|]. split; [exact HL|].
  exact (cvn_to_flows_prefix_sums _ 2 Hne HL).
Defined.

End UtilitiesClaims.

(* ------------------------------------------------------------------ *)
(** ** [debugging.py]: the [monotonicity] and [storage] checks *)

Module Debugging.
Import Num ILTM String Ascii.

(** What the checks write: [print] to stdout and [warn] through the
    [warnings] module. *)
Inductive output := Print (msg : string) | Warn (msg : string).

Fixpoint uint_string (d : Decimal.uint) : string :=
  match d with
  | Decimal.Nil => EmptyString
  | Decimal.D0 d => String "0" (uint_string d)
  | Decimal.D1 d => String "1" (uint_string d)
  | Decimal.D2 d => String "2" (uint_string d)
  | Decimal.D3 d => String "3" (uint_string d)
  | Decimal.D4 d => String "4" (uint_string d)
  | Decimal.D5 d => String "5" (uint_string d)
  | Decimal.D6 d => String "6" (uint_string d)
  | Decimal.D7 d => String "7" (uint_string d)
  | Decimal.D8 d => String "8" (uint_string d)
  | Decimal.D9 d => String "9" (uint_string d)
  end.

(** Python's [str] on a non-negative integer. *)
Definition str (n : nat) : string := uint_string (Nat.to_uint n).

(** [a[t, link, d]] on a 3-d array. *)
Definition get3d (a : arr3) (t link d : nat) : result Qc :=
  m <- py_get a t ;; r <- py_get m link ;; py_get r d.

(** [for i in idx: body(i)] inside [try: ... except ValueError]. A body
    returns [Some outs] when it prints [outs] and then raises [ValueError],
    which ends the loops. *)
Fixpoint scan (idx : list nat) (body : nat -> result (option (list output)))
  : result (option (list output)) :=
  match idx with
  | [] => Ok None
  | i :: idx' =>
      r <- body i ;;
      match r with
      | Some outs => Ok (Some outs)
      | None => scan idx' body
      end
  end.

(** The [except ValueError] handler and the final [print]: a [ValueError]
    raised by the loops, with what they printed before it, is turned into
    the warning [failed]; every other exception escapes. *)
Definition handle (r : result (option (list output))) (failed passed : string)
  : result (list output) :=
  match r with
  | Ok None => Ok [Print passed]
  | Ok (Some outs) => Ok (outs ++ [Warn failed; Print passed])
  | Err ValueError => Ok [Warn failed; Print passed]
  | Err e => Err e
  end.

(** [cvn_up[t, link, d] > cvn_up[t + 1, link, d] or
    cvn_down[t, link, d] > cvn_down[t + 1, link, d]], evaluated left to right
    with the short circuit of [or]. *)
Definition monotone_violated (cvn_up cvn_down : arr3) (t link d : nat) : result bool :=
  u0 <- get3d cvn_up t link d ;;
  u1 <- get3d cvn_up (S t) link d ;;
  if Qcltb u1 u0 then Ok true
  else
    x0 <- get3d cvn_down t link d ;;
    x1 <- get3d cvn_down (S t) link d ;;
    Ok (Qcltb x1 x0).

Definition monotonicity_message (link t d : nat) : string :=
  "monotonicity violation for link " ++ str link ++ " at time " ++ str t ++
  " for destination id " ++ str d.

(** [monotonicity(cvn_up, cvn_down)]; the shape is read from [cvn_down]. *)
Definition monotonicity (cvn_up cvn_down : arr3) : result (list output) :=
  let tot_time_steps := List.length cvn_down in
  let tot_links := List.length (hd [] cvn_down) in
  let tot_destinations := List.length (hd [] (hd [] cvn_down)) in
  handle
    (scan (seq 0 (tot_time_steps - 1)) (fun t =>
       scan (seq 0 tot_links) (fun link =>
         scan (seq 0 tot_destinations) (fun d =>
           b <- monotone_violated cvn_up cvn_down t link d ;;
           Ok (if b then Some [Print (monotonicity_message link t d)] else None)))))
    "monotonicity test failed" "monotonicity test passed successfully".

(** [a - b] on two 1-d arrays with numpy broadcasting: equal lengths, or one
    of length 1; other shapes raise [ValueError]. *)
Definition np_sub1 (a b : vec) : result vec :=
  if Nat.eqb (List.length a) (List.length b) then row_sub a b
  else match a, b with
       | [x], _ => Ok (map (Qcminus x) b)
       | _, [y] => Ok (map (fun x => Qcminus x y) a)
       | _, _ => Err ValueError
       end.

Definition storage_message (link t : nat) : string :=
  "storage violation for link " ++ str link ++ " at time " ++ str t.

(** [storage(cvn_up, cvn_down, storage)]. *)
Definition storage (cvn_up cvn_down : arr3) (storage : vec) : result (list output) :=
  let tot_time_steps := List.length cvn_down in
  let tot_links := List.length (hd [] cvn_down) in
  handle
    (scan (seq 0 (tot_time_steps - 1)) (fun t =>
       scan (seq 0 tot_links) (fun link =>
         up <- get3 cvn_up (Z.of_nat t) link ;;
         down <- get3 cvn_down (Z.of_nat t) link ;;
         diff <- np_sub1 up down ;;
         s <- py_get storage link ;;
         Ok (if Qcltb s (qsum diff) then Some [Print (storage_message link t)] else None))))
    "storage test failed" "storage test passed successfully".

End Debugging.

Module DebuggingFacts.
Import Num ILTM Debugging.

Lemma scan_some idx body outs :
  scan idx body = Ok (Some outs) -> exists i, In i idx /\ body i = Ok (Some outs).
Proof.
  induction idx as [|i idx IH]; cbn [scan]; [discriminate|].
  destruct (body i) as [[o|]|e] eqn:E; cbn [rbind]; try discriminate.
  - intros H. injection H as <-. exists i. split; [left; reflexivity|exact E].
  - intros H. destruct (IH H) as [j [Hj Hb]]. exists j. split; [right; exact Hj|exact Hb].
Qed.

Lemma scan_none idx body :
  scan idx body = Ok None -> forall i, In i idx -> body i = Ok None.
Proof.
  induction idx as [|i idx IH]; cbn [scan]; [intros _ j []|].
  destruct (body i) as [[o|]|e] eqn:E; cbn [rbind]; try discriminate.
  intros H j [<-|Hj]; [exact E|exact (IH H j Hj)].
Qed.

Lemma scan_err idx body e :
  scan idx body = Err e -> exists i, In i idx /\ body i = Err e.
Proof.
  induction idx as [|i idx IH]; cbn [scan]; [discriminate|].
  destruct (body i) as [[o|]|e'] eqn:E; cbn [rbind]; try discriminate.
  - intros H. destruct (IH H) as [j [Hj Hb]]. exists j. split; [right; exact Hj|exact Hb].
  - intros H. injection H as <-. exists i. split; [left; reflexivity|exact E].
Qed.

Lemma scan_ext idx body body' :
  (forall i, In i idx -> body i = body' i) -> scan idx body = scan idx body'.
Proof.
  induction idx as [|i idx IH]; intros H; cbn [scan]; [reflexivity|].
  rewrite (H i (or_introl eq_refl)).
  destruct (body' i) as [[o|]|e]; cbn [rbind]; try reflexivity.
  apply IH. intros j Hj. apply H. right. exact Hj.
Qed.

Lemma py_get_err {A} (l : list A) i e : py_get l i = Err e -> e = IndexError.
Proof. unfold py_get. destruct (nth_error l i); congruence. Qed.

Lemma get3d_err a t link d e : get3d a t link d = Err e -> e = IndexError.
Proof.
  unfold get3d. destruct (py_get a t) as [m|e1] eqn:E1; cbn [rbind].
  - destruct (py_get m link) as [r|e2] eqn:E2; cbn [rbind].
    + apply py_get_err.
    + intros H. injection H as <-. exact (py_get_err _ _ _ E2).
  - intros H. injection H as <-. exact (py_get_err _ _ _ E1).
Qed.

Lemma monotone_violated_err up down t link d e :
  monotone_violated up down t link d = Err e -> e = IndexError.
Proof.
  unfold monotone_violated.
  destruct (get3d up t link d) as [u0|e0] eqn:E0; cbn [rbind];
    [|intros H; injection H as <-; exact (get3d_err _ _ _ _ _ E0)].
  destruct (get3d up (S t) link d) as [u1|e1] eqn:E1; cbn [rbind];
    [|intros H; injection H as <-; exact (get3d_err _ _ _ _ _ E1)].
  destruct (Qcltb u1 u0); [discriminate|].
  destruct (get3d down t link d) as [x0|e2] eqn:E2; cbn [rbind];
    [|intros H; injection H as <-; exact (get3d_err _ _ _ _ _ E2)].
  destruct (get3d down (S t) link d) as [x1|e3] eqn:E3; cbn [rbind];
    [discriminate|intros H; injection H as <-; exact (get3d_err _ _ _ _ _ E3)].
Qed.

(** A decrease from time [t] to [t + 1] in one of the two arrays, as the
    condition of [monotonicity] reads it. *)
Definition mono_violation (up down : arr3) (t link d : nat) : Prop :=
  (exists u0 u1, get3d up t link d = Ok u0 /\ get3d up (S t) link d = Ok u1 /\
     Qclt u1 u0) \/
  (exists x0 x1, get3d down t link d = Ok x0 /\ get3d down (S t) link d = Ok x1 /\
     Qclt x1 x0).

Lemma monotone_violated_true up down t link d :
  monotone_violated up down t link d = Ok true -> mono_violation up down t link d.
Proof.
  unfold monotone_violated.
  destruct (get3d up t link d) as [u0|e0] eqn:E0; cbn [rbind]; [|discriminate].
  destruct (get3d up (S t) link d) as [u1|e1] eqn:E1; cbn [rbind]; [|discriminate].
  destruct (Qcltb u1 u0) eqn:Eu.
  - intros _. left. exists u0, u1. split; [exact E0|]. split; [exact E1|].
    exact (ILTMFlowFacts.Qcltb_true _ _ Eu).
  - destruct (get3d down t link d) as [x0|e2] eqn:E2; cbn [rbind]; [|discriminate].
    destruct (get3d down (S t) link d) as [x1|e3] eqn:E3; cbn [rbind]; [|discriminate].
    intros H. injection H as Hx. right. exists x0, x1. split; [exact E2|].
    split; [exact E3|]. exact (ILTMFlowFacts.Qcltb_true _ _ Hx).
Qed.

Lemma Qcltb_complete a b : Qclt a b -> Qcltb a b = true.
Proof. unfold Qcltb. destruct (Qclt_le_dec a b) as [_|H]; [reflexivity|]. intros H'.
  exfalso. exact (Qcle_not_lt _ _ H H'). Qed.

Lemma monotone_violated_false up down t link d :
  monotone_violated up down t link d = Ok false -> ~ mono_violation up down t link d.
Proof.
  unfold monotone_violated.
  destruct (get3d up t link d) as [u0|e0] eqn:E0; cbn [rbind]; [|discriminate].
  destruct (get3d up (S t) link d) as [u1|e1] eqn:E1; cbn [rbind]; [|discriminate].
  destruct (Qcltb u1 u0) eqn:Eu; [discriminate|].
  destruct (get3d down t link d) as [x0|e2] eqn:E2; cbn [rbind]; [|discriminate].
  destruct (get3d down (S t) link d) as [x1|e3] eqn:E3; cbn [rbind]; [|discriminate].
  intros H. injection H as Hx.
  intros [[a [b [Ha [Hb Hl]]]]|[a [b [Ha [Hb Hl]]]]].
  - rewrite E0 in Ha. rewrite E1 in Hb. injection Ha as <-. injection Hb as <-.
    rewrite (Qcltb_complete _ _ Hl) in Eu. discriminate.
  - rewrite E2 in Ha. rewrite E3 in Hb. injection Ha as <-. injection Hb as <-.
    rewrite (Qcltb_complete _ _ Hl) in Hx. discriminate.
Qed.

End DebuggingFacts.

Module DebuggingClaims.
Import Num ILTM Debugging DebuggingFacts String.

(** X10 *)
(** When [monotonicity] returns, it has warned [monotonicity test failed]
    exactly when, for some time [t] before the last one, link and destination
    within the shape of [cvn_down], [cvn_up] or [cvn_down] decreases from [t]
    to [t + 1]; and its last output is always the line [monotonicity test
    passed successfully], also after the warning. *)
Theorem monotonicity_warns_iff_decrease (cvn_up cvn_down : arr3) (out : list output) :
  monotonicity cvn_up cvn_down = Ok out ->
  (In (Warn "monotonicity test failed") out <->
   exists t link d,
     t + 1 < List.length cvn_down /\ link < List.length (hd [] cvn_down) /\
     d < List.length (hd [] (hd [] cvn_down)) /\
     mono_violation cvn_up cvn_down t link d) /\
  last out (Warn "") = Print "monotonicity test passed successfully".
Proof.
  unfold monotonicity, handle.
  set (body := fun t => scan (seq 0 (List.length (hd [] cvn_down))) (fun link =>
         scan (seq 0 (List.length (hd [] (hd [] cvn_down)))) (fun d =>
           b <- monotone_violated cvn_up cvn_down t link d ;;
           Ok (if b then Some [Print (monotonicity_message link t d)] else None)))).
  destruct (scan (seq 0 (List.length cvn_down - 1)) body) as [[outs|]|e] eqn:Es.
  - intros H. injection H as <-. split.
    + split; [intros _|intros _; apply in_or_app; right; left; reflexivity].
      destruct (scan_some _ _ _ Es) as [t [Ht Hb]]. apply in_seq in Ht.
      unfold body in Hb.
      destruct (scan_some _ _ _ Hb) as [link [Hl Hb']]. apply in_seq in Hl.
      destruct (scan_some _ _ _ Hb') as [d [Hd Hb'']]. apply in_seq in Hd.
      destruct (monotone_violated cvn_up cvn_down t link d) as [[|]|e] eqn:Em;
        cbn [rbind] in Hb''; try discriminate.
      exists t, link, d. split; [lia|]. split; [lia|]. split; [lia|].
      now apply monotone_violated_true.
    + change [Warn "monotonicity test failed"; Print "monotonicity test passed successfully"]
        with ([Warn "monotonicity test failed"] ++ [Print "monotonicity test passed successfully"]).
      rewrite app_assoc. apply last_last.
  - intros H. injection H as <-. split; [|reflexivity]. split.
    + intros [Hw|[]]. discriminate.
    + intros [t [link [d [Ht [Hl [Hd Hv]]]]]]. exfalso.
      assert (Hb := scan_none _ _ Es t ltac:(apply in_seq; lia)). unfold body in Hb.
      assert (Hb' := scan_none _ _ Hb link ltac:(apply in_seq; lia)). cbn beta in Hb'.
      assert (Hb'' := scan_none _ _ Hb' d ltac:(apply in_seq; lia)). cbn beta in Hb''.
      destruct (monotone_violated cvn_up cvn_down t link d) as [[|]|e] eqn:Em;
        cbn [rbind] in Hb''; try discriminate.
      exact (monotone_violated_false _ _ _ _ _ Em Hv).
  - destruct e; try discriminate. exfalso.
    destruct (scan_err _ _ _ Es) as [t [_ Hb]]. unfold body in Hb.
    destruct (scan_err _ _ _ Hb) as [link [_ Hb']].
    destruct (scan_err _ _ _ Hb') as [d [_ Hb'']].
    destruct (monotone_violated cvn_up cvn_down t link d) as [[|]|e] eqn:Em;
      cbn [rbind] in Hb''; try discriminate.
    injection Hb'' as ->. apply monotone_violated_err in Em. discriminate.
Qed.

(** X11 *)
(** [storage] never reads the last time step: two calls whose [cvn_down]
    have the same number of time steps [T] and whose [cvn_up] and [cvn_down]
    agree on the time steps before [T - 1] give the same outcome, whatever the
    two arrays hold at [T - 1] and after. *)
Theorem storage_ignores_last_step (cvn_up cvn_down cvn_up' cvn_down' : arr3) (s : vec) :
  List.length cvn_down' = List.length cvn_down ->
  (forall t, t + 1 < List.length cvn_down ->
     nth_error cvn_up' t = nth_error cvn_up t /\ nth_error cvn_down' t = nth_error cvn_down t) ->
  storage cvn_up' cvn_down' s = storage cvn_up cvn_down s.
Proof.
  intros Hlen Hsame. unfold storage. rewrite Hlen.
  destruct (List.length cvn_down) as [|[|T]] eqn:ET; [reflexivity|reflexivity|].
  replace (hd [] cvn_down') with (hd [] cvn_down).
  2:{ destruct (Hsame 0 ltac:(lia)) as [_ H0].
      destruct cvn_down as [|x l]; [discriminate|].
      destruct cvn_down' as [|x' l']; [discriminate|]. cbn in H0 |- *. congruence. }
  f_equal. apply scan_ext. intros t Ht. apply in_seq in Ht.
  destruct (Hsame t ltac:(lia)) as [Hu Hd].
  apply scan_ext. intros link _.
  unfold get3, py_getz. rewrite Nat2Z.id.
  replace (Z.of_nat t <? 0)%Z with false by (symmetry; apply Z.ltb_ge; lia).
  unfold py_get at 1 3. rewrite Hu, Hd. reflexivity.
Qed.

(** Witness of X10: [cvn_up] drops from 1 to 0 on link 0. *)
Lemma monotonicity_warns_iff_decrease_witness :
  monotonicity [[[Q1]]; [[Q0]]] [[[Q0]]; [[Q0]]] =
    Ok [Print "monotonicity violation for link 0 at time 0 for destination id 0";
        Warn "monotonicity test failed"; Print "monotonicity test passed successfully"] /\
  (In (Warn "monotonicity test failed")
      [Print "monotonicity violation for link 0 at time 0 for destination id 0";
       Warn "monotonicity test failed"; Print "monotonicity test passed successfully"] <->
   exists t link d,
     t + 1 < List.length [[[Q0]]; [[Q0]]] /\ link < List.length (hd [] [[[Q0]]; [[Q0]]]) /\
     d < List.length (hd [] (hd [] [[[Q0]]; [[Q0]]])) /\
     mono_violation [[[Q1]]; [[Q0]]] [[[Q0]]; [[Q0]]] t link d) /\
  last [Print "monotonicity violation for link 0 at time 0 for destination id 0";
        Warn "monotonicity test failed"; Print "monotonicity test passed successfully"]
    (Warn "") = Print "monotonicity test passed successfully".
Proof.
  assert (H : monotonicity [[[Q1]]; [[Q0]]] [[[Q0]]; [[Q0]]] =
    Ok [Print "monotonicity violation for link 0 at time 0 for destination id 0";
        Warn "monotonicity test failed"; Print "monotonicity test passed successfully"])
    by (vm_compute; reflexivity).
  split; [exact H|].
  exact (monotonicity_warns_iff_decrease _ _ _ H).
Defined.

(** Witness of X11: a last step of [cvn_up] far above [storage] is not
    reported. *)
Lemma storage_ignores_last_step_witness :
  List.length [[[Q0]]; [[Q0]]] = List.length [[[Q0]]; [[Q0]]] /\
  (forall t, t + 1 < List.length [[[Q0]]; [[Q0]]] ->
     nth_error [[[Q0]]; [[Q2Qc (inject_Z 100)]]] t = nth_error [[[Q0]]; [[Q0]]] t /\
     nth_error [[[Q0]]; [[Q0]]] t = nth_error [[[Q0]]; [[Q0]]] t) /\
  storage [[[Q0]]; [[Q2Qc (inject_Z 100)]]] [[[Q0]]; [[Q0]]] [Q0]
    = storage [[[Q0]]; [[Q0]]] [[[Q0]]; [[Q0]]] [Q0] /\
  storage [[[Q0]]; [[Q0]]] [[[Q0]]; [[Q0]]] [Q0]
    = Ok [Print "storage test passed successfully"].
Proof.
  assert (Hl : List.length [[[Q0]]; [[Q0]]] = List.length [[[Q0]]; [[Q0]]]) by reflexivity.
  assert (Hs : forall t, t + 1 < List.length [[[Q0]]; [[Q0]]] ->
     nth_error [[[Q0]]; [[Q2Qc (inject_Z 100)]]] t = nth_error [[[Q0]]; [[Q0]]] t /\
     nth_error [[[Q0]]; [[Q0]]] t = nth_error [[[Q0]]; [[Q0]]] t)
    by (intros [|t] Ht; [split; reflexivity | simpl in Ht; lia]).
  split; [exact Hl|]. split; [exact Hs|]. split.
  - exact (storage_ignores_last_step _ _ _ _ [Q0] Hl Hs).
  - vm_compute. reflexivity.
Defined.

End DebuggingClaims.

(* ------------------------------------------------------------------ *)
(** ** [_build_demand]: the time tags on the grid of [np.arange] *)

Module DemandFacts.
Import Num Demand.
Local Open Scope Qc_scope.

Lemma argmin_from_zero (post : list Qc) k bi :
  (forall x, In x post -> 0 <= x) -> argmin_from post k bi 0 = bi.
Proof.
  revert k; induction post as [|x post IH]; intros k H; cbn [argmin_from]; [reflexivity|].
  destruct (Qcltb x 0) eqn:E.
  - exfalso. apply ILTMFlowFacts.Qcltb_true in E.
    exact (Qcle_not_lt _ _ (H x (or_introl eq_refl)) E).
  - apply IH. intros y Hy. apply H. right. exact Hy.
Qed.

Lemma argmin_from_pre (pre post : list Qc) k bi b :
  0 < b -> (forall x, In x pre -> 0 < x) ->
  argmin_from (pre ++ 0 :: post) k bi b
  = argmin_from post (S (k + length pre)) (k + length pre) 0.
Proof.
  revert k bi b; induction pre as [|x pre IH]; intros k bi b Hb H.
  - cbn [app argmin_from length]. rewrite Nat.add_0_r.
    replace (Qcltb 0 b) with true; [reflexivity|].
    symmetry. unfold Qcltb. destruct (Qclt_le_dec 0 b) as [_|Hle]; [reflexivity|].
    exfalso. exact (Qcle_not_lt _ _ Hle Hb).
  - cbn [app argmin_from length].
    assert (Hx : 0 < x) by (apply H; left; reflexivity).
    assert (Hp : forall y, In y pre -> 0 < y) by (intros y Hy; apply H; right; exact Hy).
    replace (k + S (length pre))%nat with (S k + length pre)%nat by lia.
    destruct (Qcltb x b); apply IH; assumption.
Qed.

(** [np.argmin] of non-negative values with a single zero, at position
    [length pre]. *)
Lemma np_argmin_zero (pre post : list Qc) :
  (forall x, In x pre -> 0 < x) -> (forall x, In x post -> 0 <= x) ->
  np_argmin (pre ++ 0 :: post) = Ok (length pre).
Proof.
  intros Hpre Hpost. destruct pre as [|x pre]; cbn [app np_argmin length].
  - now rewrite argmin_from_zero.
  - rewrite argmin_from_pre.
    + rewrite argmin_from_zero by exact Hpost. reflexivity.
    + apply Hpre. left. reflexivity.
    + intros y Hy. apply Hpre. right. exact Hy.
Qed.

Definition arange_at (start step : Qc) (i : nat) : Qc :=
  Qcplus start (Qcmult (Q2Qc (inject_Z (Z.of_nat i))) step).

Lemma np_arange_map start stop step :
  np_arange start stop step
  = map (arange_at start step)
        (seq 0 (Z.to_nat (Qceiling (Qcdiv (Qcminus stop start) step)))).
Proof. reflexivity. Qed.

Lemma arange_at_inj start step i j :
  0 < step -> arange_at start step i = arange_at start step j -> i = j.
Proof.
  unfold arange_at. intros Hs H.
  assert (Hz : (Q2Qc (inject_Z (Z.of_nat i)) - Q2Qc (inject_Z (Z.of_nat j))) * step = 0).
  { transitivity ((start + Q2Qc (inject_Z (Z.of_nat i)) * step)
                  - (start + Q2Qc (inject_Z (Z.of_nat j)) * step)); [ring|].
    rewrite H. ring. }
  apply Qcmult_integral in Hz as [Hz|Hz].
  - assert (Hq : Q2Qc (inject_Z (Z.of_nat i)) = Q2Qc (inject_Z (Z.of_nat j))).
    { transitivity ((Q2Qc (inject_Z (Z.of_nat i)) - Q2Qc (inject_Z (Z.of_nat j)))
                    + Q2Qc (inject_Z (Z.of_nat j))); [ring|].
      rewrite Hz. ring. }
    apply Q2Qc_eq_iff in Hq. unfold Qeq, inject_Z in Hq. cbn [Qnum Qden] in Hq. lia.
  - exfalso. exact (Qclt_not_eq _ _ Hs (eq_sym Hz)).
Qed.

Lemma Qcabs_pos_neq x : x <> 0 -> 0 < Qcabs x.
Proof.
  intros H. destruct (Qcle_lt_or_eq _ _ (Qcabs_nonneg x)) as [Hl|He]; [exact Hl|].
  exfalso. apply H. apply Qcabs_null. symmetry. exact He.
Qed.

Lemma seq_split_at (n i : nat) :
  (i < n)%nat -> seq 0 n = seq 0 i ++ i :: seq (S i) (n - S i).
Proof.
  intros Hi. replace n with (i + S (n - S i))%nat at 1 by lia.
  rewrite seq_app. reflexivity.
Qed.

(** On the grid [time] of [np.arange] with a positive step, the time step
    found for [time[i]] is [i]. *)
Lemma argmin_on_grid start step n i :
  0 < step -> (i < n)%nat ->
  np_argmin (map (fun x => Qcabs (Qcminus (arange_at start step i) x))
                 (map (arange_at start step) (seq 0 n))) = Ok i.
Proof.
  intros Hs Hi. rewrite map_map, (seq_split_at n i Hi), map_app. cbn [map].
  replace (Qcabs (arange_at start step i - arange_at start step i)) with 0.
  2:{ replace (arange_at start step i - arange_at start step i) with (Q2Qc 0) by ring.
      symmetry. apply Qcabs_pos, Qcle_refl. }
  rewrite np_argmin_zero.
  - rewrite length_map, length_seq. reflexivity.
  - intros x Hx. apply in_map_iff in Hx as [j [<- Hj]]. apply in_seq in Hj.
    apply Qcabs_pos_neq. intros H0. assert (Heq : arange_at start step i = arange_at start step j)
      by (transitivity (arange_at start step i - arange_at start step j + arange_at start step j);
          [ring | rewrite H0; ring]).
    apply arange_at_inj in Heq; [lia|exact Hs].
  - intros x Hx. apply in_map_iff in Hx as [j [<- _]]. apply Qcabs_nonneg.
Qed.

Lemma loading_time_steps_grid start step n :
  0 < step ->
  loading_time_steps (map (arange_at start step) (seq 0 n)) = Ok (seq 0 n).
Proof.
  intros Hs. unfold loading_time_steps.
  assert (H : forall a m, (a + m <= n)%nat ->
            result_map (fun insertion_time =>
              np_argmin (map (fun x => Qcabs (Qcminus insertion_time x))
                             (map (arange_at start step) (seq 0 n))))
              (map (arange_at start step) (seq a m)) = Ok (seq a m)).
  { intros a m; revert a; induction m as [|m IH]; intros a Ham; [reflexivity|].
    cbn [seq map result_map]. rewrite argmin_on_grid by (assumption || lia).
    cbn [rbind]. rewrite IH by lia. reflexivity. }
  apply H. lia.
Qed.

Lemma map_fst_combine {X Y} (l : list X) (l' : list Y) :
  map fst (combine l l') = firstn (length l') l.
Proof.
  revert l'; induction l as [|x l IH]; intros [|y l']; cbn; try reflexivity.
  f_equal. apply IH.
Qed.

Lemma map_snd_combine {X Y} (l : list X) (l' : list Y) :
  map snd (combine l l') = firstn (length l) l'.
Proof.
  revert l'; induction l as [|x l IH]; intros [|y l']; cbn; try reflexivity.
  f_equal. apply IH.
Qed.

Lemma firstn_seq_0 k n : firstn k (seq 0 n) = seq 0 (Nat.min k n).
Proof.
  assert (H : forall a, firstn k (seq a n) = seq a (Nat.min k n)).
  { revert n; induction k as [|k IH]; intros n a; [reflexivity|].
    destruct n as [|n]; [reflexivity|]. cbn. f_equal. apply IH. }
  apply H.
Qed.

End DemandFacts.

Module DemandTagClaims.
Import Num Demand DemandFacts.
Local Open Scope Qc_scope.

(** X12 *)
(** With a positive step size, whenever [_build_demand] returns, the static
    demands are the first matrices of [demand_data], one per time step of
    [np.arange(start, end, step_size)] at most, and the [k]-th of them is
    tagged with loading time step [k], whatever [insertion_time] holds. *)
Theorem build_demand_tag_is_position (LilMatrix Payload : Type)
    (snapshot_payloads : list LilMatrix -> result (list Payload))
    (demand_data : list LilMatrix) (insertion_time : list Qc)
    (simulation_time : SimulationTime) (d : DynamicDemand Payload) :
  0 < st_step_size simulation_time ->
  _build_demand LilMatrix Payload snapshot_payloads demand_data insertion_time
    simulation_time = Ok d ->
  exists payloads, snapshot_payloads demand_data = Ok payloads /\
    map (sd_payload Payload) (dd_static_demands Payload d)
      = firstn (length (np_arange (st_start simulation_time) (st_end simulation_time)
                                  (st_step_size simulation_time))) payloads /\
    map (sd_loading_time_step Payload) (dd_static_demands Payload d)
      = seq 0 (length (dd_static_demands Payload d)).
Proof.
  intros Hs. unfold _build_demand.
  destruct (negb (insertion_times_ok insertion_time (st_step_size simulation_time)));
    [discriminate|].
  rewrite np_arange_map, loading_time_steps_grid by exact Hs. cbn [rbind].
  destruct (snapshot_payloads demand_data) as [payloads|e]; cbn [rbind]; [|discriminate].
  intros H. injection H as <-. cbn [dd_static_demands].
  exists payloads. split; [reflexivity|].
  set (n := Z.to_nat (Qceiling (Qcdiv (Qcminus (st_end simulation_time)
              (st_start simulation_time)) (st_step_size simulation_time)))).
  rewrite !map_map. split.
  - rewrite length_map, length_seq.
    transitivity (map snd (combine (seq 0 n) payloads)).
    + apply map_ext. intros [a b]. reflexivity.
    + rewrite map_snd_combine, length_seq. reflexivity.
  - rewrite length_map, length_combine, length_seq.
    transitivity (map fst (combine (seq 0 n) payloads)).
    + apply map_ext. intros [a b]. reflexivity.
    + rewrite map_fst_combine, firstn_seq_0, Nat.min_comm. reflexivity.
Qed.

(** Witness of X12: three matrices for two time steps; insertion times 0
    and 5 do not change the tags. *)
Lemma build_demand_tag_is_position_witness :
  Q2Qc 0 < Q2Qc 1 /\
  _build_demand nat nat (fun m => Ok m) [20%nat; 30%nat; 40%nat] [Q2Qc 0; Q2Qc (inject_Z 5)]
    {| st_start := Q2Qc 0; st_end := Q2Qc (inject_Z 2); st_step_size := Q2Qc 1;
       st_tot_time_steps := 2 |}
  = Ok {| dd_static_demands :=
            [{| sd_payload := 20%nat; sd_loading_time_step := 0%nat |};
             {| sd_payload := 30%nat; sd_loading_time_step := 1%nat |}];
          dd_tot_time_steps := 2 |} /\
  exists payloads, (fun m : list nat => Ok m : result (list nat)) [20%nat; 30%nat; 40%nat] = Ok payloads /\
    map (sd_payload nat) [{| sd_payload := 20%nat; sd_loading_time_step := 0%nat |};
                          {| sd_payload := 30%nat; sd_loading_time_step := 1%nat |}]
      = firstn (length (np_arange (Q2Qc 0) (Q2Qc (inject_Z 2)) (Q2Qc 1))) payloads /\
    map (sd_loading_time_step nat)
        [{| sd_payload := 20%nat; sd_loading_time_step := 0%nat |};
         {| sd_payload := 30%nat; sd_loading_time_step := 1%nat |}]
      = seq 0 (length [{| sd_payload := 20%nat; sd_loading_time_step := 0%nat |};
                       {| sd_payload := 30%nat; sd_loading_time_step := 1%nat |}]).
Proof.
  assert (Hs : Q2Qc 0 < Q2Qc 1) by (vm_compute; reflexivity).
  assert (Hb : _build_demand nat nat (fun m => Ok m) [20%nat; 30%nat; 40%nat]
      [Q2Qc 0; Q2Qc (inject_Z 5)]
      {| st_start := Q2Qc 0; st_end := Q2Qc (inject_Z 2); st_step_size := Q2Qc 1;
         st_tot_time_steps := 2 |}
    = Ok {| dd_static_demands :=
              [{| sd_payload := 20%nat; sd_loading_time_step := 0%nat |};
               {| sd_payload := 30%nat; sd_loading_time_step := 1%nat |}];
            dd_tot_time_steps := 2 |}) by (vm_compute; reflexivity).
  split; [exact Hs|]. split; [exact Hb|].
  exact (build_demand_tag_is_position nat nat (fun m => Ok m) [20%nat; 30%nat; 40%nat]
           [Q2Qc 0; Q2Qc (inject_Z 5)]
           {| st_start := Q2Qc 0; st_end := Q2Qc (inject_Z 2); st_step_size := Q2Qc 1;
              st_tot_time_steps := 2 |} _ Hs Hb).
Defined.

End DemandTagClaims.

(* ------------------------------------------------------------------ *)
(** ** [calc_turning_flows]: accumulation of the turn flows *)

Module ILTMTurning.
Import Num ILTM.
Local Open Scope Qc_scope.

(** [np.sum(local_sending_flow[in_link, :] * turning_fractions[t - 1, turn, :])],
    the amount one turn adds in the loop of [calc_turning_flows] (read with
    [0] for a turn whose slice does not exist). *)
Definition turn_flow (local_sending_flow : mat) (turning_fractions : arr3)
    (t in_link turn : nat) : Qc :=
  match get3 turning_fractions (Z.of_nat t - 1) turn with
  | Ok tf => qsum (map (fun '(a, b) => Qcmult a b)
                       (combine (nth in_link local_sending_flow []) tf))
  | Err _ => Q0
  end.

(** The turns of [zip(turn_in_links, turn_out_links, turns)] that write the
    entry [(i, j)] of [local_turning_flows]. *)
Definition turns_at (turn_in_links turn_out_links turns : list nat) (i j : nat)
  : list (nat * nat * nat) :=
  filter (fun '(a, b, _) => Nat.eqb a i && Nat.eqb b j)
         (combine (combine turn_in_links turn_out_links) turns).

End ILTMTurning.

Module ILTMTurningFacts.
Import Num ILTM Driver ILTMTurning.
Local Open Scope Qc_scope.

Lemma nth_py_set {A} (l l' : list A) i v :
  py_set l i v = Ok l' ->
  length l' = length l /\ forall j d, nth j l' d = if Nat.eqb j i then v else nth j l d.
Proof.
  revert l' i; induction l as [|y l IH]; intros l' [|i] H; cbn in H; try discriminate.
  - injection H as <-. split; [reflexivity|]. intros [|j] d; reflexivity.
  - destruct (py_set l i v) as [r|e] eqn:E; cbn in H; [|discriminate].
    injection H as <-. destruct (IH r i E) as [Hl Hn].
    split; [cbn; now rewrite Hl|]. intros [|j] d; [reflexivity|]. cbn. apply Hn.
Qed.

Lemma py_get_nth {A} (l : list A) i x d : py_get l i = Ok x -> nth i l d = x.
Proof.
  unfold py_get. destruct (nth_error l i) eqn:E; [|discriminate].
  intros H; injection H as <-. now apply nth_error_nth.
Qed.

Lemma turning_flow_loop_acc ins outs turns lsf tf t m m' :
  turning_flow_loop ins outs turns lsf m tf t = Ok m' ->
  length m' = length m /\
  (forall i, length (nth i m' []) = length (nth i m [])) /\
  forall i j, cell m' i j =
    cell m i j + qsum (map (fun '(a, _, tr) => turn_flow lsf tf t a tr)
                           (turns_at ins outs turns i j)).
Proof.
  revert outs turns m; induction ins as [|a ins IH];
    intros [|b outs] [|tr turns] m H; cbn in H;
    try (injection H as <-; split; [reflexivity|]; split; [reflexivity|];
         intros i j; unfold turns_at; cbn; now rewrite Qcplus_0_r).
  destruct (py_get m a) as [row|e] eqn:Erow; cbn [rbind] in H; [|discriminate].
  destruct (py_get row b) as [f|e] eqn:Ef; cbn [rbind] in H; [|discriminate].
  destruct (py_get lsf a) as [sf|e] eqn:Esf; cbn [rbind] in H; [|discriminate].
  destruct (get3 tf (Z.of_nat t - 1) tr) as [tv|e] eqn:Etf; cbn [rbind] in H; [|discriminate].
  destruct (Nat.eqb (length sf) (length tv)); cbn [rbind] in H; [|discriminate].
  destruct (py_set row b _) as [row'|e] eqn:Erow'; cbn [rbind] in H; [|discriminate].
  destruct (py_set m a row') as [m1|e] eqn:Em1; cbn [rbind] in H; [|discriminate].
  destruct (IH outs turns m1 H) as [Hl [Hr Hc]].
  destruct (nth_py_set _ _ _ _ Erow') as [Hl' Hn'].
  destruct (nth_py_set _ _ _ _ Em1) as [Hl1 Hn1].
  apply (py_get_nth _ _ _ []) in Erow. apply (py_get_nth _ _ _ (Q2Qc 0)) in Ef.
  apply (py_get_nth _ _ _ []) in Esf.
  split; [congruence|]. split.
  - intros i. rewrite Hr, Hn1. destruct (Nat.eqb i a) eqn:Ei; [|reflexivity].
    apply Nat.eqb_eq in Ei; subst i. now rewrite Hl', Erow.
  - intros i j. rewrite Hc. unfold cell. rewrite Hn1.
    unfold turns_at. cbn [combine filter].
    destruct (Nat.eqb a i) eqn:Ea, (Nat.eqb b j) eqn:Eb; cbn [andb map qsum fold_right];
      fold (turns_at ins outs turns i j).
    + apply Nat.eqb_eq in Ea, Eb; subst i j. rewrite Nat.eqb_refl, Hn', Nat.eqb_refl.
      unfold turn_flow. rewrite Etf, Esf, Erow, Ef. unfold qsum at 2. cbn [fold_right].
      fold qsum. now rewrite Qcplus_assoc.
    + rewrite Nat.eqb_sym, Ea, Hn', Nat.eqb_sym, Eb. apply Nat.eqb_eq in Ea; subst i.
      now rewrite Erow.
    + rewrite Nat.eqb_sym, Ea. reflexivity.
    + rewrite Nat.eqb_sym, Ea. reflexivity.
Qed.

End ILTMTurningFacts.

Module ILTMTurningClaims.
Import Num ILTM Driver ILTMTurning ILTMTurningFacts.
Local Open Scope Qc_scope.

(** X13 *)
(** When [calc_turning_flows] is called with more than one out link and
    returns, [local_turning_fractions] is unchanged, [local_turning_flows]
    keeps its shape, and each of its entries [(i, j)] has grown by the sum,
    over every turn of [zip(turn_in_links, turn_out_links, turns)] whose in
    and out labels are [i] and [j], of
    [np.sum(local_sending_flow[i, :] * turning_fractions[t - 1, turn, :])]:
    turns sharing an entry add up, and entries no turn names keep their value. *)
Theorem calc_turning_flows_accumulates (tot_out_links : nat)
    (local_turning_fractions : mat) (turn_in_links turn_out_links turns : list nat)
    (local_sending_flow local_turning_flows : mat) (turning_fractions : arr3)
    (t : nat) ltf' ltfl' :
  tot_out_links <> 1%nat ->
  calc_turning_flows tot_out_links local_turning_fractions turn_in_links
    turn_out_links turns local_sending_flow local_turning_flows turning_fractions t
    = Ok (ltf', ltfl') ->
  ltf' = local_turning_fractions /\
  length ltfl' = length local_turning_flows /\
  (forall i, length (nth i ltfl' []) = length (nth i local_turning_flows [])) /\
  forall i j, cell ltfl' i j =
    cell local_turning_flows i j +
    qsum (map (fun '(a, _, turn) => turn_flow local_sending_flow turning_fractions t a turn)
              (turns_at turn_in_links turn_out_links turns i j)).
Proof.
  intros Hn H. unfold calc_turning_flows in H.
  apply Nat.eqb_neq in Hn. rewrite Hn in H.
  destruct (turning_flow_loop _ _ _ _ _ _ _) as [m'|e] eqn:E; cbn [rbind] in H;
    [|discriminate].
  injection H as <- <-. split; [reflexivity|]. now apply turning_flow_loop_acc.
Qed.

Local Close Scope Qc_scope.

Lemma calc_turning_flows_accumulates_witness :
  calc_turning_flows 2 [[Q0; Q0]] [0; 0] [1; 1] [0; 1] [[Q1]] [[Q0; Q0]]
    [[[Q1]; [Q1]]] 1 = Ok ([[Q0; Q0]], [[Q0; Qcplus (Qcplus Q0 (Qcmult Q1 Q1)) (Qcmult Q1 Q1)]]) /\
  [[Q0; Q0]] = [[Q0; Q0]] /\
  length [[Q0; Qcplus (Qcplus Q0 (Qcmult Q1 Q1)) (Qcmult Q1 Q1)]] = length [[Q0; Q0]] /\
  (forall i, length (nth i [[Q0; Qcplus (Qcplus Q0 (Qcmult Q1 Q1)) (Qcmult Q1 Q1)]] []) =
             length (nth i [[Q0; Q0]] [])) /\
  forall i j, cell [[Q0; Qcplus (Qcplus Q0 (Qcmult Q1 Q1)) (Qcmult Q1 Q1)]] i j =
    Qcplus (cell [[Q0; Q0]] i j)
     (qsum (map (fun '(a, _, turn) => turn_flow [[Q1]] [[[Q1]; [Q1]]] 1 a turn)
               (turns_at [0; 0] [1; 1] [0; 1] i j))).
Proof.
  split; [vm_compute; reflexivity|].
  apply (calc_turning_flows_accumulates 2 [[Q0; Q0]] [0; 0] [1; 1] [0; 1] [[Q1]]
           [[Q0; Q0]] [[[Q1]; [Q1]]] 1 [[Q0; Q0]] [[Q0; Qcplus (Qcplus Q0 (Qcmult Q1 Q1)) (Qcmult Q1 Q1)]]);
    [lia | vm_compute; reflexivity].
Defined.

End ILTMTurningClaims.
